(** * Jiminy simulation kernel: telemetry registry and recorder, distance
      constraint, Dormand-Prince step control.

    Shallow embedding of
    - [core/include/jiminy/core/telemetry/telemetry_data.hxx]
    - [core/src/telemetry/telemetry_recorder.cc]
    - [core/src/constraints/distance_constraint.cc]
    - [core/src/stepper/runge_kutta_dopri_stepper.cc]

    Conventions.  Byte counts and cursors are [Z], as the [int64_t] of the
    source; they address buffers held in memory and stay far below [2^63], so
    no wrap-around is written for them.  Values that are serialised (signal
    values, time stamps) are wrapped to 64 bits where they are written.
    Strings are [string] in the registry and [list byte] once they are in a
    buffer. *)

From Stdlib Require Import ZArith List Lia Bool String QArith Reals Lra.
From coqutil Require Import Byte Word.LittleEndianList.
Import ListNotations.

Local Open Scope Z_scope.

(** [hresult_t] of [jiminy/core/exceptions.h]. *)
Inductive hresult_t : Type :=
| SUCCESS
| ERROR_GENERIC
| ERROR_BAD_INPUT
| ERROR_INIT_FAILED.

Definition hresult_eqb (a b : hresult_t) : bool :=
  match a, b with
  | SUCCESS, SUCCESS | ERROR_GENERIC, ERROR_GENERIC
  | ERROR_BAD_INPUT, ERROR_BAD_INPUT | ERROR_INIT_FAILED, ERROR_INIT_FAILED => true
  | _, _ => false
  end.

(** ** Telemetry data registry ([telemetry_data.hxx]) *)

Module TelemetryData.

(** The two instantiations of the [registerVariable<T>] template. *)
Inductive kind : Type := Int64 | Float64.

(** [std::deque<std::pair<std::string, T>>].  An [int64_t] value is its
    integer, a [float64_t] value its 64-bit pattern; [T{}] is [0] for both. *)
Definition deque : Type := list (string * Z).

Record t : Type := mk {
  constantsRegistry_ : list (string * string);
  integersRegistry_ : deque;
  floatsRegistry_ : deque;
  isRegisteringAvailable_ : bool
}.

Definition getRegistry (k : kind) (d : t) : deque :=
  match k with
  | Int64 => integersRegistry_ d
  | Float64 => floatsRegistry_ d
  end.

Definition setRegistry (k : kind) (r : deque) (d : t) : t :=
  match k with
  | Int64 => mk (constantsRegistry_ d) r (floatsRegistry_ d) (isRegisteringAvailable_ d)
  | Float64 => mk (constantsRegistry_ d) (integersRegistry_ d) r (isRegisteringAvailable_ d)
  end.

(** [std::find_if(begin, end, pred)] as the index of the first match. *)
Fixpoint find_if {A : Type} (pred : A -> bool) (l : list A) : option nat :=
  match l with
  | [] => None
  | x :: r => if pred x then Some 0%nat else option_map S (find_if pred r)
  end.

(** A [T *] into the registry of kind [k] is the index of the element: a
    deque keeps the address of its elements when one is appended. *)
Definition slot : Type := nat.

(** [TelemetryData::registerVariable<T>(name, positionInBuffer)].  The
    out-parameter is passed in and returned; it is returned as it came when
    the call fails. *)
Definition registerVariable (k : kind) (name : string)
    (positionInBuffer : option slot) (d : t) : hresult_t * option slot * t :=
  let registry := getRegistry k d in
  match find_if (fun element => String.eqb (fst element) name) registry with
  | Some variableIt => (SUCCESS, Some variableIt, d)
  | None =>
      if negb (isRegisteringAvailable_ d)
      then (ERROR_GENERIC, positionInBuffer, d)
      else (SUCCESS, Some (List.length registry),
            setRegistry k (registry ++ [(name, 0)]) d)
  end.

(** What a slot points to. *)
Definition deref (k : kind) (p : slot) (d : t) : option (string * Z) :=
  nth_error (getRegistry k d) p.

(** Registering a list of names in turn, out-parameters dropped. *)
Fixpoint registerAll (k : kind) (names : list string) (d : t) : t :=
  match names with
  | [] => d
  | n :: r => registerAll k r (snd (registerVariable k n None d))
  end.

Lemma find_if_none {A} (pred : A -> bool) l :
  find_if pred l = None <-> forall x, In x l -> pred x = false.
Proof.
  induction l as [|a l IH]; simpl.
  - split; [intros _ x []|reflexivity].
  - destruct (pred a) eqn:Ea.
    + split; [discriminate|]. intros H. rewrite (H a) in Ea by auto. discriminate.
    + destruct (find_if pred l); simpl.
      * split; [discriminate|]. intros H.
        assert (Some n = None) by (apply IH; intros; apply H; auto). discriminate.
      * split; [|reflexivity]. intros _ x [->|Hx]; [assumption|].
        apply IH; auto.
Qed.

Lemma find_if_some {A} (pred : A -> bool) l i :
  find_if pred l = Some i ->
  exists x, nth_error l i = Some x /\ pred x = true /\
            forall j y, (j < i)%nat -> nth_error l j = Some y -> pred y = false.
Proof.
  revert i; induction l as [|a l IH]; simpl; intros i; [discriminate|].
  destruct (pred a) eqn:Ea.
  - intros [= <-]. exists a. repeat split; auto. intros j y Hj; lia.
  - destruct (find_if pred l) as [n|]; simpl; [|discriminate].
    intros [= <-]. destruct (IH n eq_refl) as (x & Hx & Hp & Hlt).
    exists x. repeat split; auto.
    intros [|j] y Hj; simpl.
    + intros [= <-]; exact Ea.
    + intros Hy. apply (Hlt j); [lia|assumption].
Qed.

Lemma find_if_app_some {A} (pred : A -> bool) l l' i :
  find_if pred l = Some i -> find_if pred (l ++ l') = Some i.
Proof.
  revert i; induction l as [|a l IH]; simpl; intros i; [discriminate|].
  destruct (pred a); [auto|].
  destruct (find_if pred l) as [n|]; simpl; [|discriminate].
  intros [= <-]. rewrite (IH n eq_refl). reflexivity.
Qed.

Lemma find_if_app_none {A} (pred : A -> bool) l x :
  find_if pred l = None -> pred x = true ->
  find_if pred (l ++ [x]) = Some (List.length l).
Proof.
  induction l as [|a l IH]; simpl; intros Hn Hx.
  - rewrite Hx; reflexivity.
  - destruct (pred a); [discriminate|].
    destruct (find_if pred l); [discriminate|]. rewrite IH; auto.
Qed.

Lemma getRegistry_setRegistry k r d : getRegistry k (setRegistry k r d) = r.
Proof. destruct k; reflexivity. Qed.

Lemma isRegisteringAvailable_setRegistry k r d :
  isRegisteringAvailable_ (setRegistry k r d) = isRegisteringAvailable_ d.
Proof. destruct k; reflexivity. Qed.

Lemma in_names_find (name : string) (registry : deque) :
  In name (map fst registry) <->
  exists i, find_if (fun element => String.eqb (fst element) name) registry = Some i.
Proof.
  split.
  - intros Hin.
    destruct (find_if _ registry) as [i|] eqn:E; [eauto|].
    apply in_map_iff in Hin. destruct Hin as ((n & v) & Hn & Hin).
    rewrite find_if_none in E. specialize (E _ Hin). simpl in *. subst.
    rewrite String.eqb_refl in E. discriminate.
  - intros (i & E). apply find_if_some in E.
    destruct E as ((n & v) & Hnth & Hp & _). simpl in Hp.
    apply String.eqb_eq in Hp. subst. apply in_map_iff.
    exists (name, v). split; [reflexivity|]. eapply nth_error_In; eauto.
Qed.

(** Once a name has a slot, later registrations, of any names, keep it. *)
Lemma registerVariable_keeps_slot k name i n p d :
  find_if (fun element => String.eqb (fst element) name) (getRegistry k d) = Some i ->
  find_if (fun element => String.eqb (fst element) name)
    (getRegistry k (snd (registerVariable k n p d))) = Some i.
Proof.
  intros Hf. unfold registerVariable.
  destruct (find_if (fun element => String.eqb (fst element) n) (getRegistry k d));
    simpl; [assumption|].
  destruct (negb (isRegisteringAvailable_ d)); simpl; [assumption|].
  rewrite getRegistry_setRegistry. apply find_if_app_some. assumption.
Qed.

Lemma registerAll_keeps_slot k name i names : forall d,
  find_if (fun element => String.eqb (fst element) name) (getRegistry k d) = Some i ->
  find_if (fun element => String.eqb (fst element) name)
    (getRegistry k (registerAll k names d)) = Some i.
Proof.
  induction names as [|n r IH]; simpl; intros d Hf; [assumption|].
  apply IH. apply registerVariable_keeps_slot. assumption.
Qed.

Lemma registerVariable_deref_stable k n p i e d :
  deref k i d = Some e -> deref k i (snd (registerVariable k n p d)) = Some e.
Proof.
  unfold deref, registerVariable. intros Hd.
  destruct (find_if _ (getRegistry k d)); simpl; [assumption|].
  destruct (negb (isRegisteringAvailable_ d)); simpl; [assumption|].
  rewrite getRegistry_setRegistry, nth_error_app1; [assumption|].
  apply nth_error_Some. congruence.
Qed.

Lemma registerAll_deref_stable k i e names : forall d,
  deref k i d = Some e -> deref k i (registerAll k names d) = Some e.
Proof.
  induction names as [|n r IH]; simpl; intros d Hd; [assumption|].
  apply IH, registerVariable_deref_stable, Hd.
Qed.

Lemma registerVariable_found k name pos i d :
  find_if (fun element => String.eqb (fst element) name) (getRegistry k d) = Some i ->
  registerVariable k name pos d = (SUCCESS, Some i, d).
Proof. intros Hf. unfold registerVariable. rewrite Hf. reflexivity. Qed.

(** The first registration of a name, while the window is open, appends the
    slot and hands out its address. *)
Lemma registerVariable_first_slot k name pos d :
  ~ In name (map fst (getRegistry k d)) ->
  isRegisteringAvailable_ d = true ->
  let i := List.length (getRegistry k d) in
  let d1 := setRegistry k (getRegistry k d ++ [(name, 0)]) d in
  registerVariable k name pos d = (SUCCESS, Some i, d1) /\
  deref k i d1 = Some (name, 0) /\
  In name (map fst (getRegistry k d1)).
Proof.
  intros Hn Ha i d1. unfold registerVariable.
  destruct (find_if _ (getRegistry k d)) as [j|] eqn:E.
  - exfalso. apply Hn. apply in_names_find. eauto.
  - rewrite Ha. simpl. split; [reflexivity|]. subst d1 i. unfold deref.
    rewrite getRegistry_setRegistry. split.
    + rewrite nth_error_app2, Nat.sub_diag by lia. reflexivity.
    + rewrite map_app. apply in_or_app. right. simpl. auto.
Qed.

(** A state with one registered integer signal and the window closed. *)
Definition frozen_example : t :=
  mk [] [("a"%string, 7)] [] false.

(** C2, counterexample: with the registration window closed, re-registering
    a name that is already in the registry reports [SUCCESS]. *)
Lemma registerVariable_frozen_known_name_succeeds :
  ~ (forall k name pos d,
        isRegisteringAvailable_ d = false ->
        fst (fst (registerVariable k name pos d)) <> SUCCESS).
Proof.
  intros H. apply (H Int64 "a"%string None frozen_example); reflexivity.
Qed.

(** C2, as amended: with the registration window closed
    ([isRegisteringAvailable_] false), [registerVariable] never changes the
    telemetry data; it fails with [ERROR_GENERIC], the out-parameter left
    as it was, exactly for the names that are not yet registered, and for a
    name registered before the freeze it reports [SUCCESS] and returns the
    existing slot. *)
Theorem registerVariable_frozen k name pos d :
  isRegisteringAvailable_ d = false ->
  snd (registerVariable k name pos d) = d /\
  (~ In name (map fst (getRegistry k d)) ->
     registerVariable k name pos d = (ERROR_GENERIC, pos, d)) /\
  (In name (map fst (getRegistry k d)) ->
     exists i v, deref k i d = Some (name, v) /\
                 registerVariable k name pos d = (SUCCESS, Some i, d)).
Proof.
  intros Hfrozen. unfold registerVariable. rewrite Hfrozen. simpl.
  destruct (find_if _ (getRegistry k d)) as [i|] eqn:E.
  - split; [reflexivity|]. split.
    + intros Hn. exfalso. apply Hn, in_names_find. eauto.
    + intros _. destruct (find_if_some _ _ _ E) as ((n & v) & Hnth & Hp & _).
      simpl in Hp. apply String.eqb_eq in Hp. subst n. exists i, v. auto.
  - split; [reflexivity|]. split; [reflexivity|].
    intros Hin. apply in_names_find in Hin. destruct Hin as (i & Hi). congruence.
Qed.

Lemma registerVariable_frozen_witness :
  snd (registerVariable Int64 "b"%string None frozen_example) = frozen_example /\
  registerVariable Int64 "b"%string None frozen_example
    = (ERROR_GENERIC, None, frozen_example).
Proof.
  destruct (registerVariable_frozen Int64 "b"%string None frozen_example eq_refl)
    as (H1 & H2 & _).
  split; [exact H1|]. apply H2. simpl. intros [H|[]]. discriminate H.
Defined.

(** The slot a successful call hands out is where the name is found. *)
Lemma registerVariable_slot k name pos d :
  fst (fst (registerVariable k name pos d)) = SUCCESS ->
  exists i,
    snd (fst (registerVariable k name pos d)) = Some i /\
    find_if (fun element => String.eqb (fst element) name)
      (getRegistry k (snd (registerVariable k name pos d))) = Some i.
Proof.
  unfold registerVariable.
  destruct (find_if _ (getRegistry k d)) as [i|] eqn:E; cbn [fst snd].
  - intros _. exists i. split; [reflexivity|exact E].
  - destruct (negb (isRegisteringAvailable_ d)); cbn [fst snd]; [discriminate|].
    intros _. exists (List.length (getRegistry k d)). split; [reflexivity|].
    rewrite getRegistry_setRegistry. apply find_if_app_none; [exact E|].
    cbn. apply String.eqb_refl.
Qed.

(** C8: [registerVariable] is idempotent.  For a name already in the
    registry of its kind, the call reports [SUCCESS], returns the address
    of the existing slot (the first one carrying the name) and leaves the
    telemetry data, contents and order, as it was; after any further
    registrations the slot still holds the same entry at the same address
    and the call still returns it; and that address is the one the first
    successful registration of the name handed out. *)
Theorem registerVariable_idempotent k name d :
  In name (map fst (getRegistry k d)) ->
  exists i v,
    deref k i d = Some (name, v) /\
    (forall j e, (j < i)%nat -> deref k j d = Some e -> fst e <> name) /\
    (forall pos, registerVariable k name pos d = (SUCCESS, Some i, d)) /\
    (forall names pos,
        let d' := registerAll k names d in
        deref k i d' = Some (name, v) /\
        registerVariable k name pos d' = (SUCCESS, Some i, d')) /\
    (forall d0 pos0 names,
        fst (fst (registerVariable k name pos0 d0)) = SUCCESS ->
        d = registerAll k names (snd (registerVariable k name pos0 d0)) ->
        snd (fst (registerVariable k name pos0 d0)) = Some i).
Proof.
  intros Hin. apply in_names_find in Hin. destruct Hin as (i & Hf).
  destruct (find_if_some _ _ _ Hf) as ((n & v) & Hnth & Hp & Hlt).
  simpl in Hp. apply String.eqb_eq in Hp. subst n.
  exists i, v. split; [exact Hnth|]. split; [|split; [|split]].
  - intros j e Hj He Hname. specialize (Hlt j e Hj He). simpl in Hlt.
    rewrite Hname, String.eqb_refl in Hlt. discriminate.
  - intros pos. apply registerVariable_found, Hf.
  - intros names pos d'. split.
    + apply registerAll_deref_stable, Hnth.
    + apply registerVariable_found, registerAll_keeps_slot, Hf.
  - intros d0 pos0 names Hok Hd.
    destruct (registerVariable_slot _ _ _ _ Hok) as (i0 & Hout & Hf0).
    apply (registerAll_keeps_slot _ _ _ names) in Hf0. rewrite <- Hd in Hf0.
    congruence.
Qed.

Lemma registerVariable_idempotent_witness :
  exists i v,
    deref Int64 i frozen_example = Some ("a"%string, v) /\
    forall pos, registerVariable Int64 "a"%string pos frozen_example
                = (SUCCESS, Some i, frozen_example).
Proof.
  destruct (registerVariable_idempotent Int64 "a"%string frozen_example)
    as (i & v & H1 & _ & H3 & _).
  - simpl. left. reflexivity.
  - exists i, v. split; assumption.
Defined.

(** *** Runs of registrations of both kinds *)

(** Calls of [registerVariable<int64_t>] and [registerVariable<float64_t>]
    in any order, out-parameters dropped. *)
Fixpoint registerMany (calls : list (kind * string)) (d : t) : t :=
  match calls with
  | [] => d
  | (k, n) :: r => registerMany r (snd (registerVariable k n None d))
  end.

Definition kind_eqb (a b : kind) : bool :=
  match a, b with
  | Int64, Int64 | Float64, Float64 => true
  | _, _ => false
  end.

(** The names a run registers with kind [k]. *)
Definition namesOf (k : kind) (calls : list (kind * string)) : list string :=
  map snd (filter (fun c => kind_eqb (fst c) k) calls).

Lemma getRegistry_setRegistry_other k k' r d :
  k <> k' -> getRegistry k' (setRegistry k r d) = getRegistry k' d.
Proof. destruct k, k'; intros H; try reflexivity; contradiction H; reflexivity. Qed.

Lemma constantsRegistry_setRegistry k r d :
  constantsRegistry_ (setRegistry k r d) = constantsRegistry_ d.
Proof. destruct k; reflexivity. Qed.

Lemma kind_eqb_eq a b : kind_eqb a b = true <-> a = b.
Proof. destruct a, b; simpl; split; congruence. Qed.

(** One call: the registry of the kind gets at most one entry, at its end;
    the rest of the telemetry data stays. *)
Lemma registerVariable_step k k' name pos d :
  let d' := snd (registerVariable k name pos d) in
  (exists suffix,
      getRegistry k' d' = getRegistry k' d ++ suffix /\
      (suffix = [] \/
       (suffix = [(name, 0)] /\ k' = k /\
        ~ In name (map fst (getRegistry k d)) /\
        isRegisteringAvailable_ d = true))) /\
  constantsRegistry_ d' = constantsRegistry_ d /\
  isRegisteringAvailable_ d' = isRegisteringAvailable_ d.
Proof.
  intros d'. subst d'. unfold registerVariable.
  destruct (find_if _ (getRegistry k d)) as [i|] eqn:E; cbn [snd].
  - split; [|split; reflexivity]. exists []. rewrite app_nil_r. auto.
  - destruct (isRegisteringAvailable_ d) eqn:Ha; cbn [negb snd].
    + split; [|split].
      * destruct (kind_eqb k k') eqn:Ek.
        -- apply kind_eqb_eq in Ek. subst k'. exists [(name, 0)].
           rewrite getRegistry_setRegistry. split; [reflexivity|]. right.
           split; [reflexivity|]. split; [reflexivity|]. split; [|reflexivity].
           intros Hin. apply in_names_find in Hin. destruct Hin as (i & Hi).
           congruence.
        -- exists []. rewrite app_nil_r, getRegistry_setRegistry_other; [auto|].
           intros ->. destruct k'; discriminate Ek.
      * apply constantsRegistry_setRegistry.
      * rewrite isRegisteringAvailable_setRegistry. exact Ha.
    + split; [|split; first [reflexivity|exact Ha]].
      exists []. rewrite app_nil_r. auto.
Qed.

Lemma namesOf_cons_same k n r : namesOf k ((k, n) :: r) = n :: namesOf k r.
Proof.
  unfold namesOf. cbn [filter fst].
  replace (kind_eqb k k) with true by (symmetry; apply kind_eqb_eq; reflexivity).
  reflexivity.
Qed.

Lemma namesOf_cons_incl k c r : incl (namesOf k r) (namesOf k (c :: r)).
Proof.
  unfold namesOf. cbn [filter]. destruct (kind_eqb (fst c) k); cbn [map].
  - apply incl_tl, incl_refl.
  - apply incl_refl.
Qed.

(** [registerVariable] is append-only.  Whatever the run of registrations,
    of either kind and with the window open or closed, each registry after
    the run is the registry before it followed by new entries: these hold
    the zero of their type, carry names the run registered with that kind,
    and none of them repeats a name the registry already has or another new
    one.  Entries that were there keep their position and their value, and
    the constants and the registration flag are left alone. *)
Theorem registerVariable_append_only (calls : list (kind * string)) (d : t) (k : kind) :
  exists suffix,
    getRegistry k (registerMany calls d) = getRegistry k d ++ suffix /\
    Forall (fun e => snd e = 0 /\ In (fst e) (namesOf k calls)
                     /\ ~ In (fst e) (map fst (getRegistry k d))) suffix /\
    NoDup (map fst suffix) /\
    (isRegisteringAvailable_ d = false -> suffix = []) /\
    constantsRegistry_ (registerMany calls d) = constantsRegistry_ d /\
    isRegisteringAvailable_ (registerMany calls d) = isRegisteringAvailable_ d.
Proof.
  revert d. induction calls as [|[k0 n] r IH]; intros d.
  - exists []. cbn [registerMany]. rewrite app_nil_r.
    repeat split; auto; constructor.
  - cbn [registerMany].
    destruct (registerVariable_step k0 k n None d) as ((s1 & Hs1 & Hcase) & Hc1 & Ha1).
    destruct (IH (snd (registerVariable k0 n None d)))
      as (s2 & Hs2 & Hall2 & Hnd2 & Hfr2 & Hc2 & Ha2).
    exists (s1 ++ s2). rewrite Hs2, Hs1, <- app_assoc.
    split; [reflexivity|].
    assert (Hall2' : Forall (fun e => snd e = 0 /\ In (fst e) (namesOf k ((k0, n) :: r))
                                      /\ ~ In (fst e) (map fst (getRegistry k d))
                                      /\ ~ In (fst e) (map fst s1)) s2).
    { eapply Forall_impl; [|exact Hall2]. cbn beta. intros e (H0 & Hin & Hnot).
      rewrite Hs1, map_app, in_app_iff in Hnot.
      split; [exact H0|]. split; [apply (namesOf_cons_incl k (k0, n) r), Hin|].
      split; intros H; apply Hnot; auto. }
    split; [|split; [|split; [|split]]].
    + apply Forall_app. split.
      * destruct Hcase as [->|(-> & -> & Hnew & _)]; [constructor|].
        constructor; [|constructor]. cbn [fst snd].
        split; [reflexivity|]. split; [|exact Hnew].
        rewrite namesOf_cons_same. left. reflexivity.
      * eapply Forall_impl; [|exact Hall2']. cbn beta. tauto.
    + rewrite map_app.
      destruct Hcase as [->|(-> & _)]; [exact Hnd2|].
      cbn [map app fst]. constructor; [|exact Hnd2].
      intros Hin. rewrite Forall_forall in Hall2'.
      apply in_map_iff in Hin. destruct Hin as (e & He & Hin).
      destruct (Hall2' e Hin) as (_ & _ & _ & Hnot). apply Hnot.
      cbn [map fst]. left. symmetry. exact He.
    + intros Hclosed.
      destruct Hcase as [->|(_ & _ & _ & Hopen)]; [|congruence].
      cbn [app]. apply Hfr2. congruence.
    + congruence.
    + congruence.
Qed.

Lemma NoDup_snoc {A} (l : list A) (a : A) :
  NoDup l -> ~ In a l -> NoDup (l ++ [a]).
Proof.
  intros Hnd Hnot. pose proof (Add_app a l []) as Hadd.
  rewrite app_nil_r in Hadd. apply (NoDup_Add Hadd). split; assumption.
Qed.

(** The names of a registry stay pairwise distinct: if no name occurs twice
    in the registry of kind [k], none does after any run of registrations,
    so a name has one slot and [find_if] cannot shadow a later entry. *)
Theorem registerVariable_names_distinct (calls : list (kind * string)) (d : t) (k : kind) :
  NoDup (map fst (getRegistry k d)) ->
  NoDup (map fst (getRegistry k (registerMany calls d))).
Proof.
  revert d. induction calls as [|[k0 n] r IH]; intros d Hnd; [exact Hnd|].
  cbn [registerMany]. apply IH.
  destruct (registerVariable_step k0 k n None d) as ((s1 & Hs1 & Hcase) & _ & _).
  rewrite Hs1. destruct Hcase as [->|(-> & -> & Hnew & _)].
  - rewrite app_nil_r. exact Hnd.
  - rewrite map_app. cbn [map fst]. apply NoDup_snoc; assumption.
Qed.

(** A state with one integer signal and the window open. *)
Definition open_example : t :=
  mk [] [("a"%string, 7)] [] true.

Lemma registerVariable_names_distinct_witness :
  NoDup (map fst (getRegistry Int64
                    (registerMany [(Int64, "b"%string); (Float64, "a"%string);
                                   (Int64, "a"%string); (Int64, "b"%string)]
                       open_example))).
Proof.
  apply (registerVariable_names_distinct _ open_example Int64).
  cbn. constructor; [intros []|constructor].
Defined.

(** When a registration succeeds: [registerVariable] reports [SUCCESS]
    exactly when the name is already in the registry of its kind or the
    registration window is open, and the name is in that registry after
    every successful call; every other call reports [ERROR_GENERIC] and
    leaves the out-parameter and the telemetry data as they were. *)
Theorem registerVariable_success_iff k name pos d :
  (fst (fst (registerVariable k name pos d)) = SUCCESS <->
     In name (map fst (getRegistry k d)) \/ isRegisteringAvailable_ d = true) /\
  (fst (fst (registerVariable k name pos d)) = SUCCESS ->
     In name (map fst (getRegistry k (snd (registerVariable k name pos d))))) /\
  (fst (fst (registerVariable k name pos d)) <> SUCCESS ->
     registerVariable k name pos d = (ERROR_GENERIC, pos, d)).
Proof.
  unfold registerVariable.
  destruct (find_if _ (getRegistry k d)) as [i|] eqn:E; cbn [fst snd].
  - assert (Hin : In name (map fst (getRegistry k d)))
      by (apply in_names_find; eauto).
    split; [split; auto|]. split; [auto|]. intros H. contradiction H. reflexivity.
  - assert (Hnot : ~ In name (map fst (getRegistry k d))).
    { intros Hin. apply in_names_find in Hin. destruct Hin as (i & Hi). congruence. }
    destruct (isRegisteringAvailable_ d); cbn [negb fst snd].
    + split; [split; auto|]. split.
      * intros _. rewrite getRegistry_setRegistry, map_app, in_app_iff.
        right. left. reflexivity.
      * intros H. contradiction H. reflexivity.
    + split; [split; [discriminate|intros [H|H]; [contradiction|discriminate]]|].
      split; [discriminate|reflexivity].
Qed.

End TelemetryData.

(** ** Constants of a controller ([AbstractController.tpp]) *)

Module AbstractController.

(** [result_t], the earlier name of [hresult_t]. *)
Definition result_t : Type := hresult_t.

(** The [to_string] overloads that [registerConstant<T>] picks from. *)
Class ToString (T : Type) : Type := to_string : T -> string.

(** [to_string(char const * var)], which returns [{var}]. *)
#[export] Instance to_string_chars : ToString string := fun var => var.

(** The members of [AbstractController] that [registerConstant] uses. *)
Record t : Type := mk {
  isTelemetryConfigured_ : bool;
  registeredConstants_ : list (string * string)
}.

(** [AbstractController::registerConstant<T>(fieldName, value)]. *)
Definition registerConstant {T : Type} `{ToString T} (fieldName : string)
    (value : T) (c : t) : result_t * t :=
  let returnCode :=
    if isTelemetryConfigured_ c then ERROR_INIT_FAILED else SUCCESS in
  if hresult_eqb returnCode SUCCESS then
    (* Check in local cache before. *)
    match TelemetryData.find_if
            (fun element => String.eqb (fst element) fieldName)
            (registeredConstants_ c) with
    | Some constantIt => (ERROR_BAD_INPUT, c)
    | None =>
        (returnCode,
         mk (isTelemetryConfigured_ c)
            (registeredConstants_ c ++ [(fieldName, to_string value)]))
    end
  else (returnCode, c).

(** A run of [registerConstant] calls, return codes dropped. *)
Fixpoint registerConstants {T : Type} `{ToString T}
    (calls : list (string * T)) (c : t) : t :=
  match calls with
  | [] => c
  | (fieldName, value) :: r =>
      registerConstants r (snd (registerConstant fieldName value c))
  end.

(** The value registered under a name: that of the first entry with it. *)
Fixpoint lookup (fieldName : string) (l : list (string * string)) : option string :=
  match l with
  | [] => None
  | (n, v) :: r => if String.eqb n fieldName then Some v else lookup fieldName r
  end.

Section Constants.

Context {T : Type} `{ToString T}.

Lemma lookup_none fieldName l :
  lookup fieldName l = None <-> ~ In fieldName (map fst l).
Proof.
  induction l as [|[n v] l IH]; cbn [lookup map fst In]; [tauto|].
  destruct (String.eqb_spec n fieldName) as [->|Hne].
  - split; [discriminate|]. intros Hn. contradiction Hn. left. reflexivity.
  - rewrite IH. tauto.
Qed.

Lemma lookup_app_some fieldName l l' v :
  lookup fieldName l = Some v -> lookup fieldName (l ++ l') = Some v.
Proof.
  induction l as [|[n w] l IH]; cbn [lookup app]; [discriminate|].
  destruct (String.eqb n fieldName); auto.
Qed.

Lemma lookup_snoc fieldName l v :
  ~ In fieldName (map fst l) -> lookup fieldName (l ++ [(fieldName, v)]) = Some v.
Proof.
  induction l as [|[n w] l IH]; cbn [lookup app map fst In]; intros Hn.
  - rewrite String.eqb_refl. reflexivity.
  - destruct (String.eqb_spec n fieldName) as [->|Hne]; [tauto|].
    apply IH. tauto.
Qed.

Lemma in_fieldNames_find (fieldName : string) (l : list (string * string)) :
  In fieldName (map fst l) <->
  exists i,
    TelemetryData.find_if (fun element => String.eqb (fst element) fieldName) l
    = Some i.
Proof.
  split.
  - intros Hin.
    destruct (TelemetryData.find_if _ l) as [i|] eqn:E; [eauto|].
    apply in_map_iff in Hin. destruct Hin as ((n & v) & Hn & Hin).
    rewrite TelemetryData.find_if_none in E. specialize (E _ Hin).
    simpl in *. subst. rewrite String.eqb_refl in E. discriminate.
  - intros (i & E). apply TelemetryData.find_if_some in E.
    destruct E as ((n & v) & Hnth & Hp & _). simpl in Hp.
    apply String.eqb_eq in Hp. subst. apply in_map_iff.
    exists (fieldName, v). split; [reflexivity|]. eapply nth_error_In; eauto.
Qed.

(** The three ways a call ends. *)
Lemma registerConstant_cases fieldName (value : T) c :
  (isTelemetryConfigured_ c = true /\
   registerConstant fieldName value c = (ERROR_INIT_FAILED, c)) \/
  (isTelemetryConfigured_ c = false /\
   In fieldName (map fst (registeredConstants_ c)) /\
   registerConstant fieldName value c = (ERROR_BAD_INPUT, c)) \/
  (isTelemetryConfigured_ c = false /\
   ~ In fieldName (map fst (registeredConstants_ c)) /\
   registerConstant fieldName value c
   = (SUCCESS,
      mk false (registeredConstants_ c ++ [(fieldName, to_string value)]))).
Proof.
  unfold registerConstant. destruct (isTelemetryConfigured_ c) eqn:Ec.
  - left. auto.
  - right. cbn [hresult_eqb].
    destruct (TelemetryData.find_if _ (registeredConstants_ c)) as [i|] eqn:E.
    + left. split; [reflexivity|]. split; [|reflexivity].
      apply in_fieldNames_find. eauto.
    + right. split; [reflexivity|]. split; [|reflexivity].
      intros Hin. apply in_fieldNames_find in Hin.
      destruct Hin as (i & Hi). congruence.
Qed.

(** What [registerConstant] answers.  It reports [SUCCESS] exactly when the
    telemetry is not configured yet and the name is new, and then the
    constant is appended, with [to_string(value)], after those registered
    before.  In every other case the controller is left as it was: the
    code is [ERROR_INIT_FAILED] once the telemetry is configured, whether
    the name is known or not, and [ERROR_BAD_INPUT] for a name that is
    already registered. *)
Theorem registerConstant_outcome fieldName (value : T) c :
  (fst (registerConstant fieldName value c) = SUCCESS <->
     isTelemetryConfigured_ c = false /\
     ~ In fieldName (map fst (registeredConstants_ c))) /\
  (fst (registerConstant fieldName value c) = SUCCESS ->
     snd (registerConstant fieldName value c)
     = mk false (registeredConstants_ c ++ [(fieldName, to_string value)])) /\
  (fst (registerConstant fieldName value c) <> SUCCESS ->
     snd (registerConstant fieldName value c) = c /\
     fst (registerConstant fieldName value c)
     = (if isTelemetryConfigured_ c then ERROR_INIT_FAILED else ERROR_BAD_INPUT)).
Proof.
  destruct (registerConstant_cases fieldName value c)
    as [(Hc & ->)|[(Hc & Hin & ->)|(Hc & Hnew & ->)]]; cbn [fst snd]; rewrite Hc.
  - split; [split; [discriminate|intros [H0 _]; discriminate]|].
    split; [discriminate|auto].
  - split; [split; [discriminate|intros [_ Hn]; contradiction]|].
    split; [discriminate|auto].
  - split; [split; auto|]. split; [reflexivity|].
    intros Hne. contradiction Hne. reflexivity.
Qed.

Lemma registerConstant_keeps fieldName v n (value : T) c :
  lookup fieldName (registeredConstants_ c) = Some v ->
  lookup fieldName (registeredConstants_ (snd (registerConstant n value c))) = Some v.
Proof.
  intros Hl.
  destruct (registerConstant_cases n value c)
    as [(_ & ->)|[(_ & _ & ->)|(_ & _ & ->)]]; cbn [snd registeredConstants_];
    [assumption|assumption|].
  apply lookup_app_some, Hl.
Qed.

Lemma registerConstants_keeps fieldName v (calls : list (string * T)) : forall c,
  lookup fieldName (registeredConstants_ c) = Some v ->
  lookup fieldName (registeredConstants_ (registerConstants calls c)) = Some v.
Proof.
  induction calls as [|[n value] r IH]; intros c Hl; [exact Hl|].
  cbn [registerConstants]. apply IH, registerConstant_keeps, Hl.
Qed.

(** A constant cannot be overwritten.  Once [registerConstant(name, value)]
    has succeeded, whatever calls follow, the value recorded under the name
    stays [to_string(value)], and a further [registerConstant] with that
    name, whatever its value, fails and changes nothing. *)
Theorem registerConstant_first_value_kept fieldName (value : T) c
    (calls : list (string * T)) :
  fst (registerConstant fieldName value c) = SUCCESS ->
  let c' := registerConstants calls (snd (registerConstant fieldName value c)) in
  lookup fieldName (registeredConstants_ c') = Some (to_string value) /\
  forall value' : T,
    fst (registerConstant fieldName value' c') <> SUCCESS /\
    snd (registerConstant fieldName value' c') = c'.
Proof.
  intros Hok c'.
  assert (Hl : lookup fieldName (registeredConstants_ c') = Some (to_string value)).
  { subst c'. apply registerConstants_keeps.
    destruct (registerConstant_cases fieldName value c)
      as [(_ & E)|[(_ & _ & E)|(_ & Hnew & E)]]; rewrite E in *;
      cbn [fst snd registeredConstants_] in *; try discriminate Hok.
    apply lookup_snoc, Hnew. }
  split; [exact Hl|]. intros value'.
  destruct (registerConstant_cases fieldName value' c')
    as [(_ & ->)|[(_ & _ & ->)|(_ & Hnew & _)]]; cbn [fst snd].
  - split; [discriminate|reflexivity].
  - split; [discriminate|reflexivity].
  - apply lookup_none in Hnew. congruence.
Qed.

(** The registered names stay pairwise distinct, and nothing is registered
    once the telemetry is configured: over any run of [registerConstant]
    calls, a list of constants without a repeated name stays one, the
    constants there before the run stay first and in order, and with
    [isTelemetryConfigured_] set the list does not change at all. *)
Theorem registerConstant_names_distinct (calls : list (string * T)) c :
  NoDup (map fst (registeredConstants_ c)) ->
  let c' := registerConstants calls c in
  NoDup (map fst (registeredConstants_ c')) /\
  (exists added, registeredConstants_ c' = registeredConstants_ c ++ added) /\
  (isTelemetryConfigured_ c = true -> c' = c).
Proof.
  revert c. induction calls as [|[n value] r IH]; intros c Hnd c'.
  - subst c'. cbn [registerConstants]. split; [exact Hnd|].
    split; [exists []; rewrite app_nil_r; reflexivity|reflexivity].
  - subst c'. cbn [registerConstants].
    destruct (registerConstant_cases n value c)
      as [(Hc & E)|[(Hc & _ & E)|(Hc & Hnew & E)]]; rewrite E; cbn [snd].
    + destruct (IH c Hnd) as (H1 & H2 & H3). auto.
    + destruct (IH c Hnd) as (H1 & H2 & H3). auto.
    + destruct (IH (mk false (registeredConstants_ c ++ [(n, to_string value)])))
        as (H1 & (added & H2) & _).
      { cbn [registeredConstants_]. rewrite map_app. cbn [map fst].
        apply TelemetryData.NoDup_snoc; assumption. }
      split; [exact H1|]. split.
      * exists ((n, to_string value) :: added). rewrite H2.
        cbn [registeredConstants_]. rewrite <- app_assoc. reflexivity.
      * congruence.
Qed.

End Constants.

(** A controller before [configureTelemetry], with one constant. *)
Definition example : t := mk false [("gain"%string, "2.5"%string)].

Lemma registerConstant_first_value_kept_witness :
  lookup "mode"
    (registeredConstants_
       (registerConstants [("mode"%string, "b"%string); ("rate"%string, "c"%string)]
          (snd (registerConstant "mode" "a"%string example))))
  = Some "a"%string.
Proof.
  exact (proj1 (registerConstant_first_value_kept "mode"%string "a"%string example
                  [("mode"%string, "b"%string); ("rate"%string, "c"%string)]
                  eq_refl)).
Defined.

Lemma registerConstant_names_distinct_witness :
  NoDup (map fst (registeredConstants_
                    (registerConstants
                       [("mode"%string, "a"%string); ("gain"%string, "3"%string);
                        ("mode"%string, "b"%string)] example))).
Proof.
  apply (registerConstant_names_distinct
           [("mode"%string, "a"%string); ("gain"%string, "3"%string);
            ("mode"%string, "b"%string)] example).
  cbn. constructor; [intros []|constructor].
Defined.

End AbstractController.

(** ** Dormand-Prince step control ([runge_kutta_dopri_stepper.cc]) *)

Module Stepper.

Local Open Scope R_scope.

(** A [float64_t] of the stepper is an extended real: not-a-number, the two
    infinities, or a finite value.  Arithmetic on finite values is that of
    the reals; rounding is not part of the model. *)
Inductive float64_t : Type :=
| NaN
| PInf
| NInf
| Fin (x : R).

Definition Rltb (x y : R) : bool := if Rlt_dec x y then true else false.

(** [std::isnan]. *)
Definition isnan (a : float64_t) : bool :=
  match a with NaN => true | _ => false end.

(** [operator<] on doubles: false as soon as one side is not a number. *)
Definition lt (a b : float64_t) : bool :=
  match a, b with
  | NaN, _ | _, NaN => false
  | Fin x, Fin y => Rltb x y
  | NInf, NInf => false
  | NInf, _ => true
  | _, NInf => false
  | PInf, _ => false
  | Fin _, PInf => true
  end.

(** [operator*] on doubles. *)
Definition mul (a b : float64_t) : float64_t :=
  match a, b with
  | NaN, _ | _, NaN => NaN
  | Fin x, Fin y => Fin (x * y)
  | PInf, PInf | NInf, NInf => PInf
  | PInf, NInf | NInf, PInf => NInf
  | Fin x, PInf | PInf, Fin x =>
      if Rltb 0 x then PInf else if Rltb x 0 then NInf else NaN
  | Fin x, NInf | NInf, Fin x =>
      if Rltb 0 x then NInf else if Rltb x 0 then PInf else NaN
  end.

(** [std::max(a, b)], that is [(a < b) ? b : a]. *)
Definition max (a b : float64_t) : float64_t := if lt a b then b else a.

(** [std::pow(base, y)] for a finite exponent [y], which is all the stepper
    passes.  On a positive finite base it is the real power; on [+inf] it
    is [0], [1] or [+inf] with the sign of [y]; on zero it is the pole, [1]
    or [0].  [adjustStepImpl] passes no negative base: those are mapped to
    [NaN], which is what the C library returns for a finite negative base
    and an exponent that is not an integer. *)
Definition pow (base : float64_t) (y : R) : float64_t :=
  match base with
  | NaN => if Req_dec_T y 0 then Fin 1 else NaN
  | PInf => if Rltb y 0 then Fin 0 else if Rltb 0 y then PInf else Fin 1
  | NInf => NaN
  | Fin x =>
      if Rltb 0 x then Fin (Rpower x y)
      else if Rltb x 0 then NaN
      else if Rltb y 0 then PInf else if Rltb 0 y then Fin 0 else Fin 1
  end.

(** Modelled from the spec: the [DOPRI::STEPPER_ORDER] constant of
    [runge_kutta_dopri_stepper.h], whose source is not at hand; section 4.1
    gives [p = 5]. *)
Definition STEPPER_ORDER : R := 5.

Section DOPRI.

(** [DOPRI::SAFETY], [DOPRI::MIN_FACTOR] and [DOPRI::MAX_FACTOR] of
    [runge_kutta_dopri_stepper.h], whose source is not at hand. *)
Variables SAFETY MIN_FACTOR MAX_FACTOR : R.

(** [RungeKuttaDOPRIStepper::adjustStepImpl(error, dt)]: the returned pair
    is the acceptance flag and the new value of the in-out [dt]. *)
Definition adjustStepImpl (error dt : float64_t) : bool * float64_t :=
  if isnan error then
    (false, mul dt (Fin (1 / 10)))
  else if lt error (Fin 1) then
    if lt error (pow (Fin SAFETY) STEPPER_ORDER) then
      let newError :=
        max error (pow (Fin (MAX_FACTOR / SAFETY)) (- STEPPER_ORDER)) in
      (true, mul dt (mul (Fin SAFETY) (pow newError (-1 / STEPPER_ORDER))))
    else (true, dt)
  else
    (false,
     mul dt (max (mul (Fin SAFETY) (pow error (-1 / (STEPPER_ORDER - 2))))
                 (Fin MIN_FACTOR))).

(** The adjustment policy in the words of the specification (section 4.1),
    over the reals: [x ^ y] is the real power, [max] the real maximum.  For
    an infinite [E] the powers and maxima are their limits. *)
Definition growth_floor : R := Rpower (MAX_FACTOR / SAFETY) (- 5).


Lemma Rltb_true x y : x < y -> Rltb x y = true.
Proof. unfold Rltb. destruct (Rlt_dec x y); [reflexivity|contradiction]. Qed.

Lemma Rltb_false x y : ~ x < y -> Rltb x y = false.
Proof. unfold Rltb. destruct (Rlt_dec x y); [contradiction|reflexivity]. Qed.

Lemma Rpower_pos x y : 0 < Rpower x y.
Proof. unfold Rpower. apply exp_pos. Qed.

Lemma Rpower_one y : Rpower 1 y = 1.
Proof. unfold Rpower. rewrite ln_1, Rmult_0_r. apply exp_0. Qed.

Lemma Rpower_5 x : 0 < x -> Rpower x STEPPER_ORDER = x ^ 5.
Proof.
  intros Hx. unfold STEPPER_ORDER.
  replace 5 with (INR 5) by (simpl; lra). apply Rpower_pow, Hx.
Qed.

(** A negative power is antitone on the positive reals. *)
Lemma Rpower_neg_antitone a b y : 0 < a <= b -> y <= 0 -> Rpower b y <= Rpower a y.
Proof.
  intros [Ha Hab] Hy.
  remember (- y) as z eqn:Hz.
  assert (0 <= z) by lra.
  replace y with (- z) by lra. rewrite !Rpower_Ropp.
  apply Rinv_le_contravar; [apply Rpower_pos|].
  apply Rle_Rpower_l; lra.
Qed.

Lemma Rpower_neg_le_1 e y : 1 <= e -> y <= 0 -> Rpower e y <= 1.
Proof.
  intros He Hy. rewrite <- (Rpower_one y). apply Rpower_neg_antitone; lra.
Qed.

Lemma max_Fin x y : max (Fin x) (Fin y) = Fin (Rmax x y).
Proof.
  unfold max, lt, Rltb, Rmax.
  destruct (Rlt_dec x y), (Rle_dec x y); try reflexivity; try lra.
  f_equal. lra.
Qed.

Lemma growth_floor_root :
  0 < SAFETY -> 0 < MAX_FACTOR ->
  Rpower growth_floor (- 1 / 5) = MAX_FACTOR / SAFETY.
Proof.
  intros Hs Hm. unfold growth_floor. rewrite Rpower_mult.
  replace (- 5 * (- 1 / 5)) with 1 by lra.
  apply Rpower_1. apply Rdiv_lt_0_compat; assumption.
Qed.

Lemma pow_Fin_pos x y : 0 < x -> pow (Fin x) y = Fin (Rpower x y).
Proof. intros Hx. unfold pow. rewrite Rltb_true by assumption. reflexivity. Qed.

Lemma growth_floor_pos : 0 < growth_floor.
Proof. apply Rpower_pos. Qed.

(** The factor applied on the growing branch is at most [MAX_FACTOR]. *)
Lemma growth_factor_le e :
  0 < SAFETY -> 0 < MAX_FACTOR ->
  SAFETY * Rpower (Rmax e growth_floor) (- 1 / 5) <= MAX_FACTOR.
Proof.
  intros Hs Hm.
  assert (Hle : Rpower (Rmax e growth_floor) (- 1 / 5) <= MAX_FACTOR / SAFETY).
  { rewrite <- growth_floor_root by assumption.
    apply Rpower_neg_antitone; [|lra].
    split; [apply growth_floor_pos|apply Rmax_r]. }
  apply (Rmult_le_compat_l SAFETY) in Hle; [|lra].
  replace (SAFETY * (MAX_FACTOR / SAFETY)) with MAX_FACTOR in Hle
    by (field; lra).
  exact Hle.
Qed.



End DOPRI.



(** *** Bounds and monotonicity of the step factor *)

Section StepFactor.

Variables SAFETY MIN_FACTOR MAX_FACTOR : R.

(** The factor that [adjustStepImpl] applies to [dt] on a finite error. *)
Definition stepFactor (e : R) : R :=
  if Rlt_dec e 1 then
    if Rlt_dec e (SAFETY ^ 5)
    then SAFETY * Rpower (Rmax e (growth_floor SAFETY MAX_FACTOR)) (- 1 / 5)
    else 1
  else Rmax (SAFETY * Rpower e (- 1 / (5 - 2))) MIN_FACTOR.

Lemma adjustStepImpl_finite e dt :
  0 < SAFETY -> 0 < MAX_FACTOR ->
  adjustStepImpl SAFETY MIN_FACTOR MAX_FACTOR (Fin e) (Fin dt)
  = (if Rlt_dec e 1 then true else false, Fin (dt * stepFactor e)).
Proof.
  intros Hs Hm.
  assert (Hfloor : pow (Fin (MAX_FACTOR / SAFETY)) (- STEPPER_ORDER)
                   = Fin (growth_floor SAFETY MAX_FACTOR)).
  { apply pow_Fin_pos. apply Rdiv_lt_0_compat; assumption. }
  assert (Hs5 : pow (Fin SAFETY) STEPPER_ORDER = Fin (SAFETY ^ 5)).
  { rewrite pow_Fin_pos by assumption. f_equal. apply Rpower_5, Hs. }
  unfold adjustStepImpl, stepFactor. rewrite Hfloor, Hs5.
  cbn [isnan lt]. unfold Rltb.
  destruct (Rlt_dec e 1) as [H1|H1].
  - destruct (Rlt_dec e (SAFETY ^ 5)) as [H5|H5].
    + rewrite max_Fin, pow_Fin_pos.
      * cbn [mul]. unfold STEPPER_ORDER. reflexivity.
      * eapply Rlt_le_trans; [apply growth_floor_pos|apply Rmax_r].
    + f_equal. f_equal. ring.
  - rewrite pow_Fin_pos by lra. cbn [mul]. rewrite max_Fin.
    unfold STEPPER_ORDER. reflexivity.
Qed.



Lemma safety_pow5_lt_1 : 0 < SAFETY < 1 -> 0 < SAFETY ^ 5 < 1.
Proof.
  intros [H0 H1]. split; [apply pow_lt; exact H0|].
  apply pow_lt_1_compat; [lra|lia].
Qed.

(** The fifth root of [SAFETY ^ 5]. *)
Lemma Rpower_safety_root : 0 < SAFETY -> Rpower (SAFETY ^ 5) (- 1 / 5) = / SAFETY.
Proof.
  intros Hs. rewrite <- (Rpower_5 SAFETY Hs). unfold STEPPER_ORDER.
  rewrite Rpower_mult. replace (5 * (- 1 / 5)) with (- (1)) by lra.
  rewrite Rpower_Ropp, Rpower_1 by exact Hs. reflexivity.
Qed.

Lemma growth_floor_le :
  0 < SAFETY -> 1 <= MAX_FACTOR -> growth_floor SAFETY MAX_FACTOR <= SAFETY ^ 5.
Proof.
  intros Hs Hm. unfold growth_floor.
  rewrite <- (Rpower_5 SAFETY Hs). unfold STEPPER_ORDER.
  replace (Rpower SAFETY 5) with (Rpower (/ SAFETY) (- 5)).
  - apply Rpower_neg_antitone; [|lra]. split; [apply Rinv_0_lt_compat, Hs|].
    unfold Rdiv. rewrite <- (Rmult_1_l (/ SAFETY)) at 1.
    apply Rmult_le_compat_r; [apply Rlt_le, Rinv_0_lt_compat, Hs|exact Hm].
  - unfold Rpower. rewrite ln_Rinv by exact Hs. f_equal. ring.
Qed.

(** On the growing branch the factor is between [1] and [MAX_FACTOR]. *)
Lemma growth_factor_ge_1 e :
  0 < SAFETY -> 1 <= MAX_FACTOR -> e < SAFETY ^ 5 ->
  1 <= SAFETY * Rpower (Rmax e (growth_floor SAFETY MAX_FACTOR)) (- 1 / 5).
Proof.
  intros Hs Hm He.
  assert (Hle : / SAFETY
                <= Rpower (Rmax e (growth_floor SAFETY MAX_FACTOR)) (- 1 / 5)).
  { rewrite <- (Rpower_safety_root Hs). apply Rpower_neg_antitone; [|lra].
    split.
    - eapply Rlt_le_trans; [apply growth_floor_pos|apply Rmax_r].
    - apply Rmax_lub; [lra|apply growth_floor_le; assumption]. }
  apply (Rmult_le_compat_l SAFETY) in Hle; [|lra].
  rewrite Rinv_r in Hle by lra. exact Hle.
Qed.

Lemma stepFactor_bounds e :
  0 < SAFETY < 1 -> 0 < MIN_FACTOR <= 1 -> 1 <= MAX_FACTOR ->
  MIN_FACTOR <= stepFactor e <= MAX_FACTOR /\
  (e < 1 -> 1 <= stepFactor e) /\
  (1 <= e -> stepFactor e <= Rmax SAFETY MIN_FACTOR).
Proof.
  intros [Hs0 Hs1] [Hmin0 Hmin1] Hmax. unfold stepFactor.
  destruct (Rlt_dec e 1) as [H1|H1].
  - destruct (Rlt_dec e (SAFETY ^ 5)) as [H5|H5].
    + pose proof (growth_factor_ge_1 e Hs0 Hmax H5).
      pose proof (growth_factor_le SAFETY MAX_FACTOR e Hs0 ltac:(lra)).
      repeat split; try lra.
    + repeat split; lra.
  - assert (Hp : Rpower e (- 1 / (5 - 2)) <= 1)
      by (apply Rpower_neg_le_1; lra).
    pose proof (Rpower_pos e (- 1 / (5 - 2))) as Hp0.
    assert (Hle : Rmax (SAFETY * Rpower e (- 1 / (5 - 2))) MIN_FACTOR
                  <= Rmax SAFETY MIN_FACTOR).
    { apply Rmax_lub; [|apply Rmax_r].
      eapply Rle_trans; [|apply Rmax_l]. nra. }
    assert (Rmax SAFETY MIN_FACTOR <= 1) by (apply Rmax_lub; lra).
    pose proof (Rmax_r (SAFETY * Rpower e (- 1 / (5 - 2))) MIN_FACTOR).
    repeat split; lra.
Qed.

Lemma stepFactor_antitone e1 e2 :
  0 < SAFETY < 1 -> 0 < MIN_FACTOR <= 1 -> 1 <= MAX_FACTOR ->
  e1 <= e2 -> stepFactor e2 <= stepFactor e1.
Proof.
  intros Hs Hmin Hmax Hle.
  destruct (stepFactor_bounds e1 Hs Hmin Hmax) as (_ & Hacc1 & Hrej1).
  destruct (stepFactor_bounds e2 Hs Hmin Hmax) as (_ & Hacc2 & Hrej2).
  assert (Hrm : Rmax SAFETY MIN_FACTOR <= 1) by (apply Rmax_lub; lra).
  destruct (Rlt_dec e1 1) as [H1|H1].
  - destruct (Rlt_dec e2 1) as [H2|H2].
    + (* both accepted *)
      unfold stepFactor.
      destruct (Rlt_dec e1 1); [|lra]. destruct (Rlt_dec e2 1); [|lra].
      destruct (Rlt_dec e2 (SAFETY ^ 5)) as [H25|H25].
      * destruct (Rlt_dec e1 (SAFETY ^ 5)) as [H15|H15]; [|lra].
        apply Rmult_le_compat_l; [lra|].
        apply Rpower_neg_antitone; [|lra]. split.
        -- eapply Rlt_le_trans; [apply growth_floor_pos|apply Rmax_r].
        -- apply Rle_max_compat_r, Hle.
      * destruct (Rlt_dec e1 (SAFETY ^ 5)) as [H15|H15]; [|lra].
        apply growth_factor_ge_1; lra.
    + specialize (Hacc1 H1). specialize (Hrej2 ltac:(lra)). lra.
  - unfold stepFactor.
    destruct (Rlt_dec e1 1); [lra|]. destruct (Rlt_dec e2 1); [lra|].
    apply Rle_max_compat_r. apply Rmult_le_compat_l; [lra|].
    apply Rpower_neg_antitone; lra.
Qed.


(** The larger the error, the smaller the next step: for finite errors
    [e1 <= e2] and the same finite [dt > 0], the [dt] that [adjustStepImpl]
    leaves for [e2] is at most the one it leaves for [e1], and if the step
    with error [e2] is accepted so is the one with error [e1]. *)
Theorem adjustStepImpl_monotone (e1 e2 dt : R) :
  0 < SAFETY < 1 -> 0 < MIN_FACTOR <= 1 -> 1 <= MAX_FACTOR -> 0 < dt ->
  e1 <= e2 ->
  exists dt1 dt2,
    snd (adjustStepImpl SAFETY MIN_FACTOR MAX_FACTOR (Fin e1) (Fin dt)) = Fin dt1 /\
    snd (adjustStepImpl SAFETY MIN_FACTOR MAX_FACTOR (Fin e2) (Fin dt)) = Fin dt2 /\
    dt2 <= dt1 /\
    (fst (adjustStepImpl SAFETY MIN_FACTOR MAX_FACTOR (Fin e2) (Fin dt)) = true ->
     fst (adjustStepImpl SAFETY MIN_FACTOR MAX_FACTOR (Fin e1) (Fin dt)) = true).
Proof.
  intros Hs Hmin Hmax Hdt Hle.
  rewrite !adjustStepImpl_finite by lra. cbn [fst snd].
  eexists _, _. split; [reflexivity|]. split; [reflexivity|]. split.
  - apply Rmult_le_compat_l; [lra|]. apply stepFactor_antitone; assumption.
  - destruct (Rlt_dec e2 1), (Rlt_dec e1 1); auto; lra.
Qed.

End StepFactor.


Lemma adjustStepImpl_monotone_witness :
  exists dt1 dt2,
    snd (adjustStepImpl (9 / 10) (1 / 5) 5 (Fin (1 / 2)) (Fin 1)) = Fin dt1 /\
    snd (adjustStepImpl (9 / 10) (1 / 5) 5 (Fin 2) (Fin 1)) = Fin dt2 /\
    dt2 <= dt1.
Proof.
  destruct (adjustStepImpl_monotone (9 / 10) (1 / 5) 5 (1 / 2) 2 1)
    as (dt1 & dt2 & H1 & H2 & H3 & _); [lra|lra|lra|lra|lra|].
  exists dt1, dt2. split; [exact H1|]. split; assumption.
Defined.

(** *** The error estimate and [adjustStep] *)

(** [operator/] on doubles.  A zero divisor is the positive zero; the
    stepper divides by tolerances that are above [EPS] only. *)
Definition div (a b : float64_t) : float64_t :=
  match a, b with
  | NaN, _ | _, NaN => NaN
  | Fin x, Fin y =>
      if Req_dec_T y 0
      then if Rltb 0 x then PInf else if Rltb x 0 then NInf else NaN
      else Fin (x / y)
  | Fin _, PInf | Fin _, NInf => Fin 0
  | PInf, Fin y => if Rltb y 0 then NInf else PInf
  | NInf, Fin y => if Rltb y 0 then PInf else NInf
  | PInf, PInf | PInf, NInf | NInf, PInf | NInf, NInf => NaN
  end.

(** [operator>] on doubles. *)
Definition gt (a b : float64_t) : bool := lt b a.

(** [std::min(a, b)], that is [(b < a) ? b : a]. *)
Definition min (a b : float64_t) : float64_t := if lt b a then b else a.

(** [INF] of [jiminy/core/constants.h]. *)
Definition INF : float64_t := PInf.

(** The arithmetic of [state_t] and [stateDerivative_t] that [computeError]
    calls; it belongs to the Lie-group state classes, whose sources are not
    at hand, and is taken as given.  An out-parameter is the value
    returned. *)
Class StateArithmetic : Type := {
  state_t : Type;
  stateDerivative_t : Type;
  (** [x.setZero()] on a state and on a state derivative *)
  state_setZero : state_t -> state_t;
  derivative_setZero : stateDerivative_t -> stateDerivative_t;
  (** [x.sumInPlace(other, scale)] *)
  sumInPlace : stateDerivative_t -> stateDerivative_t -> float64_t -> stateDerivative_t;
  (** [x.sum(increment, out)] *)
  sum : state_t -> stateDerivative_t -> state_t;
  (** [x.difference(other, out)] *)
  difference : state_t -> state_t -> stateDerivative_t;
  (** [x.normInf()] *)
  normInf : stateDerivative_t -> float64_t;
  (** [x /= scale] *)
  divInPlace : stateDerivative_t -> stateDerivative_t -> stateDerivative_t
}.

Section ErrorEstimate.

Context {arith : StateArithmetic}.

(** [DOPRI::SAFETY], [DOPRI::MIN_FACTOR], [DOPRI::MAX_FACTOR], the array
    [DOPRI::e] as the function of its index, and [EPS] of
    [jiminy/core/constants.h]. *)
Variables SAFETY MIN_FACTOR MAX_FACTOR : R.
Variable e : nat -> R.
Variable EPS : R.

(** The members of [RungeKuttaDOPRIStepper] that [computeError] uses. *)
Record t : Type := mk {
  tolRel_ : float64_t;
  tolAbs_ : float64_t;
  ki_ : list stateDerivative_t;
  stateIncrement_ : stateDerivative_t;
  otherSolution_ : state_t;
  error_ : stateDerivative_t;
  scale_ : stateDerivative_t
}.

(** The loop [for (i = 0; i < ki_.size(); ++i)] of [computeError], from
    index [i] on. *)
Fixpoint sumStages (i : nat) (ki : list stateDerivative_t) (dt : float64_t)
    (stateIncrement : stateDerivative_t) : stateDerivative_t :=
  match ki with
  | [] => stateIncrement
  | k :: rest =>
      sumStages (S i) rest dt (sumInPlace stateIncrement k (mul dt (Fin (e i))))
  end.

(** [error_] after [solution.difference(otherSolution_, error_)]. *)
Definition errorEstimate (initialState solution : state_t) (dt : float64_t)
    (s : t) : stateDerivative_t :=
  let stateIncrement :=
    sumStages 0 (ki_ s) dt (derivative_setZero (stateIncrement_ s)) in
  difference solution (sum initialState stateIncrement).

(** [scale_] after [solution.difference(otherSolution_, scale_)], with
    [otherSolution_] set to zero. *)
Definition errorScale (initialState solution : state_t) (dt : float64_t)
    (s : t) : stateDerivative_t :=
  let stateIncrement :=
    sumStages 0 (ki_ s) dt (derivative_setZero (stateIncrement_ s)) in
  difference solution (state_setZero (sum initialState stateIncrement)).

(** [RungeKuttaDOPRIStepper::computeError(initialState, solution, dt)]: the
    error and the stepper with its buffers as the call leaves them. *)
Definition computeError (initialState solution : state_t) (dt : float64_t)
    (s : t) : float64_t * t :=
  (* Compute alternative solution *)
  let stateIncrement :=
    sumStages 0 (ki_ s) dt (derivative_setZero (stateIncrement_ s)) in
  let otherSolution := sum initialState stateIncrement in
  (* Evaluate error between both states to adjust step *)
  let error := difference solution otherSolution in
  (* Compute absolute and relative element-wise maximum error *)
  let errorAbsNorm :=
    if gt (tolAbs_ s) (Fin EPS) then div (normInf error) (tolAbs_ s) else INF in
  if gt (tolRel_ s) (Fin EPS) then
    let otherSolution' := state_setZero otherSolution in
    let scale := difference solution otherSolution' in
    let error' := divInPlace error scale in
    let errorRelNorm := div (normInf error') (tolRel_ s) in
    (min errorAbsNorm errorRelNorm,
     mk (tolRel_ s) (tolAbs_ s) (ki_ s) stateIncrement otherSolution' error' scale)
  else
    (min errorAbsNorm INF,
     mk (tolRel_ s) (tolAbs_ s) (ki_ s) stateIncrement otherSolution error
        (scale_ s)).

(** [RungeKuttaDOPRIStepper::adjustStep(initialState, solution, dt)]: the
    acceptance flag, the new value of the in-out [dt], and the stepper. *)
Definition adjustStep (initialState solution : state_t) (dt : float64_t)
    (s : t) : bool * float64_t * t :=
  let '(error, s') := computeError initialState solution dt s in
  (adjustStepImpl SAFETY MIN_FACTOR MAX_FACTOR error dt, s').

Lemma computeError_tolerances initialState solution dt s :
  tolRel_ (snd (computeError initialState solution dt s)) = tolRel_ s /\
  tolAbs_ (snd (computeError initialState solution dt s)) = tolAbs_ s /\
  ki_ (snd (computeError initialState solution dt s)) = ki_ s.
Proof.
  unfold computeError. destruct (gt (tolRel_ s) (Fin EPS)); cbn; auto.
Qed.

Lemma adjustStepImpl_accept E dt :
  fst (adjustStepImpl SAFETY MIN_FACTOR MAX_FACTOR E dt) = true
  <-> isnan E = false /\ lt E (Fin 1) = true.
Proof.
  unfold adjustStepImpl. destruct (isnan E); cbn [fst].
  - split; [discriminate|intros [H _]; discriminate].
  - destruct (lt E (Fin 1)).
    + match goal with
      | |- context [if ?c then (true, _) else (true, _)] => destruct c
      end; cbn [fst]; tauto.
    + cbn [fst]. split; [discriminate|intros [_ H]; discriminate].
Qed.

Lemma adjustStep_eq initialState solution dt s :
  adjustStep initialState solution dt s
  = (adjustStepImpl SAFETY MIN_FACTOR MAX_FACTOR
       (fst (computeError initialState solution dt s)) dt,
     snd (computeError initialState solution dt s)).
Proof.
  unfold adjustStep. destruct (computeError initialState solution dt s).
  reflexivity.
Qed.

(** With both tolerances at or below [EPS] (or not numbers) no step is ever
    accepted: [computeError] returns [INF] whatever the two solutions are,
    [adjustStep] rejects the step and multiplies a finite [dt] by
    [MIN_FACTOR], and the tolerances are unchanged, so the next attempt
    does the same. *)
Theorem adjustStep_tolerances_disabled initialState solution (dt : R) s :
  0 < SAFETY -> 0 < MIN_FACTOR ->
  gt (tolAbs_ s) (Fin EPS) = false ->
  gt (tolRel_ s) (Fin EPS) = false ->
  let out := adjustStep initialState solution (Fin dt) s in
  fst (computeError initialState solution (Fin dt) s) = INF /\
  fst out = (false, Fin (dt * MIN_FACTOR)) /\
  tolAbs_ (snd out) = tolAbs_ s /\ tolRel_ (snd out) = tolRel_ s.
Proof.
  intros Hs Hmin Habs Hrel out. subst out. rewrite adjustStep_eq. cbn [fst snd].
  destruct (computeError_tolerances initialState solution (Fin dt) s)
    as (Hr & Ha & _).
  assert (Herr : fst (computeError initialState solution (Fin dt) s) = INF).
  { unfold computeError. rewrite Habs, Hrel. reflexivity. }
  rewrite Herr. split; [reflexivity|]. split; [|split; assumption].
  unfold INF, adjustStepImpl. cbn [isnan lt].
  unfold pow, STEPPER_ORDER. rewrite Rltb_true by lra.
  cbn [mul]. rewrite max_Fin, Rmax_right by lra. reflexivity.
Qed.

Lemma div_Fin_pos x y : 0 < y -> div (Fin x) (Fin y) = Fin (x / y).
Proof.
  intros Hy. unfold div. destruct (Req_dec_T y 0); [lra|reflexivity].
Qed.

Lemma lt_Fin x y : lt (Fin x) (Fin y) = true <-> x < y.
Proof.
  cbn [lt]. unfold Rltb. destruct (Rlt_dec x y); split; auto; discriminate.
Qed.

Lemma div_lt_1 x y : 0 < y -> (x / y < 1 <-> x < y).
Proof.
  intros Hy. split; intros H.
  - apply (Rmult_lt_compat_r y) in H; [|exact Hy].
    unfold Rdiv in H. rewrite Rmult_assoc, Rinv_l, Rmult_1_r, Rmult_1_l in H by lra.
    exact H.
  - apply (Rmult_lt_reg_r y); [exact Hy|].
    unfold Rdiv. rewrite Rmult_assoc, Rinv_l, Rmult_1_r, Rmult_1_l by lra.
    exact H.
Qed.

Lemma min_Fin x y : min (Fin x) (Fin y) = Fin (Rmin x y).
Proof.
  unfold min, lt, Rltb, Rmin.
  destruct (Rlt_dec y x), (Rle_dec x y); try reflexivity; try lra.
Qed.

(** The two tolerances are alternatives.  With finite tolerances and
    finite error norms, [adjustStep] accepts the step exactly when the
    absolute criterion is on ([tolAbs_ > EPS]) and the norm of the error
    is below [tolAbs_], or the relative criterion is on ([tolRel_ > EPS])
    and the norm of the scaled error is below [tolRel_]: one criterion
    passing is enough, even when the other one fails. *)
Theorem adjustStep_accept_iff initialState solution dt s (tolAbs tolRel nAbs nRel : R) :
  0 <= EPS ->
  tolAbs_ s = Fin tolAbs -> tolRel_ s = Fin tolRel ->
  (EPS < tolAbs ->
   normInf (errorEstimate initialState solution dt s) = Fin nAbs) ->
  (EPS < tolRel ->
   normInf (divInPlace (errorEstimate initialState solution dt s)
                       (errorScale initialState solution dt s)) = Fin nRel) ->
  fst (fst (adjustStep initialState solution dt s)) = true
  <-> (EPS < tolAbs /\ nAbs < tolAbs) \/ (EPS < tolRel /\ nRel < tolRel).
Proof.
  intros Heps Ha Hr HnA HnR.
  rewrite adjustStep_eq. cbn [fst]. rewrite adjustStepImpl_accept.
  unfold computeError.
  fold (errorEstimate initialState solution dt s).
  fold (errorScale initialState solution dt s).
  rewrite Ha, Hr. unfold gt, INF.
  destruct (Rlt_dec EPS tolAbs) as [HA|HA];
    [rewrite (proj2 (lt_Fin EPS tolAbs) HA), (HnA HA), div_Fin_pos by lra
    |replace (lt (Fin EPS) (Fin tolAbs)) with false
       by (cbn [lt]; rewrite Rltb_false by exact HA; reflexivity)];
  (destruct (Rlt_dec EPS tolRel) as [HR|HR];
    [rewrite (proj2 (lt_Fin EPS tolRel) HR); cbn [fst];
     rewrite (HnR HR), div_Fin_pos by lra
    |replace (lt (Fin EPS) (Fin tolRel)) with false
       by (cbn [lt]; rewrite Rltb_false by exact HR; reflexivity); cbn [fst]]).
  - rewrite min_Fin. cbn [isnan]. rewrite lt_Fin.
    pose proof (div_lt_1 nAbs tolAbs ltac:(lra)) as H1.
    pose proof (div_lt_1 nRel tolRel ltac:(lra)) as H2.
    set (a := nAbs / tolAbs) in *. set (r := nRel / tolRel) in *.
    unfold Rmin. destruct (Rle_dec a r); intuition lra.
  - change (min (Fin (nAbs / tolAbs)) PInf) with (Fin (nAbs / tolAbs)).
    cbn [isnan]. rewrite lt_Fin.
    pose proof (div_lt_1 nAbs tolAbs ltac:(lra)).
    split.
    + intros [_ H1]. left. tauto.
    + intros [[_ H1]|[H1 _]]; [|contradiction]. split; [reflexivity|tauto].
  - change (min PInf (Fin (nRel / tolRel))) with (Fin (nRel / tolRel)).
    cbn [isnan]. rewrite lt_Fin.
    pose proof (div_lt_1 nRel tolRel ltac:(lra)).
    split.
    + intros [_ H1]. right. tauto.
    + intros [[H1 _]|[_ H1]]; [contradiction|]. split; [reflexivity|tauto].
  - change (min PInf PInf) with PInf. cbn [isnan lt].
    split; [intros [_ H]; discriminate|intros [[H _]|[H _]]; contradiction].
Qed.

End ErrorEstimate.

(** States that are one real number, with the arithmetic of the reals. *)
Definition scalar_lift (f : R -> R) (a : float64_t) : float64_t :=
  match a with Fin x => Fin (f x) | other => other end.

Definition scalar_arith : StateArithmetic := {|
  state_t := float64_t;
  stateDerivative_t := float64_t;
  state_setZero := fun _ => Fin 0;
  derivative_setZero := fun _ => Fin 0;
  sumInPlace := fun x other scale =>
    match x, mul other scale with
    | Fin a, Fin b => Fin (a + b)
    | _, _ => NaN
    end;
  sum := fun x increment =>
    match x, increment with
    | Fin a, Fin b => Fin (a + b)
    | _, _ => NaN
    end;
  difference := fun x other =>
    match x, other with
    | Fin a, Fin b => Fin (a - b)
    | _, _ => NaN
    end;
  normInf := scalar_lift Rabs;
  divInPlace := fun x scale =>
    match x, scale with
    | Fin a, Fin b => Fin (a / b)
    | _, _ => NaN
    end
|}.

(** A stepper with both tolerances at zero. *)
Definition example_disabled : t (arith := scalar_arith) :=
  mk (arith := scalar_arith) (Fin 0) (Fin 0) [Fin 1] (Fin 0) (Fin 0) (Fin 0) (Fin 0).

(** A stepper with an absolute tolerance only, and no stage. *)
Definition example_absolute : t (arith := scalar_arith) :=
  mk (arith := scalar_arith) (Fin 0) (Fin 1) [] (Fin 0) (Fin 0) (Fin 0) (Fin 0).

Lemma adjustStep_tolerances_disabled_witness :
  fst (adjustStep (arith := scalar_arith) (9 / 10) (1 / 5) 5 (fun _ => 1) (1 / 2)
         (Fin 1) (Fin 2) (Fin 1) example_disabled)
  = (false, Fin (1 * (1 / 5))).
Proof.
  destruct (adjustStep_tolerances_disabled (arith := scalar_arith)
              (9 / 10) (1 / 5) 5 (fun _ => 1) (1 / 2)
              (Fin 1) (Fin 2) 1 example_disabled) as (_ & H & _).
  - lra.
  - lra.
  - cbn. apply Rltb_false. lra.
  - cbn. apply Rltb_false. lra.
  - exact H.
Defined.

Lemma adjustStep_accept_iff_witness :
  fst (fst (adjustStep (arith := scalar_arith) (9 / 10) (1 / 5) 5 (fun _ => 1) (1 / 2)
              (Fin 1) (Fin (5 / 4)) (Fin 1) example_absolute))
  = true.
Proof.
  apply (adjustStep_accept_iff (arith := scalar_arith)
           (9 / 10) (1 / 5) 5 (fun _ => 1) (1 / 2)
           (Fin 1) (Fin (5 / 4)) (Fin 1) example_absolute
           1 0 (Rabs (5 / 4 - (1 + 0))) (Rabs ((5 / 4 - (1 + 0)) / (5 / 4 - 0))));
    [lra|reflexivity|reflexivity|reflexivity|intros H; lra|].
  left. split; [lra|]. apply Rabs_def1; lra.
Defined.

End Stepper.

(** ** Distance constraint ([distance_constraint.cc]) *)

Module DistanceConstraint.

Local Open Scope R_scope.

(** [Eigen::Vector3d], over the reals. *)
Record Vector3d : Type := vec3 { vx : R; vy : R; vz : R }.

Definition vsub (a b : Vector3d) : Vector3d :=
  vec3 (vx a - vx b) (vy a - vy b) (vz a - vz b).
Definition vadd (a b : Vector3d) : Vector3d :=
  vec3 (vx a + vx b) (vy a + vy b) (vz a + vz b).
Definition vdiv (a : Vector3d) (s : R) : Vector3d :=
  vec3 (vx a / s) (vy a / s) (vz a / s).
Definition dot (a b : Vector3d) : R := vx a * vx b + vy a * vy b + vz a * vz b.
Definition cross (a b : Vector3d) : Vector3d :=
  vec3 (vy a * vz b - vz a * vy b)
       (vz a * vx b - vx a * vz b)
       (vx a * vy b - vy a * vx b).
Definition squaredNorm (a : Vector3d) : R := dot a a.
Definition norm (a : Vector3d) : R := sqrt (squaredNorm a).
Definition vzero : Vector3d := vec3 0 0 0.

(** [pinocchio::Motion]; also one column of a [Matrix6Xd], whose top three
    rows are the linear part. *)
Record Motion : Type := motion { linear : Vector3d; angular : Vector3d }.

Definition Matrix6Xd : Type := list Motion.

Definition frameIndex : Type := nat.

(** The mechanics state behind [model_]: what [model->pncModel_] and
    [model->pncData_] answer.  It belongs to pinocchio and to the robot
    model, whose sources are not at hand, and is taken as given.  [getFrameIdx] is the
    answer of [::jiminy::getFrameIdx]: its return code and, on success, the
    index. *)
Record Model : Type := {
  nv : nat;
  getFrameIdx : string -> hresult_t * frameIndex;
  oMf_translation : frameIndex -> Vector3d;
  getFrameVelocity : frameIndex -> Motion;
  getFrameAcceleration : frameIndex -> Motion;
  getFrameJacobian : frameIndex -> Matrix6Xd
}.

Record t : Type := mk {
  frameNames_ : string * string;
  frameIndices_ : frameIndex * frameIndex;
  distanceRef_ : R;
  frameJacobians_ : Matrix6Xd * Matrix6Xd;
  jacobian_ : list R;
  drift_ : list R;
  lambda_ : list R;
  kp_ : R;
  kd_ : R;
  isAttached_ : bool
}.

Definition set_distanceRef (d : R) (c : t) : t :=
  mk (frameNames_ c) (frameIndices_ c) d (frameJacobians_ c) (jacobian_ c)
     (drift_ c) (lambda_ c) (kp_ c) (kd_ c) (isAttached_ c).

Definition set_frameIndices (i : frameIndex * frameIndex) (c : t) : t :=
  mk (frameNames_ c) i (distanceRef_ c) (frameJacobians_ c) (jacobian_ c)
     (drift_ c) (lambda_ c) (kp_ c) (kd_ c) (isAttached_ c).

(** [DistanceConstraint::setReferenceDistance]. *)
Definition setReferenceDistance (distanceRef : R) (c : t) : hresult_t * t :=
  if Rlt_dec distanceRef 0 then (ERROR_BAD_INPUT, c)
  else (SUCCESS, set_distanceRef distanceRef c).

(** [DistanceConstraint::getReferenceDistance]. *)
Definition getReferenceDistance (c : t) : R := distanceRef_ c.

(** [deltaPosition] of [reset] and of [computeJacobianAndDrift]. *)
Definition deltaPosition (m : Model) (c : t) : Vector3d :=
  vsub (oMf_translation m (fst (frameIndices_ c)))
       (oMf_translation m (snd (frameIndices_ c))).

(** [DistanceConstraint::reset(q, v)].  [model] is what [model_.lock()]
    returns, [None] for an expired or unset pointer. *)
Definition reset (model : option Model) (q v : list R) (c : t) : hresult_t * t :=
  match model with
  | None => (ERROR_GENERIC, c)
  | Some m =>
      (* Get frames indices *)
      let '(rc0, i0) := getFrameIdx m (fst (frameNames_ c)) in
      match rc0 with
      | SUCCESS =>
          let c0 := set_frameIndices (i0, snd (frameIndices_ c)) c in
          let '(rc1, i1) := getFrameIdx m (snd (frameNames_ c)) in
          match rc1 with
          | SUCCESS =>
              let c1 := set_frameIndices (i0, i1) c0 in
              (* buffers, then the current distance as reference *)
              let zeros := repeat (motion vzero vzero) (nv m) in
              (SUCCESS,
               mk (frameNames_ c1) (frameIndices_ c1)
                  (norm (deltaPosition m c1))
                  (zeros, zeros) (repeat 0 (nv m)) [0] [0]
                  (kp_ c1) (kd_ c1) (isAttached_ c1))
          | _ => (rc1, c0)
          end
      | _ => (rc0, c)
      end
  end.

(** The quantities [computeJacobianAndDrift] builds, by the names of its
    locals. *)
Definition deltaPositionNorm (m : Model) (c : t) : R := norm (deltaPosition m c).

Definition direction (m : Model) (c : t) : Vector3d :=
  vdiv (deltaPosition m c) (deltaPositionNorm m c).

Definition deltaVelocity (m : Model) (c : t) : Vector3d :=
  vsub (linear (getFrameVelocity m (fst (frameIndices_ c))))
       (linear (getFrameVelocity m (snd (frameIndices_ c)))).

Definition deltaVelocityProj (m : Model) (c : t) : R :=
  dot (deltaVelocity m c) (direction m c).

(** [frameAccelerations[i].linear()] after the [+=] of the cross product. *)
Definition frameAccelerationLinear (m : Model) (i : frameIndex) : Vector3d :=
  vadd (linear (getFrameAcceleration m i))
       (cross (angular (getFrameVelocity m i)) (linear (getFrameVelocity m i))).

(** The drift before the Baumgarte terms are added. *)
Definition driftGeometric (m : Model) (c : t) : R :=
  dot (direction m c)
      (vsub (frameAccelerationLinear m (fst (frameIndices_ c)))
            (frameAccelerationLinear m (snd (frameIndices_ c))))
  + (squaredNorm (deltaVelocity m c) - (deltaVelocityProj m c) ^ 2)
    / deltaPositionNorm m c.

(** The constraint residual [c = |p_A - p_B| - d_ref]. *)
Definition residual (m : Model) (c : t) : R :=
  deltaPositionNorm m c - distanceRef_ c.

Fixpoint jacobianRow (dir : Vector3d) (J0 J1 : Matrix6Xd) : list R :=
  match J0, J1 with
  | a :: r0, b :: r1 => dot dir (vsub (linear a) (linear b)) :: jacobianRow dir r0 r1
  | _, _ => []
  end.

(** [DistanceConstraint::computeJacobianAndDrift(q, v)].  [None] stands for
    undefined behaviour: the null model pointer that the function assumes
    away, or a [drift_] that was never sized. *)
Definition computeJacobianAndDrift (model : option Model) (q v : list R) (c : t)
    : option (hresult_t * t) :=
  if negb (isAttached_ c) then Some (ERROR_GENERIC, c)
  else
    match model, drift_ c with
    | Some m, _ :: drift_tail =>
        let J0 := getFrameJacobian m (fst (frameIndices_ c)) in
        let J1 := getFrameJacobian m (snd (frameIndices_ c)) in
        let drift0 :=
          driftGeometric m c
          + (kp_ c * (deltaPositionNorm m c - distanceRef_ c)
             + kd_ c * deltaVelocityProj m c) in
        Some (SUCCESS,
              mk (frameNames_ c) (frameIndices_ c) (distanceRef_ c)
                 (J0, J1) (jacobianRow (direction m c) J0 J1)
                 (drift0 :: drift_tail) (lambda_ c)
                 (kp_ c) (kd_ c) (isAttached_ c))
    | _, _ => None
    end.

Lemma reset_success m q v c c1 :
  reset (Some m) q v c = (SUCCESS, c1) ->
  distanceRef_ c1 = deltaPositionNorm m c1 /\
  drift_ c1 = [0] /\ kp_ c1 = kp_ c /\ kd_ c1 = kd_ c /\
  isAttached_ c1 = isAttached_ c.
Proof.
  unfold reset.
  destruct (getFrameIdx m (fst (frameNames_ c))) as [rc0 i0].
  destruct rc0; try (intros [= H]; discriminate H).
  cbn [set_frameIndices frameNames_ frameIndices_ snd].
  destruct (getFrameIdx m (snd (frameNames_ c))) as [rc1 i1].
  destruct rc1; try (intros [= H]; discriminate H).
  intros [= <-]. repeat split.
Qed.

Lemma reset_failure model q v c rc c1 :
  reset model q v c = (rc, c1) -> rc <> SUCCESS -> distanceRef_ c1 = distanceRef_ c.
Proof.
  unfold reset. destruct model as [m|]; [|intros [= <- <-]; reflexivity].
  destruct (getFrameIdx m (fst (frameNames_ c))) as [rc0 i0].
  destruct rc0; try (intros [= <- <-]; reflexivity).
  cbn [set_frameIndices frameNames_ frameIndices_ snd].
  destruct (getFrameIdx m (snd (frameNames_ c))) as [rc1 i1].
  destruct rc1; try (intros [= <- <-]; reflexivity).
  intros [= <- <-] H. contradiction H. reflexivity.
Qed.

Lemma norm_pos_of_distinct a b : a <> b -> 0 < norm (vsub a b).
Proof.
  intros Hab. unfold norm. apply sqrt_lt_R0.
  unfold squaredNorm, dot, vsub. cbn [vx vy vz].
  destruct a as [ax ay az], b as [bx by' bz]. cbn [vx vy vz].
  destruct (Req_dec ax bx) as [Hx|Hx];
    [destruct (Req_dec ay by') as [Hy|Hy];
       [destruct (Req_dec az bz) as [Hz|Hz]; [subst; contradiction Hab; reflexivity|]|]|].
  - assert (H : az - bz <> 0) by lra. apply Rsqr_pos_lt in H. unfold Rsqr in H.
    pose proof (Rle_0_sqr (ax - bx)). pose proof (Rle_0_sqr (ay - by')).
    unfold Rsqr in *. lra.
  - assert (H : ay - by' <> 0) by lra. apply Rsqr_pos_lt in H. unfold Rsqr in H.
    pose proof (Rle_0_sqr (ax - bx)). pose proof (Rle_0_sqr (az - bz)).
    unfold Rsqr in *. lra.
  - assert (H : ax - bx <> 0) by lra. apply Rsqr_pos_lt in H. unfold Rsqr in H.
    pose proof (Rle_0_sqr (ay - by')). pose proof (Rle_0_sqr (az - bz)).
    unfold Rsqr in *. lra.
Qed.

(** Two point frames ["A"] at the origin and ["B"] at [(1, 0, 0)], at rest. *)
Definition two_frames : Model := {|
  nv := 1;
  getFrameIdx := fun name =>
    if String.eqb name "A" then (SUCCESS, 0%nat)
    else if String.eqb name "B" then (SUCCESS, 1%nat)
    else (ERROR_BAD_INPUT, 0%nat);
  oMf_translation := fun i =>
    match i with O => vec3 0 0 0 | _ => vec3 1 0 0 end;
  getFrameVelocity := fun _ => motion vzero vzero;
  getFrameAcceleration := fun _ => motion vzero vzero;
  getFrameJacobian := fun _ => [motion vzero vzero]
|}.

Definition fresh_AB : t :=
  mk ("A"%string, "B"%string) (0%nat, 0%nat) 0 ([], []) [] [] [] 100 20 true.

Lemma two_frames_distance c :
  frameIndices_ c = (0%nat, 1%nat) -> deltaPositionNorm two_frames c = 1.
Proof.
  intros H. unfold deltaPositionNorm, deltaPosition, norm, squaredNorm, dot, vsub.
  rewrite H. cbn.
  replace ((0 - 1) * (0 - 1) + (0 - 0) * (0 - 0) + (0 - 0) * (0 - 0)) with 1 by ring.
  apply sqrt_1.
Qed.

Definition configured_AB : t := set_distanceRef 2 fresh_AB.

Definition reset_AB : t := snd (reset (Some two_frames) [] [] configured_AB).

Lemma setReferenceDistance_AB :
  setReferenceDistance 2 fresh_AB = (SUCCESS, configured_AB).
Proof.
  unfold setReferenceDistance. destruct (Rlt_dec 2 0); [lra|reflexivity].
Qed.

Lemma reset_AB_eq : reset (Some two_frames) [] [] configured_AB = (SUCCESS, reset_AB).
Proof. reflexivity. Qed.

Lemma reset_AB_reference : getReferenceDistance reset_AB = 1.
Proof.
  destruct (reset_success _ _ _ _ _ reset_AB_eq) as (Href & _).
  unfold getReferenceDistance. rewrite Href.
  apply two_frames_distance. reflexivity.
Qed.

(** C3, counterexample: [setReferenceDistance(2)] succeeds, the frames are
    [1] apart, and after a successful [reset] the reference distance is [1]. *)
Lemma reset_discards_configured_reference :
  ~ (forall (c : t) (d : R) (m : Model) (q v : list R) (c1 c2 : t),
        0 <= d ->
        setReferenceDistance d c = (SUCCESS, c1) ->
        reset (Some m) q v c1 = (SUCCESS, c2) ->
        getReferenceDistance c2 = d).
Proof.
  intros H.
  assert (Hd : getReferenceDistance reset_AB = 2).
  { apply (H fresh_AB 2 two_frames [] [] configured_AB reset_AB);
      [lra|apply setReferenceDistance_AB|apply reset_AB_eq]. }
  rewrite reset_AB_reference in Hd. lra.
Qed.

(** C3, as amended: a successful [reset(q, v)] sets the reference distance
    to the current distance between the two frames, whether or not
    [setReferenceDistance(d)] succeeded before; the configured [d] is what
    [getReferenceDistance] returns until then, and it survives a [reset]
    that fails. *)
Theorem reset_overwrites_reference c d m q v c1 c2 :
  setReferenceDistance d c = (SUCCESS, c1) ->
  reset (Some m) q v c1 = (SUCCESS, c2) ->
  getReferenceDistance c1 = d /\
  getReferenceDistance c2 = deltaPositionNorm m c2 /\
  (forall model rc c2',
      reset model q v c1 = (rc, c2') -> rc <> SUCCESS ->
      getReferenceDistance c2' = d).
Proof.
  unfold setReferenceDistance.
  destruct (Rlt_dec d 0); [intros [= H]; discriminate H|].
  intros [= <-] Hreset. split; [reflexivity|]. split.
  - apply (reset_success _ _ _ _ _ Hreset).
  - intros model rc c2' Hr Hrc. unfold getReferenceDistance.
    rewrite (reset_failure _ _ _ _ _ _ Hr Hrc). reflexivity.
Qed.

Lemma reset_overwrites_reference_witness :
  reset (Some two_frames) [] [] configured_AB = (SUCCESS, reset_AB) /\
  getReferenceDistance configured_AB = 2 /\
  getReferenceDistance reset_AB = deltaPositionNorm two_frames reset_AB.
Proof.
  destruct (reset_overwrites_reference fresh_AB 2 two_frames [] []
              configured_AB reset_AB setReferenceDistance_AB reset_AB_eq)
    as (H1 & H2 & _).
  split; [reflexivity|]. split; assumption.
Defined.

(** C6: after a successful [reset(q0, v0)] at a state where the two frames
    are at distinct positions, the distance is positive and the residual
    [|p_A - p_B| - d_ref] at that same mechanics state is zero, hence within
    [1e-12]; [computeJacobianAndDrift(q0, v0)] on an attached constraint
    then succeeds, its drift carries no position feedback ([kp * c] is
    zero: the drift is the geometric part plus [kd] times the projected
    velocity), and it leaves the residual at zero. *)
Theorem reset_zero_residual m q0 v0 c c1 :
  reset (Some m) q0 v0 c = (SUCCESS, c1) ->
  oMf_translation m (fst (frameIndices_ c1))
    <> oMf_translation m (snd (frameIndices_ c1)) ->
  0 < deltaPositionNorm m c1 /\
  residual m c1 = 0 /\
  Rabs (residual m c1) <= 1 / 10 ^ 12 /\
  kp_ c1 * residual m c1 = 0 /\
  (isAttached_ c1 = true ->
   exists c2,
     computeJacobianAndDrift (Some m) q0 v0 c1 = Some (SUCCESS, c2) /\
     drift_ c2 = [driftGeometric m c1 + kd_ c1 * deltaVelocityProj m c1] /\
     residual m c2 = 0).
Proof.
  intros Hreset Hdistinct.
  destruct (reset_success _ _ _ _ _ Hreset) as (Href & Hdrift & _).
  assert (Hres : residual m c1 = 0) by (unfold residual; rewrite Href; ring).
  split; [apply norm_pos_of_distinct, Hdistinct|].
  split; [exact Hres|]. rewrite Hres.
  split; [rewrite Rabs_R0; apply Rlt_le, Rdiv_lt_0_compat; [lra|apply pow_lt; lra]|].
  split; [ring|].
  intros Hatt. unfold computeJacobianAndDrift. rewrite Hatt, Hdrift. cbn [negb].
  eexists. split; [reflexivity|]. cbn [drift_].
  split.
  - f_equal. unfold residual in Hres.
    replace (deltaPositionNorm m c1 - distanceRef_ c1) with 0 by (symmetry; exact Hres).
    ring.
  - exact Hres.
Qed.

Definition reset_fresh_AB : t := snd (reset (Some two_frames) [] [] fresh_AB).

Lemma reset_zero_residual_witness :
  reset (Some two_frames) [] [] fresh_AB = (SUCCESS, reset_fresh_AB) /\
  residual two_frames reset_fresh_AB = 0 /\
  exists c2,
    computeJacobianAndDrift (Some two_frames) [] [] reset_fresh_AB
    = Some (SUCCESS, c2).
Proof.
  destruct (reset_zero_residual two_frames [] [] fresh_AB reset_fresh_AB)
    as (_ & Hres & _ & _ & Hc).
  - reflexivity.
  - cbn. intros [= H]. lra.
  - split; [reflexivity|]. split; [exact Hres|].
    destruct (Hc eq_refl) as (c2 & Hc2 & _). exists c2. exact Hc2.
Defined.

(** *** Further properties of the distance constraint *)

Lemma norm_nonneg a : 0 <= norm a.
Proof. unfold norm. apply sqrt_pos. Qed.



(** The reference distance is never negative.  [setReferenceDistance]
    stores its argument only when it is not negative, [reset] stores a
    norm or nothing, and [computeJacobianAndDrift] does not write it: a
    reference distance that is not negative stays so under every
    operation, whether the operation succeeds or fails. *)
Theorem referenceDistance_nonneg c :
  0 <= getReferenceDistance c ->
  (forall d, 0 <= getReferenceDistance (snd (setReferenceDistance d c))) /\
  (forall model q v, 0 <= getReferenceDistance (snd (reset model q v c))) /\
  (forall model q v rc c',
      computeJacobianAndDrift model q v c = Some (rc, c') ->
      getReferenceDistance c' = getReferenceDistance c).
Proof.
  intros Hc. split; [|split].
  - intros d. unfold setReferenceDistance.
    destruct (Rlt_dec d 0); cbn [snd]; [exact Hc|].
    unfold getReferenceDistance. cbn. lra.
  - intros model q v. destruct (reset model q v c) as [rc c1] eqn:E. cbn [snd].
    destruct rc; try (unfold getReferenceDistance;
                      rewrite (reset_failure _ _ _ _ _ _ E); [exact Hc|discriminate]).
    destruct model as [m|]; [|discriminate E].
    destruct (reset_success _ _ _ _ _ E) as (Href & _).
    unfold getReferenceDistance. rewrite Href. apply norm_nonneg.
  - intros model q v rc c'. unfold computeJacobianAndDrift.
    destruct (isAttached_ c); cbn [negb].
    + destruct model as [m|]; [|discriminate].
      destruct (drift_ c); [discriminate|]. intros [= <- <-]. reflexivity.
    + intros [= <- <-]. reflexivity.
Qed.

Lemma referenceDistance_nonneg_witness :
  0 <= getReferenceDistance (snd (setReferenceDistance (-1) configured_AB)) /\
  0 <= getReferenceDistance (snd (reset (Some two_frames) [] [] configured_AB)).
Proof.
  destruct (referenceDistance_nonneg configured_AB) as (H1 & H2 & _).
  - cbn. lra.
  - split; [apply H1|apply H2].
Defined.

(** The constraint with its two frames exchanged. *)
Definition swapFrames (c : t) : t :=
  mk (snd (frameNames_ c), fst (frameNames_ c))
     (snd (frameIndices_ c), fst (frameIndices_ c))
     (distanceRef_ c)
     (snd (frameJacobians_ c), fst (frameJacobians_ c))
     (jacobian_ c) (drift_ c) (lambda_ c) (kp_ c) (kd_ c) (isAttached_ c).

Definition vopp (a : Vector3d) : Vector3d := vec3 (- vx a) (- vy a) (- vz a).

Lemma squaredNorm_vsub_sym a b : squaredNorm (vsub a b) = squaredNorm (vsub b a).
Proof. unfold squaredNorm, dot, vsub. cbn [vx vy vz]. ring. Qed.

Lemma deltaPositionNorm_swap m c :
  deltaPositionNorm m (swapFrames c) = deltaPositionNorm m c.
Proof.
  unfold deltaPositionNorm, deltaPosition, norm, swapFrames.
  cbn [frameIndices_ fst snd]. rewrite squaredNorm_vsub_sym. reflexivity.
Qed.

Lemma direction_swap m c : direction m (swapFrames c) = vopp (direction m c).
Proof.
  unfold direction. rewrite deltaPositionNorm_swap.
  unfold deltaPosition, swapFrames, vdiv, vsub, vopp.
  cbn [frameIndices_ fst snd vx vy vz]. f_equal; unfold Rdiv; ring.
Qed.

Lemma jacobianRow_swap dir : forall J0 J1,
  jacobianRow (vopp dir) J1 J0 = jacobianRow dir J0 J1.
Proof.
  induction J0 as [|a r0 IH]; intros [|b r1]; cbn [jacobianRow]; try reflexivity.
  rewrite IH. f_equal. unfold dot, vsub, vopp. cbn [vx vy vz]. ring.
Qed.

Lemma deltaVelocityProj_swap m c :
  deltaVelocityProj m (swapFrames c) = deltaVelocityProj m c.
Proof.
  unfold deltaVelocityProj. rewrite direction_swap.
  unfold deltaVelocity, swapFrames, dot, vsub, vopp.
  cbn [frameIndices_ fst snd vx vy vz]. ring.
Qed.

Lemma driftGeometric_swap m c :
  driftGeometric m (swapFrames c) = driftGeometric m c.
Proof.
  unfold driftGeometric.
  rewrite deltaVelocityProj_swap, deltaPositionNorm_swap, direction_swap.
  f_equal.
  - unfold swapFrames, dot, vsub, vopp. cbn [frameIndices_ fst snd vx vy vz]. ring.
  - f_equal. f_equal. unfold deltaVelocity, swapFrames.
    cbn [frameIndices_ fst snd]. apply squaredNorm_vsub_sym.
Qed.

(** The constraint does not depend on the order of its two frames.  With
    the frames at distinct positions, [computeJacobianAndDrift] on the
    constraint with the two frames exchanged succeeds when it does on the
    constraint itself, and gives the same Jacobian row and the same drift:
    the direction and the difference of the frame Jacobians both change
    sign, as do the differences of velocities and accelerations. *)
Theorem computeJacobianAndDrift_frames_exchanged m q v c c1 :
  oMf_translation m (fst (frameIndices_ c))
    <> oMf_translation m (snd (frameIndices_ c)) ->
  computeJacobianAndDrift (Some m) q v c = Some (SUCCESS, c1) ->
  exists c2,
    computeJacobianAndDrift (Some m) q v (swapFrames c) = Some (SUCCESS, c2) /\
    jacobian_ c2 = jacobian_ c1 /\
    drift_ c2 = drift_ c1 /\
    getReferenceDistance c2 = getReferenceDistance c1.
Proof.
  intros _. unfold computeJacobianAndDrift.
  change (isAttached_ (swapFrames c)) with (isAttached_ c).
  change (drift_ (swapFrames c)) with (drift_ c).
  destruct (isAttached_ c); cbn [negb]; [|discriminate].
  destruct (drift_ c) as [|d0 tail]; [discriminate|].
  intros [= <-]. eexists. split; [reflexivity|].
  cbn [jacobian_ drift_ distanceRef_ getReferenceDistance].
  split; [|split; [|reflexivity]].
  - rewrite direction_swap. apply jacobianRow_swap.
  - rewrite driftGeometric_swap, deltaPositionNorm_swap, deltaVelocityProj_swap.
    reflexivity.
Qed.

(** The constraint between ["A"] and ["B"] after [reset] and one call of
    [computeJacobianAndDrift]. *)
Definition computed_AB : t :=
  match computeJacobianAndDrift (Some two_frames) [] [] reset_fresh_AB with
  | Some (_, c) => c
  | None => reset_fresh_AB
  end.

Lemma computed_AB_eq :
  computeJacobianAndDrift (Some two_frames) [] [] reset_fresh_AB
  = Some (SUCCESS, computed_AB).
Proof. reflexivity. Qed.

Lemma computeJacobianAndDrift_frames_exchanged_witness :
  exists c2,
    computeJacobianAndDrift (Some two_frames) [] [] (swapFrames reset_fresh_AB)
    = Some (SUCCESS, c2) /\
    jacobian_ c2 = jacobian_ computed_AB /\
    drift_ c2 = drift_ computed_AB.
Proof.
  destruct (computeJacobianAndDrift_frames_exchanged two_frames [] []
              reset_fresh_AB computed_AB) as (c2 & H1 & H2 & H3 & _).
  - cbn. intros [= H]. lra.
  - exact computed_AB_eq.
  - exists c2. split; [exact H1|]. split; assumption.
Defined.

(** [computeJacobianAndDrift] recomputes, it does not accumulate, and it
    reads the mechanics state from the model only.  Called again on its own
    result at the same mechanics state, with whatever arguments [q] and
    [v], it succeeds and leaves the constraint as the first call left
    it. *)
Theorem computeJacobianAndDrift_idempotent m q v q' v' c c1 :
  computeJacobianAndDrift (Some m) q v c = Some (SUCCESS, c1) ->
  computeJacobianAndDrift (Some m) q' v' c1 = Some (SUCCESS, c1).
Proof.
  unfold computeJacobianAndDrift at 1.
  destruct (isAttached_ c) eqn:Ea; cbn [negb]; [|discriminate].
  destruct (drift_ c) as [|d0 tail] eqn:Ed; [discriminate|].
  intros [= <-]. unfold computeJacobianAndDrift.
  cbn [isAttached_ drift_ negb]. reflexivity.
Qed.

Lemma computeJacobianAndDrift_idempotent_witness :
  computeJacobianAndDrift (Some two_frames) [1] [2] computed_AB
  = Some (SUCCESS, computed_AB).
Proof.
  apply (computeJacobianAndDrift_idempotent two_frames [] [] [1] [2]
           reset_fresh_AB computed_AB computed_AB_eq).
Defined.



End DistanceConstraint.

(** ** Memory device behind a log chunk *)

Module MemoryDevice.

(** Modelled from the spec: the [MemoryDevice] class of
    [jiminy/core/io/memory_device.h] is not at hand.  Section 3 makes a
    log chunk a fixed-size byte buffer that accepts appends until it is
    full, section 4.4 gives it a used cursor, and section 4.5 lets a byte
    that is not the first of [START_LINE_TOKEN] end the data of a chunk
    that is only partially filled.  So: the buffer has its capacity from
    construction on and starts filled with zero bytes; reads and writes
    move the cursor and transfer at most what is left before the end; a
    transfer that is cut short reports an error.  The recorder reads back
    chunks that [createNewChunk] has closed, so transfers do not depend on
    the device being open. *)
Record t : Type := mk {
  buffer_ : list byte;
  currentPos_ : Z;
  isOpen_ : bool
}.

(** Modelled from the spec: the constructor, a buffer of [sizeBuffer] zero
    bytes, closed, cursor at the start. *)
Definition create (sizeBuffer : Z) : t :=
  mk (repeat Byte.x00 (Z.to_nat sizeBuffer)) 0 false.

(** Modelled from the spec: [size()], the fixed capacity. *)
Definition size (d : t) : Z := Z.of_nat (List.length (buffer_ d)).

(** Modelled from the spec: [pos()], the used cursor. *)
Definition pos (d : t) : Z := currentPos_ d.

(** Modelled from the spec: [bytesAvailable()], what is left before the end. *)
Definition bytesAvailable (d : t) : Z := size d - pos d.

(** Modelled from the spec: [open(mode)] without append, on a closed device;
    the cursor goes to the start. *)
Definition open (d : t) : hresult_t * t :=
  if isOpen_ d then (ERROR_GENERIC, d)
  else (SUCCESS, mk (buffer_ d) 0 true).

(** Modelled from the spec: [close()]; buffer and cursor stay. *)
Definition close (d : t) : hresult_t * t :=
  if isOpen_ d then (SUCCESS, mk (buffer_ d) (currentPos_ d) false)
  else (ERROR_GENERIC, d).

(** Modelled from the spec: [seek(pos)], refused outside the buffer. *)
Definition seek (p : Z) (d : t) : hresult_t * t :=
  if (p <? 0) || (size d <? p) then (ERROR_GENERIC, d)
  else (SUCCESS, mk (buffer_ d) p (isOpen_ d)).

(** Modelled from the spec: [readData(data, dataSize)], the bytes
    transferred, at most what is left, and the device. *)
Definition readData (dataSize : Z) (d : t) : list byte * t :=
  let toRead := Z.to_nat (Z.min dataSize (bytesAvailable d)) in
  let data := firstn toRead (skipn (Z.to_nat (pos d)) (buffer_ d)) in
  (data, mk (buffer_ d) (pos d + Z.of_nat toRead) (isOpen_ d)).

(** Modelled from the spec: [read], that is [readData] until [dataSize]
    bytes have come or none comes; an error when it was cut short. *)
Definition read (dataSize : Z) (d : t) : hresult_t * list byte * t :=
  let '(data, d') := readData dataSize d in
  (if dataSize <=? Z.of_nat (List.length data) then SUCCESS else ERROR_GENERIC,
   data, d').

(** Modelled from the spec: [writeData(data, dataSize)], which stores at
    most what is left before the end. *)
Definition writeData (data : list byte) (d : t) : t :=
  let toWrite :=
    Z.to_nat (Z.min (Z.of_nat (List.length data)) (bytesAvailable d)) in
  let p := Z.to_nat (pos d) in
  mk (firstn p (buffer_ d) ++ firstn toWrite data
        ++ skipn (p + toWrite) (buffer_ d))
     (pos d + Z.of_nat toWrite) (isOpen_ d).

(** Modelled from the spec: [write], that is [writeData] until all of
    [data] is stored or nothing is; an error when the device was full
    before the end of [data]. *)
Definition write (data : list byte) (d : t) : hresult_t * t :=
  (if Z.of_nat (List.length data) <=? bytesAvailable d
   then SUCCESS else ERROR_GENERIC,
   writeData data d).

(** The cursor of [d] stands between [before] and [after]. *)
Definition cursor_at (d : t) (before after : list byte) : Prop :=
  buffer_ d = before ++ after /\ currentPos_ d = Z.of_nat (List.length before).

Lemma cursor_at_size d before after :
  cursor_at d before after ->
  size d = Z.of_nat (List.length before + List.length after) /\
  bytesAvailable d = Z.of_nat (List.length after).
Proof.
  intros [Hb Hp]. unfold bytesAvailable, pos, size.
  rewrite Hb, Hp, length_app. lia.
Qed.

Lemma readData_at d before a after n :
  cursor_at d before (a ++ after) ->
  n = Z.of_nat (List.length a) ->
  exists d',
    readData n d = (a, d') /\ cursor_at d' (before ++ a) after /\
    buffer_ d' = buffer_ d /\ isOpen_ d' = isOpen_ d.
Proof.
  intros Hc ->. destruct (cursor_at_size _ _ _ Hc) as [_ Hav].
  destruct Hc as [Hb Hp]. unfold readData. rewrite Hav.
  rewrite length_app, Nat2Z.inj_add, Z.min_l, Nat2Z.id by lia.
  unfold pos. rewrite Hp, Nat2Z.id, Hb.
  rewrite skipn_app, skipn_all, Nat.sub_diag. cbn [skipn app].
  rewrite firstn_app, firstn_all, Nat.sub_diag. cbn [firstn].
  rewrite app_nil_r. eexists. split; [reflexivity|].
  split; [|split; reflexivity]. split; cbn [buffer_ currentPos_].
  - rewrite <- app_assoc. reflexivity.
  - rewrite length_app. lia.
Qed.

Lemma seek_at d before after p :
  buffer_ d = before ++ after ->
  p = Z.of_nat (List.length before) ->
  exists d',
    seek p d = (SUCCESS, d') /\ cursor_at d' before after /\
    buffer_ d' = buffer_ d /\ isOpen_ d' = isOpen_ d.
Proof.
  intros Hb ->. unfold seek, size. rewrite Hb, length_app.
  replace (Z.of_nat (List.length before) <? 0) with false by (symmetry; apply Z.ltb_ge; lia).
  replace (Z.of_nat (List.length before + List.length after) <? Z.of_nat (List.length before))
    with false by (symmetry; apply Z.ltb_ge; lia).
  cbn [orb]. eexists. split; [reflexivity|]. rewrite <- Hb.
  split; [|split; reflexivity]. split; [exact Hb|reflexivity].
Qed.

(** Seeking back to where the cursor was gives the device back. *)
Lemma seek_restore d d' :
  buffer_ d' = buffer_ d -> isOpen_ d' = isOpen_ d ->
  0 <= pos d <= size d ->
  snd (seek (pos d) d') = d.
Proof.
  intros Hb Ho Hp. unfold seek, size. rewrite Hb.
  replace (pos d <? 0) with false by (symmetry; apply Z.ltb_ge; lia).
  replace (Z.of_nat (List.length (buffer_ d)) <? pos d) with false
    by (symmetry; apply Z.ltb_ge; unfold size in Hp; lia).
  cbn [orb snd]. rewrite Ho. destruct d; reflexivity.
Qed.

Lemma write_at d before old after data :
  cursor_at d before (old ++ after) ->
  List.length old = List.length data ->
  exists d',
    write data d = (SUCCESS, d') /\ cursor_at d' (before ++ data) after /\
    isOpen_ d' = isOpen_ d.
Proof.
  intros Hc Hlen. destruct (cursor_at_size _ _ _ Hc) as [_ Hav].
  destruct Hc as [Hb Hp]. unfold write, writeData. rewrite Hav.
  rewrite length_app, Hlen in *.
  replace (Z.of_nat (List.length data)
           <=? Z.of_nat (List.length data + List.length after)) with true
    by (symmetry; apply Z.leb_le; lia).
  rewrite Z.min_l, Nat2Z.id by lia. unfold pos. rewrite Hp, Nat2Z.id, Hb.
  eexists. split; [reflexivity|]. split; [|reflexivity].
  split; cbn [buffer_ currentPos_].
  - rewrite firstn_app, firstn_all, Nat.sub_diag. cbn [firstn].
    rewrite app_nil_r, firstn_all.
    rewrite skipn_app, skipn_all2 by lia.
    replace (List.length before + List.length data - List.length before)%nat
      with (List.length old) by lia.
    rewrite skipn_app, skipn_all, Nat.sub_diag. cbn [skipn app].
    rewrite <- app_assoc. reflexivity.
  - rewrite length_app. lia.
Qed.

(** A write on a full device stores nothing. *)
Lemma write_full d data :
  pos d = size d -> snd (write data d) = d.
Proof.
  intros Hp. unfold write, writeData, bytesAvailable. cbn [snd].
  rewrite Hp, Z.sub_diag.
  rewrite Z.min_r by lia. cbn [Z.to_nat firstn app]. rewrite Nat.add_0_r.
  rewrite firstn_skipn. change (Z.of_nat 0) with 0. rewrite Z.add_0_r.
  rewrite <- Hp. destruct d; reflexivity.
Qed.

Lemma create_buffer n : buffer_ (create n) = repeat Byte.x00 (Z.to_nat n).
Proof. reflexivity. Qed.

Lemma open_create n :
  open (create n) = (SUCCESS, mk (repeat Byte.x00 (Z.to_nat n)) 0 true).
Proof. reflexivity. Qed.

End MemoryDevice.

(** ** Telemetry recorder and log parser ([telemetry_recorder.cc]) *)

Module TelemetryRecorder.

(** What [telemetry_recorder.cc] uses without its source at hand: the constants
    of [jiminy/core/constants.h], and the methods of [TelemetryData] and of
    the C++ stream library that [initialize] and the parser call.  They
    are taken as given. *)
Class Environment : Type := {
  TELEMETRY_MIN_BUFFER_SIZE : Z;
  TELEMETRY_VERSION : Z;
  START_CONSTANTS : list byte;
  START_COLUMNS : list byte;
  START_LINE_TOKEN : list byte;
  START_DATA : list byte;
  TELEMETRY_CONSTANT_DELIMITER : list byte;
  TIME_UNIT : string;
  STEPPER_MIN_TIMESTEP : Q;
  (** [TelemetryData::registerConstant(name, value)] *)
  registerConstant : string -> string -> TelemetryData.t -> hresult_t * TelemetryData.t;
  (** [TelemetryData::formatHeader(header)]: the header and the data as the
      call leaves it *)
  formatHeader : TelemetryData.t -> list byte * TelemetryData.t;
  (** [timeUnitStr << std::scientific << std::setprecision(precision) << timeUnit] *)
  formatTimeUnit : Q -> string;
  (** [std::istringstream(value) >> timeUnit] *)
  readFloat64 : list byte -> Q
}.

(** [std::deque<MemoryDevice> flows_] and the counters of the recorder.
    [integersRegistry_] and [floatsRegistry_] point into the telemetry data,
    which the simulation keeps updating: the functions that read through
    them take the data as it is at the time of the call. *)
Record t : Type := mk {
  flows_ : list MemoryDevice.t;
  isInitialized_ : bool;
  recordedBytesLimits_ : Z;
  recordedBytesDataLine_ : Z;
  recordedBytes_ : Z;
  headerSize_ : Z;
  integerSectionSize_ : Z;
  floatSectionSize_ : Z;
  timeUnitInv_ : Q
}.

(** [deque.back()] updated in place.  On an empty deque [back()] is
    undefined in the source; the model leaves the deque as it is. *)
Fixpoint on_back (f : MemoryDevice.t -> MemoryDevice.t)
    (flows : list MemoryDevice.t) : list MemoryDevice.t :=
  match flows with
  | [] => []
  | [d] => [f d]
  | d :: r => d :: on_back f r
  end.

Definition back_write (data : list byte) (flows : list MemoryDevice.t)
    : list MemoryDevice.t :=
  on_back (fun d => snd (MemoryDevice.write data d)) flows.

Definition back_close (flows : list MemoryDevice.t) : list MemoryDevice.t :=
  on_back (fun d => snd (MemoryDevice.close d)) flows.

(** [std::round]: to the nearest integer, halves away from zero. *)
Definition round (q : Q) : Z :=
  let n := Qnum q in
  let d := Z.pos (Qden q) in
  if 0 <=? n then (2 * n + d) / (2 * d) else - ((2 * (- n) + d) / (2 * d)).

(** The eight bytes of an [int64_t] or of a [float64_t] bit pattern, least
    significant first. *)
Definition bytes64 (v : Z) : list byte := le_split 8 v.

(** The [int64_t] held by eight bytes. *)
Definition int64_of (u : Z) : Z := if u <? 2 ^ 63 then u else u - 2 ^ 64.

Section Recorder.

Context {env : Environment}.

Definition tokenSize : Z := Z.of_nat (List.length START_LINE_TOKEN).

(** [TelemetryRecorder::createNewChunk]. *)
Definition createNewChunk (r : t) : hresult_t * t :=
  (* Close the current MemoryDevice, if any and if it was opened *)
  let flows := back_close (flows_ r) in
  let isHeaderThere := match flows with [] => 1 | _ => 0 end in
  let maxBufferSize :=
    Z.max TELEMETRY_MIN_BUFFER_SIZE (isHeaderThere * headerSize_ r) in
  let maxRecordedDataLines :=
    Z.quot (maxBufferSize - isHeaderThere * headerSize_ r)
           (recordedBytesDataLine_ r) in
  let recordedBytesLimits :=
    isHeaderThere * headerSize_ r
    + maxRecordedDataLines * recordedBytesDataLine_ r in
  let '(returnCode, chunk) :=
    MemoryDevice.open (MemoryDevice.create recordedBytesLimits) in
  (returnCode,
   mk (flows ++ [chunk]) (isInitialized_ r) recordedBytesLimits
      (recordedBytesDataLine_ r)
      (if hresult_eqb returnCode SUCCESS then 0 else recordedBytes_ r)
      (headerSize_ r) (integerSectionSize_ r) (floatSectionSize_ r)
      (timeUnitInv_ r)).

(** The bytes one call of [flushDataSnapshot] hands to [write], in order. *)
Definition dataLine (data : TelemetryData.t) (timestamp : Q) (r : t)
    : list (list byte) :=
  START_LINE_TOKEN
  :: bytes64 (round (timestamp * timeUnitInv_ r))
  :: map (fun keyValue => bytes64 (snd keyValue)) (TelemetryData.integersRegistry_ data)
  ++ map (fun keyValue => bytes64 (snd keyValue)) (TelemetryData.floatsRegistry_ data).

(** [TelemetryRecorder::flushDataSnapshot(timestamp)]; the return codes of
    the [write] calls are dropped, as in the source. *)
Definition flushDataSnapshot (data : TelemetryData.t) (timestamp : Q) (r : t)
    : hresult_t * t :=
  let '(returnCode, r1) :=
    if recordedBytes_ r =? recordedBytesLimits_ r
    then createNewChunk r else (SUCCESS, r) in
  if hresult_eqb returnCode SUCCESS then
    (returnCode,
     mk (fold_left (fun flows data => back_write data flows)
                   (dataLine data timestamp r1) (flows_ r1))
        (isInitialized_ r1) (recordedBytesLimits_ r1)
        (recordedBytesDataLine_ r1)
        (recordedBytes_ r1 + recordedBytesDataLine_ r1)
        (headerSize_ r1) (integerSectionSize_ r1) (floatSectionSize_ r1)
        (timeUnitInv_ r1))
  else (returnCode, r1).

(** [TelemetryRecorder::initialize(telemetryData, timeUnit)]: return code,
    recorder and telemetry data after the call. *)
Definition initialize (telemetryData : TelemetryData.t) (timeUnit : Q) (r : t)
    : hresult_t * t * TelemetryData.t :=
  let returnCode0 := if isInitialized_ r then ERROR_INIT_FAILED else SUCCESS in
  (* Log the time unit as constant *)
  let timeUnitInv := Qinv timeUnit in
  let data1 := snd (registerConstant TIME_UNIT (formatTimeUnit timeUnit) telemetryData) in
  let r0 :=
    mk (flows_ r) (isInitialized_ r) (recordedBytesLimits_ r)
       (recordedBytesDataLine_ r) (recordedBytes_ r) (headerSize_ r)
       (integerSectionSize_ r) (floatSectionSize_ r) timeUnitInv in
  if hresult_eqb returnCode0 SUCCESS then
    let integerSectionSize :=
      8 * Z.of_nat (List.length (TelemetryData.integersRegistry_ data1)) in
    let floatSectionSize :=
      8 * Z.of_nat (List.length (TelemetryData.floatsRegistry_ data1)) in
    let recordedBytesDataLine :=
      integerSectionSize + floatSectionSize + (tokenSize + 8) in
    let '(header, data2) := formatHeader data1 in
    let headerSize := Z.of_nat (List.length header) in
    let '(returnCode1, r1) :=
      createNewChunk
        (mk [] (isInitialized_ r) (recordedBytesLimits_ r)
            recordedBytesDataLine (recordedBytes_ r) headerSize
            integerSectionSize floatSectionSize timeUnitInv) in
    if hresult_eqb returnCode1 SUCCESS then
      (* Write the Header *)
      match flows_ r1 with
      | flow0 :: others =>
          let '(returnCode2, flow0') := MemoryDevice.write header flow0 in
          let r2 :=
            mk (flow0' :: others) (isInitialized_ r1) (recordedBytesLimits_ r1)
               (recordedBytesDataLine_ r1) (recordedBytes_ r1) (headerSize_ r1)
               (integerSectionSize_ r1) (floatSectionSize_ r1) (timeUnitInv_ r1) in
          if hresult_eqb returnCode2 SUCCESS then
            (returnCode2,
             mk (flows_ r2) true (recordedBytesLimits_ r2)
                (recordedBytesDataLine_ r2) (headerSize_ r2) (headerSize_ r2)
                (integerSectionSize_ r2) (floatSectionSize_ r2) (timeUnitInv_ r2),
             data2)
          else (returnCode2, r2, data2)
      | [] => (returnCode1, r1, data2)
      end
    else (returnCode1, r1, data2)
  else (returnCode0, r0, data1).

(** [TelemetryRecorder::getIsInitialized]. *)
Definition getIsInitialized (r : t) : bool := isInitialized_ r.

(** [TelemetryRecorder::reset]. *)
Definition reset (r : t) : t :=
  mk (back_close (flows_ r)) false (recordedBytesLimits_ r)
     (recordedBytesDataLine_ r) (recordedBytes_ r) (headerSize_ r)
     (integerSectionSize_ r) (floatSectionSize_ r) (timeUnitInv_ r).

(** [TelemetryRecorder::writeLog(filename)].  The file device is outside
    the model: [fileOpens] says whether [myFile.isOpen()] holds after [open],
    and the third component is what has been written to the file. *)
Definition writeLog_flow (flow : MemoryDevice.t) : list byte * MemoryDevice.t :=
  let pos_old := MemoryDevice.pos flow in
  let flow1 := snd (MemoryDevice.seek 0 flow) in
  let '(_, data, flow2) := MemoryDevice.read pos_old flow1 in
  (* bufferChunk.resize(pos_old) gives zero bytes, read overwrites a prefix *)
  let bufferChunk :=
    data ++ repeat Byte.x00 (Z.to_nat pos_old - List.length data) in
  (bufferChunk, snd (MemoryDevice.seek pos_old flow2)).

Fixpoint writeLog_flows (flows : list MemoryDevice.t)
    : list byte * list MemoryDevice.t :=
  match flows with
  | [] => ([], [])
  | flow :: others =>
      let '(chunk, flow') := writeLog_flow flow in
      let '(file, others') := writeLog_flows others in
      (chunk ++ file, flow' :: others')
  end.

Definition writeLog (fileOpens : bool) (r : t) : hresult_t * t * list byte :=
  if fileOpens then
    let '(file, flows) := writeLog_flows (flows_ r) in
    (SUCCESS,
     mk flows (isInitialized_ r) (recordedBytesLimits_ r)
        (recordedBytesDataLine_ r) (recordedBytes_ r) (headerSize_ r)
        (integerSectionSize_ r) (floatSectionSize_ r) (timeUnitInv_ r),
     file)
  else (ERROR_BAD_INPUT, r, []).

(** *** The parser *)

Fixpoint bytes_eqb (a b : list byte) : bool :=
  match a, b with
  | [], [] => true
  | x :: a', y :: b' => Byte.eqb x y && bytes_eqb a' b'
  | _, _ => false
  end.

Fixpoint is_prefix (pat l : list byte) : bool :=
  match pat, l with
  | [], _ => true
  | p :: pat', x :: l' => Byte.eqb p x && is_prefix pat' l'
  | _ :: _, [] => false
  end.

(** Offset of the first occurrence of [pat] in [w], or the length of [w]. *)
Fixpoint search_in (w pat : list byte) : nat :=
  if is_prefix pat w then 0%nat
  else match w with
       | [] => 0%nat
       | _ :: w' => S (search_in w' pat)
       end.

(** The range [first, last) of a buffer. *)
Definition slice (buf : list byte) (first last : nat) : list byte :=
  firstn (last - first) (skipn first buf).

(** [std::search(first, last, pat.begin(), pat.end())] on iterators into
    [buf], as positions. *)
Definition search (buf : list byte) (first last : nat) (pat : list byte) : nat :=
  (first + search_in (slice buf first last) pat)%nat.

(** The constants loop.  [None] is undefined behaviour: an iterator past
    the end, or a [std::string] built from a range that ends before it
    starts; running out of [fuel] stands for a loop that does not end. *)
Fixpoint parseConstants (fuel : nat) (headerCharBuffer : list byte)
    (posHeaderIt : nat) (constants : list (list byte * list byte))
    : option (list (list byte * list byte) * nat) :=
  match fuel with
  | O => None
  | S fuel' =>
      let last := List.length headerCharBuffer in
      if (last <? posHeaderIt)%nat then None
      else
        (* Find position of the next constant *)
        let posHeaderNextIt0 :=
          search headerCharBuffer posHeaderIt last START_LINE_TOKEN in
        let isLastConstant := (posHeaderNextIt0 =? last)%nat in
        let posHeaderNextIt :=
          if isLastConstant
          then search headerCharBuffer posHeaderIt last START_COLUMNS
          else posHeaderNextIt0 in
        (* Split key and value *)
        let posDelimiterIt :=
          search headerCharBuffer posHeaderIt posHeaderNextIt
                 TELEMETRY_CONSTANT_DELIMITER in
        let valueFirst :=
          (posDelimiterIt + List.length TELEMETRY_CONSTANT_DELIMITER)%nat in
        if (posHeaderNextIt =? 0)%nat || (posHeaderNextIt - 1 <? valueFirst)%nat
        then None
        else
          let key := slice headerCharBuffer posHeaderIt posDelimiterIt in
          let value := slice headerCharBuffer valueFirst (posHeaderNextIt - 1) in
          let constants' := constants ++ [(key, value)] in
          if isLastConstant
          then Some (constants',
                     (posHeaderNextIt + List.length START_COLUMNS + 1)%nat)
          else parseConstants fuel' headerCharBuffer
                 (posHeaderNextIt + List.length START_LINE_TOKEN)%nat constants'
  end.

(** [std::string(p)] on a [char const *]: the bytes up to the first NUL;
    [None] when there is none before the end of the buffer. *)
Fixpoint c_str (l : list byte) : option (list byte) :=
  match l with
  | [] => None
  | b :: l' =>
      if Byte.eqb b Byte.x00 then Some []
      else option_map (cons b) (c_str l')
  end.

(** The variable names loop, on the buffer from [pHeader] on. *)
Fixpoint parseFieldnames (fuel : nat) (pHeader : list byte) (posHeader : nat)
    (fieldnames : list (list byte)) : option (list (list byte)) :=
  match fuel with
  | O => None
  | S fuel' =>
      match c_str (skipn posHeader pHeader) with
      | None => None
      | Some fieldname =>
          if bytes_eqb fieldname START_DATA then Some fieldnames
          else parseFieldnames fuel' pHeader
                 (posHeader + List.length fieldname + 1)%nat
                 (fieldnames ++ [fieldname])
      end
  end.

(** The header after the version flag: constants and variable names. *)
Definition parseHeader (headerCharBuffer : list byte)
    : option (list (list byte * list byte) * list (list byte)) :=
  let fuel := S (List.length headerCharBuffer) in
  let posHeaderIt :=
    (List.length START_CONSTANTS + 1 + List.length START_LINE_TOKEN)%nat in
  match parseConstants fuel headerCharBuffer posHeaderIt [] with
  | None => None
  | Some (constants, posHeaderIt') =>
      if (List.length headerCharBuffer <=? posHeaderIt')%nat then None
      else
        match parseFieldnames fuel (skipn posHeaderIt' headerCharBuffer) 0 [] with
        | None => None
        | Some fieldnames => Some (constants, fieldnames)
        end
  end.

(** [logData_t].  The matrices [intData] and [floatData] are lists of
    columns, one per time stamp; a [float64_t] entry is its bit pattern. *)
Record logData_t : Type := mkLog {
  version : Z;
  constants : list (list byte * list byte);
  fieldnames : list (list byte);
  timeUnit : Q;
  timestamps : list Z;
  intData : list (list Z);
  floatData : list (list Z)
}.

(** [logData = {}]. *)
Definition logData_empty : logData_t := mkLog 0 [] [] 0%Q [] [] [].

Definition int32_of (u : Z) : Z := if u <? 2 ^ 31 then u else u - 2 ^ 32.

(** The [n] eight-byte cells of a column buffer. *)
Fixpoint cells (n : nat) (data : list byte) : list Z :=
  match n with
  | O => []
  | S n' => le_combine (firstn 8 data) :: cells n' (skipn 8 data)
  end.

(** The time unit looked up in the constants. *)
Fixpoint lookupTimeUnit (constants : list (list byte * list byte)) : Q :=
  match constants with
  | [] => STEPPER_MIN_TIMESTEP
  | (key, value) :: others =>
      if bytes_eqb key (String.list_byte_of_string TIME_UNIT)
      then readFloat64 value
      else lookupTimeUnit others
  end.

(** The loop over the data lines of one flow.  [None] is undefined
    behaviour: a line that starts when [timeIdx] has reached [numData], the
    size the arrays were given, or a column buffer that the bytes read do
    not fill exactly. *)
Fixpoint readDataLines (fuel : nat) (integerSectionSize floatSectionSize : Z)
    (numData : Z) (logData : logData_t) (flow : MemoryDevice.t)
    : option (logData_t * MemoryDevice.t) :=
  match fuel with
  | O => None
  | S fuel' =>
      if MemoryDevice.bytesAvailable flow >? 0 then
        let '(startLineTokenBuffer, flow1) := MemoryDevice.readData 1 flow in
        if negb (bytes_eqb startLineTokenBuffer [hd Byte.x00 START_LINE_TOKEN])
        then Some (logData, flow1)
        else
          let flow2 :=
            snd (MemoryDevice.seek (MemoryDevice.pos flow1 + tokenSize - 1) flow1) in
          let timeIdx := Z.of_nat (List.length (timestamps logData)) in
          if numData <=? timeIdx then None
          else
            let '(timeBuffer, flow3) := MemoryDevice.readData 8 flow2 in
            let '(intBuffer, flow4) :=
              MemoryDevice.readData integerSectionSize flow3 in
            let '(floatBuffer, flow5) :=
              MemoryDevice.readData floatSectionSize flow4 in
            let numInt := Z.to_nat (Z.quot integerSectionSize 8) in
            let numFloat := Z.to_nat (Z.quot floatSectionSize 8) in
            if (List.length timeBuffer =? 8)%nat
               && (List.length intBuffer =? 8 * numInt)%nat
               && (Z.of_nat (List.length intBuffer) =? integerSectionSize)
               && (List.length floatBuffer =? 8 * numFloat)%nat
               && (Z.of_nat (List.length floatBuffer) =? floatSectionSize)
            then
              readDataLines fuel' integerSectionSize floatSectionSize numData
                (mkLog (version logData) (constants logData)
                       (fieldnames logData) (timeUnit logData)
                       (timestamps logData ++ [int64_of (le_combine timeBuffer)])
                       (intData logData ++ [map int64_of (cells numInt intBuffer)])
                       (floatData logData ++ [cells numFloat floatBuffer]))
                flow5
            else None
      else Some (logData, flow)
  end.

(** What the body of the loop over the flows can do. *)
Inductive step : Type :=
| Continue (isReadingHeaderDone : bool) (logData : logData_t) (flow : MemoryDevice.t)
| Return (returnCode : hresult_t) (logData : logData_t) (flow : MemoryDevice.t)
| Undefined.

(** Version flag, constants and variable names, read from the first flow. *)
Definition readHeader (headerSize : Z) (logData : logData_t)
    (flow : MemoryDevice.t) : step :=
  let '(versionBuffer, flow1) := MemoryDevice.readData 4 flow in
  if negb (List.length versionBuffer =? 4)%nat then Undefined
  else
    let version := int32_of (le_combine versionBuffer) in
    if negb (version =? TELEMETRY_VERSION)
    then Return ERROR_BAD_INPUT logData flow1
    else
      let size := headerSize - MemoryDevice.pos flow1 in
      if size <? 0 then Undefined
      else
        let '(_, data, flow2) := MemoryDevice.read size flow1 in
        let headerCharBuffer :=
          data ++ repeat Byte.x00 (Z.to_nat size - List.length data) in
        match parseHeader headerCharBuffer with
        | None => Undefined
        | Some (constants, fieldnames) =>
            Continue true
              (mkLog version constants fieldnames (timeUnit logData)
                     (timestamps logData) (intData logData) (floatData logData))
              flow2
        end.

(** The second half of the loop body: time unit, allocation, data lines,
    and the cursor put back to [pos_old]. *)
Definition readFlowData (integerSectionSize floatSectionSize pos_old : Z)
    (logData1 : logData_t) (flow1 : MemoryDevice.t) : step :=
  (* Look for timeUnit constant - if not found, use default time unit *)
  let logData2 :=
    mkLog (version logData1) (constants logData1) (fieldnames logData1)
          (lookupTimeUnit (constants logData1))
          (timestamps logData1) (intData logData1) (floatData logData1) in
  (* Allocate memory *)
  let recordedBytesDataLine :=
    tokenSize + 8 + integerSectionSize + floatSectionSize in
  if recordedBytesDataLine =? 0 then Undefined
  else
    let timeIdx := Z.of_nat (List.length (timestamps logData2)) in
    let numData :=
      timeIdx + Z.quot (MemoryDevice.bytesAvailable flow1) recordedBytesDataLine in
    if numData <? 0 then Undefined
    else
      match readDataLines (S (Z.to_nat (MemoryDevice.bytesAvailable flow1)))
              integerSectionSize floatSectionSize numData logData2 flow1 with
      | None => Undefined
      | Some (logData3, flow3) =>
          (* Restore the cursor position *)
          Continue true logData3 (snd (MemoryDevice.seek pos_old flow3))
      end.

(** The body of [for (auto & flow : flows)] in [parseLogDataRaw]. *)
Definition parseFlow (integerSectionSize floatSectionSize headerSize : Z)
    (isReadingHeaderDone : bool) (logData : logData_t) (flow : MemoryDevice.t)
    : step :=
  (* Save the cursor position and move it to the beginning *)
  let pos_old := MemoryDevice.pos flow in
  let flow0 := snd (MemoryDevice.seek 0 flow) in
  match (if isReadingHeaderDone then Continue true logData flow0
         else readHeader headerSize logData flow0) with
  | Continue _ logData1 flow1 =>
      readFlowData integerSectionSize floatSectionSize pos_old logData1 flow1
  | other => other
  end.

Fixpoint parseFlows (integerSectionSize floatSectionSize headerSize : Z)
    (isReadingHeaderDone : bool) (logData : logData_t)
    (flows : list MemoryDevice.t)
    : option (hresult_t * logData_t * list MemoryDevice.t) :=
  match flows with
  | [] => Some (SUCCESS, logData, [])
  | flow :: others =>
      match parseFlow integerSectionSize floatSectionSize headerSize
              isReadingHeaderDone logData flow with
      | Continue done logData' flow' =>
          match parseFlows integerSectionSize floatSectionSize headerSize
                  done logData' others with
          | Some (returnCode, logData'', others') =>
              Some (returnCode, logData'', flow' :: others')
          | None => None
          end
      | Return returnCode logData' flow' =>
          Some (returnCode, logData', flow' :: others)
      | Undefined => None
      end
  end.

(** [parseLogDataRaw(flows, integerSectionSize, floatSectionSize,
    headerSize, logData)]: return code, [logData] and the flows as the call
    leaves them; [None] where the source has undefined behaviour. *)
Definition parseLogDataRaw (flows : list MemoryDevice.t)
    (integerSectionSize floatSectionSize headerSize : Z)
    : option (hresult_t * logData_t * list MemoryDevice.t) :=
  if (integerSectionSize <? 0) || (floatSectionSize <? 0) then None
  else parseFlows integerSectionSize floatSectionSize headerSize
         false logData_empty flows.

(** [TelemetryRecorder::getLog(logData)]. *)
Definition getLog (r : t) : option (hresult_t * logData_t * t) :=
  match parseLogDataRaw (flows_ r) (integerSectionSize_ r)
          (floatSectionSize_ r) (headerSize_ r) with
  | None => None
  | Some (returnCode, logData, flows) =>
      Some (returnCode, logData,
            mk flows (isInitialized_ r) (recordedBytesLimits_ r)
               (recordedBytesDataLine_ r) (recordedBytes_ r) (headerSize_ r)
               (integerSectionSize_ r) (floatSectionSize_ r) (timeUnitInv_ r))
  end.

(** *** What the chunks hold *)

(** One data line as it is stored: the quantized time, the integer values
    and the bit patterns of the float values. *)
Record line : Type := mkLine {
  l_time : Z;
  l_ints : list Z;
  l_floats : list Z
}.

Definition encode_line (l : line) : list byte :=
  START_LINE_TOKEN ++ bytes64 (l_time l)
  ++ List.concat (map bytes64 (l_ints l)) ++ List.concat (map bytes64 (l_floats l)).

(** The line [flushDataSnapshot(timestamp)] records from [data]. *)
Definition line_of (data : TelemetryData.t) (timestamp : Q) (r : t) : line :=
  mkLine (round (timestamp * timeUnitInv_ r))
         (map snd (TelemetryData.integersRegistry_ data))
         (map snd (TelemetryData.floatsRegistry_ data)).

Definition line_ok (numInt numFloat : nat) (l : line) : Prop :=
  List.length (l_ints l) = numInt /\ List.length (l_floats l) = numFloat.

Definition lineSize (numInt numFloat : nat) : nat :=
  (List.length START_LINE_TOKEN + 8 + 8 * numInt + 8 * numFloat)%nat.

(** An [int64_t] as it comes back from its eight bytes. *)
Definition wrap64 (v : Z) : Z := int64_of (v mod 2 ^ 64).

(** A bit pattern as it comes back from its eight bytes. *)
Definition bits64 (v : Z) : Z := v mod 2 ^ 64.

(** [logData] with the columns of [lines] appended. *)
Definition append_lines (logData : logData_t) (lines : list line) : logData_t :=
  mkLog (version logData) (constants logData) (fieldnames logData)
        (timeUnit logData)
        (timestamps logData ++ map (fun l => wrap64 (l_time l)) lines)
        (intData logData ++ map (fun l => map wrap64 (l_ints l)) lines)
        (floatData logData ++ map (fun l => map bits64 (l_floats l)) lines).

Lemma wrap64_small v : - 2 ^ 63 <= v < 2 ^ 63 -> wrap64 v = v.
Proof.
  intros Hv. unfold wrap64, int64_of.
  destruct (Z.ltb_spec (v mod 2 ^ 64) (2 ^ 63)) as [H|H].
  - destruct (Z.lt_ge_cases v 0) as [Hn|Hn].
    + rewrite <- (Z.mod_add v 1 (2 ^ 64)) in H by lia.
      rewrite Z.mod_small in H by lia. lia.
    + apply Z.mod_small. lia.
  - destruct (Z.lt_ge_cases v 0) as [Hn|Hn].
    + rewrite <- (Z.mod_add v 1 (2 ^ 64)) by lia.
      rewrite Z.mod_small by lia. lia.
    + rewrite Z.mod_small in H by lia. lia.
Qed.

Lemma bits64_small v : 0 <= v < 2 ^ 64 -> bits64 v = v.
Proof. intros Hv. apply Z.mod_small, Hv. Qed.

Lemma length_bytes64 v : List.length (bytes64 v) = 8%nat.
Proof. apply length_le_split. Qed.

Lemma le_combine_bytes64 v : le_combine (bytes64 v) = v mod 2 ^ 64.
Proof. unfold bytes64. rewrite le_combine_split. reflexivity. Qed.

Lemma length_concat_bytes64 vs :
  List.length (List.concat (map bytes64 vs)) = (8 * List.length vs)%nat.
Proof.
  induction vs as [|v vs IH]; [reflexivity|].
  cbn [map List.concat List.length]. rewrite length_app, length_bytes64, IH. lia.
Qed.

Lemma cells_concat_bytes64 vs :
  cells (List.length vs) (List.concat (map bytes64 vs)) = map bits64 vs.
Proof.
  induction vs as [|v vs IH]; [reflexivity|].
  cbn [map List.concat List.length cells].
  rewrite firstn_app, firstn_all2, length_bytes64 by (rewrite length_bytes64; lia).
  cbn [Nat.sub firstn]. rewrite app_nil_r, le_combine_bytes64.
  rewrite skipn_app, skipn_all2, length_bytes64 by (rewrite length_bytes64; lia).
  cbn [Nat.sub skipn app]. rewrite IH. reflexivity.
Qed.

Lemma length_encode_line numInt numFloat l :
  line_ok numInt numFloat l ->
  List.length (encode_line l) = lineSize numInt numFloat.
Proof.
  intros [Hi Hf]. unfold encode_line, lineSize.
  rewrite !length_app, length_bytes64, !length_concat_bytes64, Hi, Hf. lia.
Qed.

Lemma length_concat_lines numInt numFloat lines :
  Forall (line_ok numInt numFloat) lines ->
  List.length (List.concat (map encode_line lines))
  = (List.length lines * lineSize numInt numFloat)%nat.
Proof.
  induction 1 as [|l lines Hl _ IH]; [reflexivity|].
  cbn [map List.concat List.length].
  rewrite length_app, (length_encode_line _ _ _ Hl), IH. lia.
Qed.

Lemma concat_dataLine data timestamp r :
  List.concat (dataLine data timestamp r) = encode_line (line_of data timestamp r).
Proof.
  unfold dataLine, encode_line, line_of. cbn [List.concat l_time l_ints l_floats].
  rewrite concat_app, !map_map. reflexivity.
Qed.

Lemma line_of_ok data timestamp r :
  line_ok (List.length (TelemetryData.integersRegistry_ data))
          (List.length (TelemetryData.floatsRegistry_ data))
          (line_of data timestamp r).
Proof. split; apply length_map. Qed.

Lemma append_lines_nil logData : append_lines logData [] = logData.
Proof.
  destruct logData. unfold append_lines. cbn. rewrite !app_nil_r. reflexivity.
Qed.

Lemma append_lines_cons logData l lines :
  append_lines (append_lines logData [l]) lines = append_lines logData (l :: lines).
Proof.
  unfold append_lines. cbn. rewrite <- !app_assoc. reflexivity.
Qed.

Lemma append_lines_app logData l1 l2 :
  append_lines (append_lines logData l1) l2 = append_lines logData (l1 ++ l2).
Proof.
  unfold append_lines. cbn. rewrite !map_app, !app_assoc. reflexivity.
Qed.

(** *** Reading the data lines of one chunk *)

(** The first byte of [START_LINE_TOKEN] is not the zero byte that fills an
    unused chunk. *)
Definition token_ok : Prop := hd Byte.x00 START_LINE_TOKEN <> Byte.x00.

Lemma token_ok_cons :
  token_ok -> exists c rest, START_LINE_TOKEN = c :: rest /\ c <> Byte.x00.
Proof.
  unfold token_ok. destruct START_LINE_TOKEN as [|c rest]; cbn [hd].
  - intros H. contradiction H. reflexivity.
  - intros H. eauto.
Qed.

Lemma bytes_eqb_refl a : bytes_eqb a a = true.
Proof.
  induction a as [|x a IH]; [reflexivity|].
  cbn [bytes_eqb]. rewrite (Byte.byte_dec_lb eq_refl), IH. reflexivity.
Qed.

Lemma bytes_eqb_eq a b : bytes_eqb a b = true -> a = b.
Proof.
  revert b; induction a as [|x a IH]; intros [|y b]; cbn [bytes_eqb];
    try discriminate; [reflexivity|].
  intros H. apply andb_prop in H. destruct H as [Hx Hab].
  apply Byte.byte_dec_bl in Hx. rewrite (IH _ Hab), Hx. reflexivity.
Qed.

Lemma bytes_eqb_neq a b : a <> b -> bytes_eqb a b = false.
Proof.
  intros H. destruct (bytes_eqb a b) eqn:E; [|reflexivity].
  contradiction H. apply bytes_eqb_eq, E.
Qed.

Lemma readDataLines_lines numInt numFloat free numData :
  token_ok ->
  forall lines fuel logData d before,
    MemoryDevice.cursor_at d before
      (List.concat (map encode_line lines) ++ repeat Byte.x00 free) ->
    Forall (line_ok numInt numFloat) lines ->
    (List.length lines < fuel)%nat ->
    Z.of_nat (List.length (timestamps logData) + List.length lines) <= numData ->
    exists d',
      readDataLines fuel (8 * Z.of_nat numInt) (8 * Z.of_nat numFloat)
        numData logData d
      = Some (append_lines logData lines, d') /\
      MemoryDevice.buffer_ d' = MemoryDevice.buffer_ d /\
      MemoryDevice.isOpen_ d' = MemoryDevice.isOpen_ d.
Proof.
  intros Htok. destruct (token_ok_cons Htok) as (c & rest & Hslt & Hc0).
  induction lines as [|l lines IH]; intros fuel logData d before Hc Hok Hfuel Hnum.
  - (* no line left: the chunk ends, or a zero byte stops the loop *)
    destruct fuel as [|fuel]; [cbn in Hfuel; lia|]. cbn [readDataLines].
    cbn [map List.concat app] in Hc.
    destruct (MemoryDevice.cursor_at_size _ _ _ Hc) as [_ Hav]. rewrite Hav.
    rewrite repeat_length. rewrite append_lines_nil.
    destruct free as [|free].
    + cbn. eauto.
    + replace (Z.of_nat (S free) >? 0) with true by (symmetry; apply Z.gtb_lt; lia).
      change (repeat Byte.x00 (S free)) with ([Byte.x00] ++ repeat Byte.x00 free) in Hc.
      destruct (MemoryDevice.readData_at _ _ _ _ 1 Hc eq_refl)
        as (d1 & Hr & _ & Hb & Ho).
      rewrite Hr. rewrite bytes_eqb_neq.
      * cbn [negb]. eauto.
      * unfold token_ok in Htok. congruence.
  - destruct fuel as [|fuel]; [cbn in Hfuel; lia|]. cbn [readDataLines].
    inversion Hok as [|l' lines' Hl Hlines]; subst l' lines'.
    destruct Hl as [Hli Hlf].
    cbn [map List.concat] in Hc. unfold encode_line at 1 in Hc.
    rewrite Hslt in Hc.
    match type of Hc with
    | MemoryDevice.cursor_at _ _ ?after =>
        replace after with
          ([c] ++ rest ++ bytes64 (l_time l)
           ++ List.concat (map bytes64 (l_ints l))
           ++ List.concat (map bytes64 (l_floats l))
           ++ List.concat (map encode_line lines) ++ repeat Byte.x00 free) in Hc
          by (cbn [app]; rewrite <- !app_assoc; reflexivity)
    end.
    destruct (MemoryDevice.cursor_at_size _ _ _ Hc) as [_ Hav]. rewrite Hav.
    replace (Z.of_nat _ >? 0) with true
      by (symmetry; apply Z.gtb_lt; rewrite length_app; cbn [List.length]; lia).
    destruct (MemoryDevice.readData_at _ _ _ _ 1 Hc eq_refl)
      as (d1 & Hr1 & Hc1 & Hb1 & Ho1).
    rewrite Hr1. rewrite Hslt. cbn [hd]. rewrite bytes_eqb_refl. cbn [negb].
    (* skip the rest of the token *)
    destruct Hc1 as [Hbuf1 Hpos1].
    destruct (MemoryDevice.seek_at d1 ((before ++ [c]) ++ rest)
                (bytes64 (l_time l)
                 ++ List.concat (map bytes64 (l_ints l))
                 ++ List.concat (map bytes64 (l_floats l))
                 ++ List.concat (map encode_line lines) ++ repeat Byte.x00 free)
                (MemoryDevice.pos d1 + tokenSize - 1))
      as (d2 & Hs2 & Hc2 & Hb2 & Ho2).
    { rewrite Hbuf1, <- !app_assoc. reflexivity. }
    { unfold MemoryDevice.pos, tokenSize. rewrite Hpos1, Hslt, !length_app.
      cbn [List.length]. lia. }
    rewrite Hs2. cbn [snd].
    replace (numData <=? Z.of_nat (List.length (timestamps logData))) with false
      by (symmetry; apply Z.leb_gt; cbn [List.length] in Hnum; lia).
    destruct (MemoryDevice.readData_at _ _ _ _ 8 Hc2)
      as (d3 & Hr3 & Hc3 & Hb3 & Ho3); [rewrite length_bytes64; reflexivity|].
    rewrite Hr3.
    destruct (MemoryDevice.readData_at _ _ _ _ (8 * Z.of_nat numInt) Hc3)
      as (d4 & Hr4 & Hc4 & Hb4 & Ho4); [rewrite length_concat_bytes64; lia|].
    rewrite Hr4.
    destruct (MemoryDevice.readData_at _ _ _ _ (8 * Z.of_nat numFloat) Hc4)
      as (d5 & Hr5 & Hc5 & Hb5 & Ho5); [rewrite length_concat_bytes64; lia|].
    rewrite Hr5.
    rewrite !Z.quot_div_nonneg by lia.
    rewrite !(Z.mul_comm 8), !Z.div_mul, !Nat2Z.id by lia.
    rewrite length_bytes64, !length_concat_bytes64, Hli, Hlf.
    rewrite !Nat.eqb_refl.
    replace (Z.of_nat (8 * numInt) =? Z.of_nat numInt * 8) with true
      by (symmetry; apply Z.eqb_eq; lia).
    replace (Z.of_nat (8 * numFloat) =? Z.of_nat numFloat * 8) with true
      by (symmetry; apply Z.eqb_eq; lia).
    cbn [andb].
    rewrite le_combine_bytes64.
    replace (cells numInt (List.concat (map bytes64 (l_ints l))))
      with (map bits64 (l_ints l))
      by (rewrite <- Hli; symmetry; apply cells_concat_bytes64).
    replace (cells numFloat (List.concat (map bytes64 (l_floats l))))
      with (map bits64 (l_floats l))
      by (rewrite <- Hlf; symmetry; apply cells_concat_bytes64).
    rewrite map_map.
    match goal with
    | |- exists d', readDataLines _ _ _ _ ?log _ = _ /\ _ =>
        change log with (append_lines logData [l])
    end.
    destruct (IH fuel (append_lines logData [l]) d5 _ Hc5 Hlines) as (d' & Hr & Hb & Ho).
    { cbn [List.length] in Hfuel. lia. }
    { unfold append_lines. cbn [timestamps map]. rewrite length_app.
      cbn [List.length] in *. lia. }
    exists d'. rewrite !(Z.mul_comm _ 8). rewrite Hr, append_lines_cons.
    split; [reflexivity|]. split; congruence.
Qed.

(** *** Parsing one chunk *)

(** A chunk that holds [hdr], then [lines], then room for [free] more. *)
Definition chunk_repr (numInt numFloat : nat) (hdr : list byte)
    (lines : list line) (free : nat) (d : MemoryDevice.t) : Prop :=
  MemoryDevice.cursor_at d (hdr ++ List.concat (map encode_line lines))
    (repeat Byte.x00 (free * lineSize numInt numFloat))
  /\ Forall (line_ok numInt numFloat) lines.

(** [logData] once the time unit has been looked up. *)
Definition with_timeUnit (logData : logData_t) : logData_t :=
  mkLog (version logData) (constants logData) (fieldnames logData)
        (lookupTimeUnit (constants logData))
        (timestamps logData) (intData logData) (floatData logData).

Lemma lineSize_Z numInt numFloat :
  tokenSize + 8 + 8 * Z.of_nat numInt + 8 * Z.of_nat numFloat
  = Z.of_nat (lineSize numInt numFloat).
Proof. unfold tokenSize, lineSize. lia. Qed.

Lemma lineSize_pos numInt numFloat : (0 < lineSize numInt numFloat)%nat.
Proof. unfold lineSize. lia. Qed.

Lemma readFlowData_chunk numInt numFloat lines free before flow1 d logData1 :
  token_ok ->
  MemoryDevice.cursor_at flow1 before
    (List.concat (map encode_line lines)
     ++ repeat Byte.x00 (free * lineSize numInt numFloat)) ->
  Forall (line_ok numInt numFloat) lines ->
  MemoryDevice.buffer_ flow1 = MemoryDevice.buffer_ d ->
  MemoryDevice.isOpen_ flow1 = MemoryDevice.isOpen_ d ->
  0 <= MemoryDevice.pos d <= MemoryDevice.size d ->
  readFlowData (8 * Z.of_nat numInt) (8 * Z.of_nat numFloat)
    (MemoryDevice.pos d) logData1 flow1
  = Continue true (append_lines (with_timeUnit logData1) lines) d.
Proof.
  intros Htok Hc Hok Hb Ho Hpos. unfold readFlowData.
  fold (with_timeUnit logData1).
  rewrite lineSize_Z.
  pose proof (lineSize_pos numInt numFloat) as HL.
  replace (Z.of_nat (lineSize numInt numFloat) =? 0) with false
    by (symmetry; apply Z.eqb_neq; lia).
  destruct (MemoryDevice.cursor_at_size _ _ _ Hc) as [_ Hav]. rewrite Hav.
  rewrite length_app, repeat_length, (length_concat_lines _ _ _ Hok).
  replace (List.length lines * lineSize numInt numFloat
           + free * lineSize numInt numFloat)%nat
    with ((List.length lines + free) * lineSize numInt numFloat)%nat by lia.
  rewrite Z.quot_div_nonneg by lia.
  rewrite Nat2Z.inj_mul, Z.div_mul by lia.
  match goal with
  | |- context [if ?c then Undefined else _] =>
      replace c with false by (symmetry; apply Z.ltb_ge; lia)
  end.
  destruct (readDataLines_lines numInt numFloat
              (free * lineSize numInt numFloat)
              (Z.of_nat (List.length (timestamps (with_timeUnit logData1)))
               + Z.of_nat (List.length lines + free))
              Htok lines
              (S (Z.to_nat (Z.of_nat (List.length lines + free)
                            * Z.of_nat (lineSize numInt numFloat))))
              (with_timeUnit logData1) flow1 before Hc Hok)
    as (d' & Hr & Hb' & Ho').
  { rewrite <- Nat2Z.inj_mul, Nat2Z.id. nia. }
  { lia. }
  rewrite Hr. f_equal.
  apply MemoryDevice.seek_restore; [congruence|congruence|exact Hpos].
Qed.

(** The header is one the parser reads: it starts with the version flag,
    and the loops over constants and variable names come to their end. *)
Definition header_ok (hdr : list byte)
    (cs : list (list byte * list byte)) (fs : list (list byte)) : Prop :=
  (4 <= List.length hdr)%nat /\
  int32_of (le_combine (firstn 4 hdr)) = TELEMETRY_VERSION /\
  parseHeader (skipn 4 hdr) = Some (cs, fs).

(** [logData] after the header has been read. *)
Definition header_log (cs : list (list byte * list byte)) (fs : list (list byte))
    : logData_t :=
  mkLog TELEMETRY_VERSION cs fs (lookupTimeUnit cs) [] [] [].

Lemma chunk_repr_pos numInt numFloat hdr lines free d :
  chunk_repr numInt numFloat hdr lines free d ->
  0 <= MemoryDevice.pos d <= MemoryDevice.size d.
Proof.
  intros [Hc _]. destruct (MemoryDevice.cursor_at_size _ _ _ Hc) as [Hs _].
  destruct Hc as [_ Hp]. unfold MemoryDevice.pos. rewrite Hs, Hp. lia.
Qed.

Lemma parseFlow_data numInt numFloat lines free d headerSize logData :
  token_ok ->
  chunk_repr numInt numFloat [] lines free d ->
  parseFlow (8 * Z.of_nat numInt) (8 * Z.of_nat numFloat) headerSize
    true logData d
  = Continue true (append_lines (with_timeUnit logData) lines) d.
Proof.
  intros Htok Hrepr. pose proof (chunk_repr_pos _ _ _ _ _ _ Hrepr) as Hpos.
  destruct Hrepr as [[Hb Hp] Hok]. unfold parseFlow.
  destruct (MemoryDevice.seek_at d [] (MemoryDevice.buffer_ d) 0 eq_refl eq_refl)
    as (flow0 & Hs & Hc0 & Hb0 & Ho0).
  rewrite Hs. cbn [snd].
  apply (readFlowData_chunk numInt numFloat lines free []); try assumption.
  destruct Hc0 as [Hbuf0 Hpos0]. split; [|exact Hpos0].
  rewrite Hb0, Hb. reflexivity.
Qed.

Lemma parseFlow_header numInt numFloat hdr cs fs lines free d :
  token_ok ->
  header_ok hdr cs fs ->
  chunk_repr numInt numFloat hdr lines free d ->
  parseFlow (8 * Z.of_nat numInt) (8 * Z.of_nat numFloat)
    (Z.of_nat (List.length hdr)) false logData_empty d
  = Continue true (append_lines (header_log cs fs) lines) d.
Proof.
  intros Htok (Hlen & Hver & Hparse) Hrepr.
  pose proof (chunk_repr_pos _ _ _ _ _ _ Hrepr) as Hpos.
  destruct Hrepr as [[Hb Hp] Hok]. unfold parseFlow.
  destruct (MemoryDevice.seek_at d [] (MemoryDevice.buffer_ d) 0 eq_refl eq_refl)
    as (flow0 & Hs & Hc0 & Hb0 & Ho0).
  rewrite Hs. cbn [snd]. unfold readHeader.
  (* the version flag *)
  assert (Hc0' : MemoryDevice.cursor_at flow0 []
                   (firstn 4 hdr
                    ++ skipn 4 hdr ++ List.concat (map encode_line lines)
                    ++ repeat Byte.x00 (free * lineSize numInt numFloat))).
  { destruct Hc0 as [Hbuf0 Hpos0]. split; [|exact Hpos0].
    rewrite Hb0, Hb. cbn [app]. rewrite <- (firstn_skipn 4 hdr) at 1.
    rewrite <- !app_assoc. reflexivity. }
  destruct (MemoryDevice.readData_at _ _ _ _ 4 Hc0')
    as (flow1 & Hr1 & Hc1 & Hb1 & Ho1).
  { rewrite length_firstn. lia. }
  rewrite Hr1. rewrite length_firstn, Nat.min_l by lia.
  cbn [Nat.eqb negb]. rewrite Hver, Z.eqb_refl. cbn [negb].
  (* the rest of the header *)
  assert (Hpos1 : MemoryDevice.pos flow1 = 4).
  { destruct Hc1 as [_ Hp1]. unfold MemoryDevice.pos. rewrite Hp1.
    cbn [app]. rewrite length_firstn. lia. }
  rewrite Hpos1.
  replace (Z.of_nat (List.length hdr) - 4 <? 0) with false
    by (symmetry; apply Z.ltb_ge; lia).
  unfold MemoryDevice.read.
  destruct (MemoryDevice.readData_at _ _ _ _
              (Z.of_nat (List.length hdr) - 4) Hc1)
    as (flow2 & Hr2 & Hc2 & Hb2 & Ho2).
  { rewrite length_skipn. lia. }
  rewrite Hr2. rewrite length_skipn.
  replace (Z.to_nat (Z.of_nat (List.length hdr) - 4) - (List.length hdr - 4))%nat
    with 0%nat by lia.
  cbn [repeat]. rewrite app_nil_r, Hparse.
  cbn [app] in Hc2. rewrite firstn_skipn in Hc2.
  change (append_lines (header_log cs fs) lines)
    with (append_lines
            (with_timeUnit
               (mkLog TELEMETRY_VERSION cs fs (timeUnit logData_empty)
                      (timestamps logData_empty) (intData logData_empty)
                      (floatData logData_empty))) lines).
  apply (readFlowData_chunk numInt numFloat lines free hdr); try assumption;
    congruence.
Qed.

(** The chunks after the first one. *)
Definition chunks_repr (numInt numFloat : nat)
    (chunks : list (list line * nat)) (flows : list MemoryDevice.t) : Prop :=
  Forall2 (fun c d => chunk_repr numInt numFloat [] (fst c) (snd c) d) chunks flows.

(** All the chunks of a recorder: the first one starts with the header. *)
Definition flows_repr (numInt numFloat : nat) (hdr : list byte)
    (chunks : list (list line * nat)) (flows : list MemoryDevice.t) : Prop :=
  match chunks, flows with
  | c :: chunks', d :: flows' =>
      chunk_repr numInt numFloat hdr (fst c) (snd c) d
      /\ chunks_repr numInt numFloat chunks' flows'
  | _, _ => False
  end.

(** The lines the chunks hold, in order. *)
Definition stored (chunks : list (list line * nat)) : list line :=
  List.concat (map fst chunks).

Lemma with_timeUnit_append logData lines :
  with_timeUnit logData = logData ->
  with_timeUnit (append_lines logData lines) = append_lines logData lines.
Proof.
  destruct logData. unfold with_timeUnit, append_lines. cbn.
  intros [= H]. rewrite H. reflexivity.
Qed.

Lemma parseFlows_chunks numInt numFloat headerSize :
  token_ok ->
  forall chunks flows logData,
    chunks_repr numInt numFloat chunks flows ->
    with_timeUnit logData = logData ->
    parseFlows (8 * Z.of_nat numInt) (8 * Z.of_nat numFloat) headerSize
      true logData flows
    = Some (SUCCESS, append_lines logData (stored chunks), flows).
Proof.
  intros Htok chunks flows logData Hrepr. revert logData.
  induction Hrepr as [|c d chunks flows Hc _ IH]; intros logData Htu.
  - cbn. rewrite append_lines_nil. reflexivity.
  - cbn [parseFlows]. rewrite (parseFlow_data _ _ _ _ _ _ _ Htok Hc), Htu.
    rewrite IH by (apply with_timeUnit_append, Htu).
    unfold stored. cbn [map List.concat]. rewrite append_lines_app. reflexivity.
Qed.

(** Parsing the chunks of a recorder gives back the header and the lines
    they hold, and leaves every chunk as it was. *)
Lemma parseLogDataRaw_repr numInt numFloat hdr cs fs chunks flows :
  token_ok ->
  header_ok hdr cs fs ->
  flows_repr numInt numFloat hdr chunks flows ->
  parseLogDataRaw flows (8 * Z.of_nat numInt) (8 * Z.of_nat numFloat)
    (Z.of_nat (List.length hdr))
  = Some (SUCCESS, append_lines (header_log cs fs) (stored chunks), flows).
Proof.
  intros Htok Hhdr Hrepr. unfold parseLogDataRaw.
  replace (8 * Z.of_nat numInt <? 0) with false by (symmetry; apply Z.ltb_ge; lia).
  replace (8 * Z.of_nat numFloat <? 0) with false by (symmetry; apply Z.ltb_ge; lia).
  cbn [orb].
  destruct chunks as [|c chunks], flows as [|d flows]; try contradiction.
  destruct Hrepr as [Hc Hcs]. cbn [parseFlows].
  rewrite (parseFlow_header _ _ _ _ _ _ _ _ Htok Hhdr Hc).
  rewrite (parseFlows_chunks _ _ _ Htok _ _ _ Hcs)
    by (apply with_timeUnit_append; reflexivity).
  unfold stored. cbn [map List.concat]. rewrite append_lines_app. reflexivity.
Qed.

(** *** The last chunk *)

Lemma on_back_snoc f flows d : on_back f (flows ++ [d]) = flows ++ [f d].
Proof.
  induction flows as [|a flows IH]; [reflexivity|].
  cbn [app on_back]. rewrite IH.
  destruct (flows ++ [d]) eqn:E; [|reflexivity].
  destruct flows; discriminate E.
Qed.

Lemma fold_back_write_snoc pieces : forall flows d,
  fold_left (fun flows data => back_write data flows) pieces (flows ++ [d])
  = flows ++ [fold_left (fun d data => snd (MemoryDevice.write data d)) pieces d].
Proof.
  induction pieces as [|p pieces IH]; intros flows d; [reflexivity|].
  cbn [fold_left]. unfold back_write at 2. rewrite on_back_snoc. apply IH.
Qed.

Lemma stored_snoc chunks c : stored (chunks ++ [c]) = stored chunks ++ fst c.
Proof.
  unfold stored. rewrite map_app, concat_app. cbn. rewrite app_nil_r. reflexivity.
Qed.

Lemma Forall2_snoc_inv {A B} (P : A -> B -> Prop) l l' :
  Forall2 P l l' -> l <> [] ->
  exists a x b y, l = a ++ [x] /\ l' = b ++ [y] /\ Forall2 P a b /\ P x y.
Proof.
  intros H Hne. destruct (exists_last Hne) as (a & x & ->).
  apply Forall2_app_inv_l in H. destruct H as (b & e & Hab & He & ->).
  inversion He as [|x' y l1 l2 Hxy Hnil]; subst.
  inversion Hnil; subst. exists a, x, b, y. auto.
Qed.

(** The chunks end with a last one, which can be replaced or followed. *)
Lemma flows_repr_last numInt numFloat hdr chunks flows :
  flows_repr numInt numFloat hdr chunks flows ->
  exists cs c fl d h,
    chunks = cs ++ [c] /\ flows = fl ++ [d] /\
    chunk_repr numInt numFloat h (fst c) (snd c) d /\
    (forall c' d',
        chunk_repr numInt numFloat h (fst c') (snd c') d' ->
        flows_repr numInt numFloat hdr (cs ++ [c']) (fl ++ [d'])).
Proof.
  destruct chunks as [|c0 cs0], flows as [|d0 fs0]; try contradiction.
  intros [Hc0 Hrest]. destruct cs0 as [|c1 cs1].
  - inversion Hrest; subst. exists [], c0, [], d0, hdr.
    split; [reflexivity|]. split; [reflexivity|]. split; [exact Hc0|].
    intros c' d' H. cbn. split; [exact H|constructor].
  - destruct (Forall2_snoc_inv _ _ _ Hrest) as (a & x & b & y & Ea & Eb & Hab & Hxy);
      [discriminate|].
    exists (c0 :: a), x, (d0 :: b), y, [].
    rewrite Ea, Eb.
    split; [reflexivity|]. split; [reflexivity|]. split; [exact Hxy|].
    intros c' d' H. cbn. split; [exact Hc0|].
    apply Forall2_app; [exact Hab|]. constructor; [exact H|constructor].
Qed.

Lemma flows_repr_snoc numInt numFloat hdr chunks flows c d :
  flows_repr numInt numFloat hdr chunks flows ->
  chunk_repr numInt numFloat [] (fst c) (snd c) d ->
  flows_repr numInt numFloat hdr (chunks ++ [c]) (flows ++ [d]).
Proof.
  destruct chunks as [|c0 cs0], flows as [|d0 fs0]; try contradiction.
  intros [Hc0 Hrest] Hc. cbn. split; [exact Hc0|].
  apply Forall2_app; [exact Hrest|]. constructor; [exact Hc|constructor].
Qed.

(** Closing a chunk keeps what it holds. *)
Lemma chunk_repr_close numInt numFloat h lines free d :
  chunk_repr numInt numFloat h lines free d ->
  chunk_repr numInt numFloat h lines free (snd (MemoryDevice.close d)).
Proof.
  intros [[Hb Hp] Hok]. unfold MemoryDevice.close.
  destruct (MemoryDevice.isOpen_ d); cbn [snd]; repeat split; assumption.
Qed.

(** Writes in a row, onto room that holds them all. *)
Lemma write_pieces pieces : forall d before old after,
  MemoryDevice.cursor_at d before (old ++ after) ->
  List.length old = List.length (List.concat pieces) ->
  MemoryDevice.cursor_at
    (fold_left (fun d data => snd (MemoryDevice.write data d)) pieces d)
    (before ++ List.concat pieces) after.
Proof.
  induction pieces as [|p pieces IH]; intros d before old after Hc Hlen.
  - cbn in *. destruct old; [|discriminate]. rewrite app_nil_r. exact Hc.
  - cbn [fold_left List.concat] in *. rewrite length_app in Hlen.
    rewrite <- (firstn_skipn (List.length p) old), <- app_assoc in Hc.
    destruct (MemoryDevice.write_at _ _ _ _ p Hc) as (d' & Hw & Hc' & _).
    { rewrite length_firstn. lia. }
    rewrite Hw. cbn [snd]. rewrite app_assoc.
    apply (IH d' _ (skipn (List.length p) old)); [exact Hc'|].
    rewrite length_skipn. lia.
Qed.

(** Writes in a row on a full chunk leave it as it is. *)
Lemma write_pieces_full pieces : forall d,
  MemoryDevice.pos d = MemoryDevice.size d ->
  fold_left (fun d data => snd (MemoryDevice.write data d)) pieces d = d.
Proof.
  induction pieces as [|p pieces IH]; intros d Hfull; [reflexivity|].
  cbn [fold_left]. rewrite (MemoryDevice.write_full _ _ Hfull). apply IH, Hfull.
Qed.

(** *** The recorder and its chunks *)

(** The recorder holds the header [hdr] and, chunk by chunk, the lines and
    the free room of [chunks]; its section sizes are those of [numInt]
    integer and [numFloat] float signals. *)
Definition inv (numInt numFloat : nat) (hdr : list byte)
    (chunks : list (list line * nat)) (r : t) : Prop :=
  flows_repr numInt numFloat hdr chunks (flows_ r) /\
  headerSize_ r = Z.of_nat (List.length hdr) /\
  integerSectionSize_ r = 8 * Z.of_nat numInt /\
  floatSectionSize_ r = 8 * Z.of_nat numFloat /\
  recordedBytesDataLine_ r = Z.of_nat (lineSize numInt numFloat).

(** The counters of the recorder are those of its last chunk. *)
Definition in_step (r : t) : Prop :=
  exists fl d,
    flows_ r = fl ++ [d] /\
    recordedBytes_ r = MemoryDevice.pos d /\
    recordedBytesLimits_ r = MemoryDevice.size d.

(** The last chunk is full and the counter has run past the limit: no
    further call of [flushDataSnapshot] opens a chunk or stores a byte. *)
Definition stuck (r : t) : Prop :=
  exists fl d,
    flows_ r = fl ++ [d] /\
    MemoryDevice.pos d = MemoryDevice.size d /\
    recordedBytesLimits_ r < recordedBytes_ r.

Lemma chunk_repr_counters numInt numFloat h lines free d :
  chunk_repr numInt numFloat h lines free d ->
  MemoryDevice.pos d
  = Z.of_nat (List.length h + List.length lines * lineSize numInt numFloat) /\
  MemoryDevice.size d
  = Z.of_nat (List.length h + (List.length lines + free) * lineSize numInt numFloat).
Proof.
  intros [Hc Hok]. destruct (MemoryDevice.cursor_at_size _ _ _ Hc) as [Hs _].
  destruct Hc as [_ Hp]. unfold MemoryDevice.pos. rewrite Hs, Hp.
  rewrite !length_app, repeat_length, (length_concat_lines _ _ _ Hok). lia.
Qed.

(** One line written to a chunk that has room for it. *)
Lemma write_line numInt numFloat h lines free d data timestamp r :
  chunk_repr numInt numFloat h lines (S free) d ->
  line_ok numInt numFloat (line_of data timestamp r) ->
  chunk_repr numInt numFloat h (lines ++ [line_of data timestamp r]) free
    (fold_left (fun d data => snd (MemoryDevice.write data d))
               (dataLine data timestamp r) d).
Proof.
  intros [Hc Hok] Hl.
  replace (S free * lineSize numInt numFloat)%nat
    with (lineSize numInt numFloat + free * lineSize numInt numFloat)%nat in Hc by lia.
  rewrite repeat_app in Hc.
  pose proof (write_pieces (dataLine data timestamp r) d _ _ _ Hc) as Hw.
  rewrite concat_dataLine in Hw.
  rewrite repeat_length, (length_encode_line _ _ _ Hl) in Hw.
  specialize (Hw eq_refl). split.
  - rewrite map_app, concat_app. cbn [map List.concat].
    rewrite app_nil_r, app_assoc. exact Hw.
  - apply Forall_app. split; [exact Hok|]. constructor; [exact Hl|constructor].
Qed.

(** A new chunk after the first one. *)
Lemma createNewChunk_next numInt numFloat hdr chunks r :
  inv numInt numFloat hdr chunks r ->
  let n := Z.to_nat (Z.max TELEMETRY_MIN_BUFFER_SIZE 0
                     / Z.of_nat (lineSize numInt numFloat)) in
  exists fl d,
    createNewChunk r
    = (SUCCESS,
       mk (fl ++ [d]) (isInitialized_ r)
          (Z.of_nat (n * lineSize numInt numFloat))
          (recordedBytesDataLine_ r) 0 (headerSize_ r)
          (integerSectionSize_ r) (floatSectionSize_ r) (timeUnitInv_ r)) /\
    flows_repr numInt numFloat hdr (chunks ++ [([], n)]) (fl ++ [d]) /\
    chunk_repr numInt numFloat [] [] n d /\
    (forall c d',
        chunk_repr numInt numFloat [] (fst c) (snd c) d' ->
        flows_repr numInt numFloat hdr (chunks ++ [c]) (fl ++ [d'])).
Proof.
  intros (Hrepr & Hhs & His & Hfs & HL) n.
  pose proof (lineSize_pos numInt numFloat) as HLpos.
  destruct (flows_repr_last _ _ _ _ _ Hrepr)
    as (cs & c & fl & d & h & Ecs & Efl & Hc & Hreplace).
  unfold createNewChunk. rewrite Efl. unfold back_close. rewrite on_back_snoc.
  destruct (fl ++ [snd (MemoryDevice.close d)]) as [|a b] eqn:E;
    [destruct fl; discriminate E|]. rewrite <- E. clear a b E.
  rewrite !Z.mul_0_l, Z.sub_0_r, Z.add_0_l, HL.
  rewrite Z.quot_div_nonneg by lia.
  assert (Hn : Z.max TELEMETRY_MIN_BUFFER_SIZE 0 / Z.of_nat (lineSize numInt numFloat)
               * Z.of_nat (lineSize numInt numFloat)
               = Z.of_nat (n * lineSize numInt numFloat)).
  { subst n. rewrite Nat2Z.inj_mul, Z2Nat.id; [reflexivity|].
    apply Z.div_pos; lia. }
  rewrite Hn, MemoryDevice.open_create. cbn [hresult_eqb]. rewrite Nat2Z.id.
  assert (Hnew : chunk_repr numInt numFloat [] [] n
                   (MemoryDevice.mk (repeat Byte.x00 (n * lineSize numInt numFloat)) 0 true)).
  { split; [|constructor]. split; reflexivity. }
  assert (Hclosed : flows_repr numInt numFloat hdr chunks
                      (fl ++ [snd (MemoryDevice.close d)])).
  { rewrite Ecs. apply Hreplace, chunk_repr_close, Hc. }
  exists (fl ++ [snd (MemoryDevice.close d)]), 
         (MemoryDevice.mk (repeat Byte.x00 (n * lineSize numInt numFloat)) 0 true).
  split; [reflexivity|]. split; [|split; [exact Hnew|]].
  - apply flows_repr_snoc; assumption.
  - intros c' d' H. apply flows_repr_snoc; assumption.
Qed.

(** How many lines a chunk after the first one has room for. *)
Definition linesPerChunk (numInt numFloat : nat) : nat :=
  Z.to_nat (Z.max TELEMETRY_MIN_BUFFER_SIZE 0
            / Z.of_nat (lineSize numInt numFloat)).

(** [flushDataSnapshot] on a recorder whose counters follow its last chunk.
    With room in the chunk the line is stored there.  On a full chunk a new
    one is opened, and the line is stored in it if a line fits; if none
    does the line is dropped and the recorder is stuck. *)
Lemma flushDataSnapshot_in_step numInt numFloat hdr cs lines free r data timestamp :
  inv numInt numFloat hdr (cs ++ [(lines, free)]) r ->
  in_step r ->
  List.length (TelemetryData.integersRegistry_ data) = numInt ->
  List.length (TelemetryData.floatsRegistry_ data) = numFloat ->
  let r' := snd (flushDataSnapshot data timestamp r) in
  let new := line_of data timestamp r in
  fst (flushDataSnapshot data timestamp r) = SUCCESS /\
  timeUnitInv_ r' = timeUnitInv_ r /\
  isInitialized_ r' = isInitialized_ r /\
  match free with
  | S free' =>
      inv numInt numFloat hdr (cs ++ [(lines ++ [new], free')]) r' /\ in_step r'
      /\ List.length (flows_ r') = List.length (flows_ r)
  | O =>
      List.length (flows_ r') = S (List.length (flows_ r)) /\
      match linesPerChunk numInt numFloat with
      | S n' =>
          inv numInt numFloat hdr ((cs ++ [(lines, free)]) ++ [([new], n')]) r'
          /\ in_step r'
      | O =>
          inv numInt numFloat hdr ((cs ++ [(lines, free)]) ++ [([], 0%nat)]) r'
          /\ stuck r'
      end
  end.
Proof.
  intros Hinv Hstep Hni Hnf.
  pose proof (lineSize_pos numInt numFloat) as HLpos.
  pose proof (line_of_ok data timestamp r) as Hline. rewrite Hni, Hnf in Hline.
  pose proof Hinv as (Hrepr & Hhs & His & Hfs & HL).
  destruct (flows_repr_last _ _ _ _ _ Hrepr)
    as (cs' & c & fl & d & h & Ecs & Efl & Hc & Hreplace).
  apply app_inj_tail in Ecs. destruct Ecs as [<- <-].
  cbn [fst snd] in Hc.
  destruct Hstep as (fl' & d' & Efl' & Hbytes & Hlimit).
  rewrite Efl in Efl'. apply app_inj_tail in Efl'. destruct Efl' as [<- <-].
  destruct (chunk_repr_counters _ _ _ _ _ _ Hc) as [Hpos Hsize].
  unfold flushDataSnapshot.
  destruct (Z.eqb_spec (recordedBytes_ r) (recordedBytesLimits_ r)) as [Hfull|Hroom].
  - (* the chunk is full: a new one *)
    assert (free = 0%nat) by nia. subst free.
    destruct (createNewChunk_next _ _ _ _ _ Hinv) as (fl2 & d2 & Hnew & Hrepr2 & Hc2 & Hsnoc).
    assert (Hlen2 : List.length (fl2 ++ [d2]) = S (List.length (flows_ r))).
    { destruct (cs ++ [(lines, 0%nat)]) as [|c0 cs0] eqn:Ecs0;
        [destruct cs; discriminate Ecs0|].
      destruct (fl2 ++ [d2]) as [|e0 es0] eqn:Efl2; [destruct fl2; discriminate Efl2|].
      destruct (flows_ r) as [|f0 fs0]; [contradiction|].
      cbn in Hrepr2, Hrepr. destruct Hrepr2 as [_ H2], Hrepr as [_ H1].
      apply Forall2_length in H2, H1. rewrite length_app in H2.
      cbn [List.length] in *. lia. }
    fold (linesPerChunk numInt numFloat) in Hnew, Hrepr2, Hc2.
    rewrite Hnew. cbn [hresult_eqb fst snd flows_ timeUnitInv_ isInitialized_
                       recordedBytes_ recordedBytesDataLine_ recordedBytesLimits_
                       headerSize_ integerSectionSize_ floatSectionSize_].
    split; [reflexivity|]. split; [reflexivity|]. split; [reflexivity|].
    rewrite fold_back_write_snoc.
    split; [rewrite !length_app in *; cbn [List.length] in *; lia|].
    destruct (linesPerChunk numInt numFloat) as [|n].
    + (* no line fits in the new chunk *)
      destruct (chunk_repr_counters _ _ _ _ _ _ Hc2) as [Hpos2 Hsize2].
      rewrite write_pieces_full by (rewrite Hpos2, Hsize2; cbn; lia).
      split.
      * repeat split; assumption.
      * exists fl2, d2. cbn [flows_ recordedBytes_ recordedBytesLimits_].
        split; [reflexivity|].
        split; [rewrite Hpos2, Hsize2; cbn; lia|lia].
    + (* the line goes to the new chunk *)
      pose proof (write_line _ _ _ _ _ _ data timestamp
                    (mk (fl2 ++ [d2]) (isInitialized_ r)
                        (Z.of_nat (S n * lineSize numInt numFloat))
                        (recordedBytesDataLine_ r) 0 (headerSize_ r)
                        (integerSectionSize_ r) (floatSectionSize_ r)
                        (timeUnitInv_ r)) Hc2 Hline) as Hw.
      change (line_of data timestamp _) with (line_of data timestamp r) in Hw.
      destruct (chunk_repr_counters _ _ _ _ _ _ Hw) as [Hpos3 Hsize3].
      split.
      * split; [|repeat split; assumption].
        apply (Hsnoc ([line_of data timestamp r], n)). exact Hw.
      * eexists _, _. cbn [flows_ recordedBytes_ recordedBytesLimits_].
        split; [reflexivity|].
        rewrite Hpos3, Hsize3, HL. cbn [app List.length]. split; lia.
  - (* the chunk has room *)
    cbn [hresult_eqb fst snd flows_ timeUnitInv_ isInitialized_
         recordedBytes_ recordedBytesDataLine_ recordedBytesLimits_
         headerSize_ integerSectionSize_ floatSectionSize_].
    split; [reflexivity|]. split; [reflexivity|]. split; [reflexivity|].
    rewrite Efl, fold_back_write_snoc.
    destruct free as [|free]; [exfalso; apply Hroom; lia|].
    pose proof (write_line _ _ _ _ _ _ data timestamp r Hc Hline) as Hw.
    destruct (chunk_repr_counters _ _ _ _ _ _ Hw) as [Hpos3 Hsize3].
    split; [|split].
    + split; [|repeat split; assumption].
      apply (Hreplace (lines ++ [line_of data timestamp r], free)). exact Hw.
    + eexists _, _. cbn [flows_ recordedBytes_ recordedBytesLimits_].
      split; [reflexivity|].
      rewrite Hpos3, Hsize3, HL, Hbytes, Hlimit, Hpos, Hsize, length_app.
      cbn [List.length]. split; lia.
    + rewrite !length_app. reflexivity.
Qed.

(** [flushDataSnapshot] on a stuck recorder changes no chunk. *)
Lemma flushDataSnapshot_stuck numInt numFloat hdr chunks r data timestamp :
  inv numInt numFloat hdr chunks r ->
  stuck r ->
  let r' := snd (flushDataSnapshot data timestamp r) in
  fst (flushDataSnapshot data timestamp r) = SUCCESS /\
  timeUnitInv_ r' = timeUnitInv_ r /\
  isInitialized_ r' = isInitialized_ r /\
  flows_ r' = flows_ r /\
  inv numInt numFloat hdr chunks r' /\ stuck r'.
Proof.
  intros Hinv (fl & d & Efl & Hfull & Hlt).
  pose proof Hinv as (Hrepr & Hhs & His & Hfs & HL).
  unfold flushDataSnapshot.
  destruct (Z.eqb_spec (recordedBytes_ r) (recordedBytesLimits_ r)) as [Heq|_];
    [lia|].
  cbn [hresult_eqb fst snd flows_ timeUnitInv_ isInitialized_
       recordedBytes_ recordedBytesDataLine_ recordedBytesLimits_
       headerSize_ integerSectionSize_ floatSectionSize_].
  rewrite Efl, fold_back_write_snoc, write_pieces_full by exact Hfull.
  repeat (split; [reflexivity|]). rewrite <- Efl. split.
  - repeat split; assumption.
  - exists fl, d. cbn [flows_ recordedBytes_ recordedBytesLimits_].
    split; [exact Efl|]. split; [exact Hfull|].
    pose proof (lineSize_pos numInt numFloat). lia.
Qed.

(** [initialize] on a recorder that is not initialized: one chunk, which
    holds the header and has room for whole lines. *)
Lemma initialize_inv telemetryData timeUnit r :
  isInitialized_ r = false ->
  let data1 :=
    snd (registerConstant TIME_UNIT (formatTimeUnit timeUnit) telemetryData) in
  let hdr := fst (formatHeader data1) in
  let numInt := List.length (TelemetryData.integersRegistry_ data1) in
  let numFloat := List.length (TelemetryData.floatsRegistry_ data1) in
  let n0 :=
    Z.to_nat ((Z.max TELEMETRY_MIN_BUFFER_SIZE (Z.of_nat (List.length hdr))
               - Z.of_nat (List.length hdr))
              / Z.of_nat (lineSize numInt numFloat)) in
  exists r1,
    initialize telemetryData timeUnit r
    = (SUCCESS, r1, snd (formatHeader data1)) /\
    inv numInt numFloat hdr [([], n0)] r1 /\
    in_step r1 /\
    isInitialized_ r1 = true /\
    timeUnitInv_ r1 = Qinv timeUnit.
Proof.
  intros Hinit data1 hdr numInt numFloat n0.
  pose proof (lineSize_pos numInt numFloat) as HLpos.
  unfold initialize. rewrite Hinit. cbn [hresult_eqb].
  fold data1. fold numInt. fold numFloat.
  replace (8 * Z.of_nat numInt + 8 * Z.of_nat numFloat + (tokenSize + 8))
    with (Z.of_nat (lineSize numInt numFloat))
    by (unfold lineSize, tokenSize; lia).
  subst hdr. destruct (formatHeader data1) as [header data2]. cbn [fst snd] in *.
  unfold createNewChunk.
  cbn [flows_ back_close on_back headerSize_ recordedBytesDataLine_ app
       isInitialized_ recordedBytes_ integerSectionSize_ floatSectionSize_
       timeUnitInv_].
  rewrite !Z.mul_1_l. rewrite Z.quot_div_nonneg by lia.
  assert (Hcap : Z.of_nat (List.length header)
                 + (Z.max TELEMETRY_MIN_BUFFER_SIZE (Z.of_nat (List.length header))
                    - Z.of_nat (List.length header))
                   / Z.of_nat (lineSize numInt numFloat)
                   * Z.of_nat (lineSize numInt numFloat)
                 = Z.of_nat (List.length header + n0 * lineSize numInt numFloat)).
  { subst n0. rewrite Nat2Z.inj_add, Nat2Z.inj_mul, Z2Nat.id; [reflexivity|].
    apply Z.div_pos; lia. }
  rewrite Hcap, MemoryDevice.open_create, Nat2Z.id. cbn [hresult_eqb flows_].
  assert (Hc : MemoryDevice.cursor_at
                 (MemoryDevice.mk
                    (repeat Byte.x00 (List.length header + n0 * lineSize numInt numFloat))
                    0 true)
                 [] (repeat Byte.x00 (List.length header)
                     ++ repeat Byte.x00 (n0 * lineSize numInt numFloat))).
  { split; [|reflexivity]. cbn [MemoryDevice.buffer_ app]. apply repeat_app. }
  destruct (MemoryDevice.write_at _ _ _ _ header Hc) as (d & Hw & Hd & _).
  { apply repeat_length. }
  rewrite Hw. cbn [hresult_eqb app] in *.
  assert (Hrepr : chunk_repr numInt numFloat header [] n0 d).
  { split; [|constructor]. cbn [map List.concat]. rewrite app_nil_r. exact Hd. }
  destruct (chunk_repr_counters _ _ _ _ _ _ Hrepr) as [Hpos Hsize].
  eexists. split; [reflexivity|].
  cbn [flows_ headerSize_ recordedBytesDataLine_ isInitialized_ recordedBytes_
       recordedBytesLimits_ integerSectionSize_ floatSectionSize_ timeUnitInv_].
  split; [|split; [|split; reflexivity]].
  - split; [|repeat split; reflexivity].
    cbn. split; [exact Hrepr|constructor].
  - exists [], d. cbn [flows_ recordedBytes_ recordedBytesLimits_ app].
    split; [reflexivity|]. rewrite Hpos, Hsize. cbn [List.length]. split; lia.
Qed.

(** *** Runs of the recorder *)

(** A run of [flushDataSnapshot] calls, each with the telemetry data as it
    is at that time; the run stops at the first call that fails. *)
Fixpoint flushAll (snapshots : list (TelemetryData.t * Q)) (r : t)
    : hresult_t * t :=
  match snapshots with
  | [] => (SUCCESS, r)
  | (data, timestamp) :: rest =>
      let '(returnCode, r') := flushDataSnapshot data timestamp r in
      if hresult_eqb returnCode SUCCESS then flushAll rest r'
      else (returnCode, r')
  end.

(** [initialize], then a run of [flushDataSnapshot] calls. *)
Definition record (telemetryData : TelemetryData.t) (timeUnit : Q)
    (snapshots : list (TelemetryData.t * Q)) (r : t) : hresult_t * t :=
  let '(returnCode, r1, _) := initialize telemetryData timeUnit r in
  if hresult_eqb returnCode SUCCESS then flushAll snapshots r1
  else (returnCode, r1).

(** The telemetry data when [initialize] takes the section sizes, and the
    header it writes. *)
Definition dataAtInit (telemetryData : TelemetryData.t) (timeUnit : Q)
    : TelemetryData.t :=
  snd (registerConstant TIME_UNIT (formatTimeUnit timeUnit) telemetryData).

Definition headerAtInit (telemetryData : TelemetryData.t) (timeUnit : Q)
    : list byte :=
  fst (formatHeader (dataAtInit telemetryData timeUnit)).

(** The registry keeps the number of signals it had at [initialize]. *)
Definition frozen (telemetryData : TelemetryData.t) (timeUnit : Q)
    (snapshots : list (TelemetryData.t * Q)) : Prop :=
  Forall (fun s =>
            List.length (TelemetryData.integersRegistry_ (fst s))
            = List.length (TelemetryData.integersRegistry_
                             (dataAtInit telemetryData timeUnit)) /\
            List.length (TelemetryData.floatsRegistry_ (fst s))
            = List.length (TelemetryData.floatsRegistry_
                             (dataAtInit telemetryData timeUnit)))
         snapshots.

(** The size of a data line, [rowSize] in the specification. *)
Definition rowSize (telemetryData : TelemetryData.t) (timeUnit : Q) : Z :=
  Z.of_nat
    (lineSize
       (List.length (TelemetryData.integersRegistry_ (dataAtInit telemetryData timeUnit)))
       (List.length (TelemetryData.floatsRegistry_ (dataAtInit telemetryData timeUnit)))).

(** The lines the first chunk has room for, after the header. *)
Definition linesFirstChunk (telemetryData : TelemetryData.t) (timeUnit : Q) : nat :=
  let headerSize := Z.of_nat (List.length (headerAtInit telemetryData timeUnit)) in
  Z.to_nat ((Z.max TELEMETRY_MIN_BUFFER_SIZE headerSize - headerSize)
            / rowSize telemetryData timeUnit).

(** The in-memory snapshot of a run: per call the quantized time, the
    integer values and the float values, in registration order. *)
Definition snapshot_lines (timeUnit : Q)
    (snapshots : list (TelemetryData.t * Q)) : list line :=
  map (fun s =>
         mkLine (round (snd s * Qinv timeUnit))
                (map snd (TelemetryData.integersRegistry_ (fst s)))
                (map snd (TelemetryData.floatsRegistry_ (fst s))))
      snapshots.

Definition lines_of (r : t) (snapshots : list (TelemetryData.t * Q)) : list line :=
  map (fun s => line_of (fst s) (snd s) r) snapshots.

Lemma lines_of_ext r r' snapshots :
  timeUnitInv_ r' = timeUnitInv_ r -> lines_of r' snapshots = lines_of r snapshots.
Proof.
  intros H. unfold lines_of, line_of. rewrite H. reflexivity.
Qed.

Lemma lines_of_snapshot r timeUnit snapshots :
  timeUnitInv_ r = Qinv timeUnit ->
  lines_of r snapshots = snapshot_lines timeUnit snapshots.
Proof.
  intros H. unfold lines_of, line_of, snapshot_lines. rewrite H. reflexivity.
Qed.

Lemma flushAll_stuck numInt numFloat hdr chunks : forall snapshots r,
  inv numInt numFloat hdr chunks r ->
  stuck r ->
  exists r',
    flushAll snapshots r = (SUCCESS, r') /\
    inv numInt numFloat hdr chunks r' /\ stuck r' /\
    flows_ r' = flows_ r /\
    timeUnitInv_ r' = timeUnitInv_ r /\ isInitialized_ r' = isInitialized_ r.
Proof.
  induction snapshots as [|[data timestamp] rest IH]; intros r Hinv Hstuck.
  - exists r. split; [reflexivity|]. split; [exact Hinv|]. split; [exact Hstuck|].
    split; [|split]; reflexivity.
  - cbn [flushAll].
    destruct (flushDataSnapshot_stuck _ _ _ _ _ data timestamp Hinv Hstuck)
      as (Hrc & Htu & Hin & Hfl & Hinv' & Hstuck').
    destruct (flushDataSnapshot data timestamp r) as [rc r1]. cbn [fst snd] in *.
    subst rc. cbn [hresult_eqb].
    destruct (IH r1 Hinv' Hstuck') as (r' & Hrun & Hi & Hs & Hf & Ht & Hn).
    exists r'. split; [exact Hrun|]. split; [exact Hi|]. split; [exact Hs|].
    split; [|split]; congruence.
Qed.

(** A run from a recorder whose counters follow its last chunk: every
    line is stored if a line fits in a chunk, and otherwise those the last
    chunk still has room for. *)
Lemma flushAll_in_step numInt numFloat hdr : forall snapshots r cs lines free,
  inv numInt numFloat hdr (cs ++ [(lines, free)]) r ->
  in_step r ->
  Forall (fun s =>
            List.length (TelemetryData.integersRegistry_ (fst s)) = numInt /\
            List.length (TelemetryData.floatsRegistry_ (fst s)) = numFloat)
         snapshots ->
  exists r' chunks',
    flushAll snapshots r = (SUCCESS, r') /\
    inv numInt numFloat hdr chunks' r' /\
    (in_step r' \/ (stuck r' /\ linesPerChunk numInt numFloat = 0%nat)) /\
    timeUnitInv_ r' = timeUnitInv_ r /\ isInitialized_ r' = isInitialized_ r /\
    stored chunks'
    = stored (cs ++ [(lines, free)])
      ++ lines_of r (match linesPerChunk numInt numFloat with
                     | O => firstn free snapshots
                     | S _ => snapshots
                     end).
Proof.
  induction snapshots as [|[data timestamp] rest IH];
    intros r cs lines free Hinv Hstep Hfrozen.
  - exists r, (cs ++ [(lines, free)]). cbn [flushAll].
    split; [reflexivity|]. split; [exact Hinv|]. split; [left; exact Hstep|].
    split; [reflexivity|]. split; [reflexivity|].
    destruct (linesPerChunk numInt numFloat); rewrite ?firstn_nil;
      cbn; rewrite app_nil_r; reflexivity.
  - inversion Hfrozen as [|s rest' [Hni Hnf] Hrest]; subst s rest'.
    cbn [fst] in Hni, Hnf. cbn [flushAll].
    pose proof (flushDataSnapshot_in_step _ _ _ _ _ _ _ data timestamp
                  Hinv Hstep Hni Hnf) as (Hrc & Htu & Hin & Hcase).
    destruct (flushDataSnapshot data timestamp r) as [rc r1]. cbn [fst snd] in *.
    subst rc. cbn [hresult_eqb].
    destruct free as [|free].
    + destruct Hcase as [_ Hcase].
      destruct (linesPerChunk numInt numFloat) as [|n] eqn:En.
      * (* stuck from here on *)
        destruct Hcase as [Hinv1 Hstuck1].
        destruct (flushAll_stuck _ _ _ _ rest r1 Hinv1 Hstuck1)
          as (r' & Hrun & Hi & Hs & _ & Ht & Hn).
        exists r', ((cs ++ [(lines, 0%nat)]) ++ [([], 0%nat)]).
        split; [exact Hrun|]. split; [exact Hi|].
        split; [right; split; [exact Hs|reflexivity]|].
        split; [congruence|]. split; [congruence|].
        rewrite stored_snoc. reflexivity.
      * destruct Hcase as [Hinv1 Hstep1].
        destruct (IH r1 _ _ _ Hinv1 Hstep1 Hrest)
          as (r' & chunks' & Hrun & Hi & Hs & Ht & Hn & Hst).
        exists r', chunks'.
        split; [exact Hrun|]. split; [exact Hi|]. split; [exact Hs|].
        split; [congruence|]. split; [congruence|].
        rewrite Hst, ?En, stored_snoc, (lines_of_ext _ _ _ Htu).
        cbn [fst lines_of map snd]. rewrite <- app_assoc. reflexivity.
    + destruct Hcase as (Hinv1 & Hstep1 & _).
      destruct (IH r1 _ _ _ Hinv1 Hstep1 Hrest)
        as (r' & chunks' & Hrun & Hi & Hs & Ht & Hn & Hst).
      exists r', chunks'.
      split; [exact Hrun|]. split; [exact Hi|]. split; [exact Hs|].
      split; [congruence|]. split; [congruence|].
      rewrite Hst, !stored_snoc, (lines_of_ext _ _ _ Htu). cbn [fst].
      destruct (linesPerChunk numInt numFloat);
        cbn [firstn lines_of map fst snd]; rewrite <- !app_assoc; reflexivity.
Qed.

(** When no line fits in a new chunk, a run that is longer than the room
    left in the last chunk ends stuck. *)
Lemma flushAll_gets_stuck numInt numFloat hdr :
  linesPerChunk numInt numFloat = 0%nat ->
  forall snapshots r cs lines free,
    inv numInt numFloat hdr (cs ++ [(lines, free)]) r ->
    in_step r ->
    Forall (fun s =>
              List.length (TelemetryData.integersRegistry_ (fst s)) = numInt /\
              List.length (TelemetryData.floatsRegistry_ (fst s)) = numFloat)
           snapshots ->
    (free < List.length snapshots)%nat ->
    exists r' chunks',
      flushAll snapshots r = (SUCCESS, r') /\
      inv numInt numFloat hdr chunks' r' /\ stuck r'.
Proof.
  intros Hnone.
  induction snapshots as [|[data timestamp] rest IH];
    intros r cs lines free Hinv Hstep Hfrozen Hlong; [cbn in Hlong; lia|].
  inversion Hfrozen as [|s rest' [Hni Hnf] Hrest]; subst s rest'.
  cbn [fst] in Hni, Hnf. cbn [flushAll].
  pose proof (flushDataSnapshot_in_step _ _ _ _ _ _ _ data timestamp
                Hinv Hstep Hni Hnf) as (Hrc & _ & _ & Hcase).
  destruct (flushDataSnapshot data timestamp r) as [rc r1]. cbn [fst snd] in *.
  subst rc. cbn [hresult_eqb].
  destruct free as [|free].
  - destruct Hcase as [_ Hcase]. rewrite Hnone in Hcase.
    destruct Hcase as [Hinv1 Hstuck1].
    destruct (flushAll_stuck _ _ _ _ rest r1 Hinv1 Hstuck1)
      as (r' & Hrun & Hi & Hs & _).
    exists r'. eexists. split; [exact Hrun|]. split; [exact Hi|exact Hs].
  - destruct Hcase as (Hinv1 & Hstep1 & _).
    apply (IH r1 _ _ _ Hinv1 Hstep1 Hrest). cbn [List.length] in Hlong. lia.
Qed.

(** The lines of a run that end up in the chunks: all of them when a line
    fits in a chunk of [TELEMETRY_MIN_BUFFER_SIZE] bytes, and otherwise
    those the first chunk has room for after the header. *)
Definition kept (telemetryData : TelemetryData.t) (timeUnit : Q)
    (snapshots : list (TelemetryData.t * Q)) : list (TelemetryData.t * Q) :=
  if rowSize telemetryData timeUnit <=? TELEMETRY_MIN_BUFFER_SIZE
  then snapshots
  else firstn (linesFirstChunk telemetryData timeUnit) snapshots.

Lemma linesPerChunk_fits numInt numFloat :
  Z.of_nat (lineSize numInt numFloat) <= TELEMETRY_MIN_BUFFER_SIZE ->
  exists n, linesPerChunk numInt numFloat = S n.
Proof.
  intros Hfit. pose proof (lineSize_pos numInt numFloat) as HL.
  unfold linesPerChunk.
  assert (0 < Z.max TELEMETRY_MIN_BUFFER_SIZE 0 / Z.of_nat (lineSize numInt numFloat))
    by (apply Z.div_str_pos; lia).
  destruct (Z.to_nat _) eqn:E; [lia|eauto].
Qed.

Lemma linesPerChunk_none numInt numFloat :
  TELEMETRY_MIN_BUFFER_SIZE < Z.of_nat (lineSize numInt numFloat) ->
  linesPerChunk numInt numFloat = 0%nat.
Proof.
  intros Hbig. unfold linesPerChunk.
  destruct (Z.le_gt_cases 0 TELEMETRY_MIN_BUFFER_SIZE) as [Hpos|Hneg].
  - rewrite Z.max_l, Z.div_small by lia. reflexivity.
  - rewrite Z.max_r by lia. reflexivity.
Qed.

(** What a run leaves: chunks that hold the header and the kept lines. *)
Lemma record_inv telemetryData timeUnit snapshots r :
  isInitialized_ r = false ->
  frozen telemetryData timeUnit snapshots ->
  let numInt :=
    List.length (TelemetryData.integersRegistry_ (dataAtInit telemetryData timeUnit)) in
  let numFloat :=
    List.length (TelemetryData.floatsRegistry_ (dataAtInit telemetryData timeUnit)) in
  exists r2 chunks,
    record telemetryData timeUnit snapshots r = (SUCCESS, r2) /\
    inv numInt numFloat (headerAtInit telemetryData timeUnit) chunks r2 /\
    (in_step r2
     \/ (stuck r2 /\ TELEMETRY_MIN_BUFFER_SIZE < rowSize telemetryData timeUnit)) /\
    isInitialized_ r2 = true /\
    stored chunks
    = snapshot_lines timeUnit (kept telemetryData timeUnit snapshots).
Proof.
  intros Hinit Hfrozen numInt numFloat.
  destruct (initialize_inv telemetryData timeUnit r Hinit)
    as (r1 & Hrun1 & Hinv1 & Hstep1 & Hinit1 & Htu1).
  fold (dataAtInit telemetryData timeUnit) in Hrun1, Hinv1.
  fold (headerAtInit telemetryData timeUnit) in Hinv1.
  fold numInt in Hinv1. fold numFloat in Hinv1.
  unfold record. rewrite Hrun1. cbn [hresult_eqb].
  destruct (flushAll_in_step numInt numFloat _ snapshots r1 [] [] _
              Hinv1 Hstep1 Hfrozen)
    as (r2 & chunks & Hrun2 & Hinv2 & Hmode & Htu2 & Hinit2 & Hstored).
  exists r2, chunks.
  split; [exact Hrun2|]. split; [exact Hinv2|]. split.
  { destruct Hmode as [Hstep|[Hstuck Hnone]]; [left; exact Hstep|].
    right. split; [exact Hstuck|].
    destruct (Z.lt_ge_cases TELEMETRY_MIN_BUFFER_SIZE (rowSize telemetryData timeUnit))
      as [Hlt|Hge]; [exact Hlt|].
    destruct (linesPerChunk_fits numInt numFloat Hge) as (n & Hn). congruence. }
  split; [congruence|].
  rewrite Hstored. cbn [app stored map List.concat fst].
  rewrite (lines_of_snapshot _ _ _ Htu1). f_equal. unfold kept.
  destruct (Z.leb_spec (rowSize telemetryData timeUnit) TELEMETRY_MIN_BUFFER_SIZE)
    as [Hfit|Hbig].
  - destruct (linesPerChunk_fits numInt numFloat Hfit) as (n & ->). reflexivity.
  - rewrite (linesPerChunk_none numInt numFloat Hbig). reflexivity.
Qed.

(** [getLog] on chunks that hold a header and lines: it returns them and
    leaves the recorder as it is. *)
Lemma getLog_inv numInt numFloat hdr cs fs chunks r :
  token_ok ->
  header_ok hdr cs fs ->
  inv numInt numFloat hdr chunks r ->
  getLog r
  = Some (SUCCESS, append_lines (header_log cs fs) (stored chunks), r).
Proof.
  intros Htok Hhdr (Hrepr & Hhs & His & Hfs & HL).
  unfold getLog. rewrite His, Hfs, Hhs.
  rewrite (parseLogDataRaw_repr _ _ _ _ _ _ _ Htok Hhdr Hrepr).
  rewrite <- His, <- Hfs, <- Hhs. destruct r; reflexivity.
Qed.

Lemma writeLog_flow_used d :
  0 <= MemoryDevice.pos d <= MemoryDevice.size d ->
  writeLog_flow d
  = (firstn (Z.to_nat (MemoryDevice.pos d)) (MemoryDevice.buffer_ d), d).
Proof.
  intros Hpos. unfold writeLog_flow.
  destruct (MemoryDevice.seek_at d [] (MemoryDevice.buffer_ d) 0 eq_refl eq_refl)
    as (flow1 & Hs & Hc1 & Hb1 & Ho1).
  rewrite Hs. cbn [snd]. unfold MemoryDevice.read.
  set (n := Z.to_nat (MemoryDevice.pos d)).
  assert (Hc1' : MemoryDevice.cursor_at flow1 []
                   (firstn n (MemoryDevice.buffer_ d)
                    ++ skipn n (MemoryDevice.buffer_ d))).
  { rewrite firstn_skipn. exact Hc1. }
  assert (Hlen : List.length (firstn n (MemoryDevice.buffer_ d)) = n).
  { rewrite length_firstn. unfold MemoryDevice.size in Hpos. lia. }
  destruct (MemoryDevice.readData_at _ _ _ _ (MemoryDevice.pos d) Hc1')
    as (flow2 & Hr & _ & Hb2 & Ho2); [rewrite Hlen; lia|].
  rewrite Hr, Hlen, Nat.sub_diag. cbn [repeat]. rewrite app_nil_r. f_equal.
  apply MemoryDevice.seek_restore; [congruence|congruence|exact Hpos].
Qed.

Lemma writeLog_flows_chunks numInt numFloat : forall chunks flows,
  chunks_repr numInt numFloat chunks flows ->
  writeLog_flows flows
  = (List.concat (map encode_line (stored chunks)), flows).
Proof.
  induction 1 as [|c d chunks flows Hc _ IH]; [reflexivity|].
  cbn [writeLog_flows].
  rewrite (writeLog_flow_used d (chunk_repr_pos _ _ _ _ _ _ Hc)), IH.
  destruct Hc as [[Hb Hp] _]. unfold MemoryDevice.pos.
  rewrite Hp, Nat2Z.id, Hb, firstn_app, firstn_all, Nat.sub_diag.
  cbn [firstn app]. rewrite app_nil_r.
  unfold stored. cbn [map List.concat]. rewrite map_app, concat_app. reflexivity.
Qed.

(** [writeLog] writes the header and the lines the chunks hold, and leaves
    the recorder as it is. *)
Lemma writeLog_inv numInt numFloat hdr chunks r fileOpens :
  inv numInt numFloat hdr chunks r ->
  writeLog fileOpens r
  = if fileOpens
    then (SUCCESS, r, hdr ++ List.concat (map encode_line (stored chunks)))
    else (ERROR_BAD_INPUT, r, []).
Proof.
  intros (Hrepr & _). unfold writeLog. destruct fileOpens; [|reflexivity].
  destruct chunks as [|c chunks]; [contradiction|].
  destruct (flows_ r) as [|d flows] eqn:Efl; [contradiction|].
  destruct Hrepr as [Hc Hcs]. cbn [writeLog_flows].
  rewrite (writeLog_flow_used d (chunk_repr_pos _ _ _ _ _ _ Hc)).
  rewrite (writeLog_flows_chunks _ _ _ _ Hcs).
  destruct Hc as [[Hb Hp] _]. unfold MemoryDevice.pos.
  rewrite Hp, Nat2Z.id, Hb, firstn_app, firstn_all, Nat.sub_diag.
  cbn [firstn]. rewrite app_nil_r.
  unfold stored. cbn [map List.concat]. rewrite map_app, concat_app, <- app_assoc.
  rewrite <- Efl. destruct r; reflexivity.
Qed.

End Recorder.

(** *** A small recorder *)

Definition bytes_of (s : string) : list byte := String.list_byte_of_string s.

(** A header as the parser reads it: version [1], one constant, the time
    column and two variables. *)
Definition example_header : list byte :=
  le_split 4 1
  ++ bytes_of "START_CONSTANTS" ++ [Byte.x00]
  ++ bytes_of "START_LINE_TOKEN" ++ bytes_of "Global.Time.Unit=1e-03" ++ [Byte.x00]
  ++ bytes_of "START_COLUMNS" ++ [Byte.x00]
  ++ bytes_of "Global.Time" ++ [Byte.x00]
  ++ bytes_of "a" ++ [Byte.x00]
  ++ bytes_of "x" ++ [Byte.x00]
  ++ bytes_of "START_DATA" ++ [Byte.x00].

(** An environment with the token names of the specification (section 6)
    and a chunk size to choose. *)
Definition example_env (minBufferSize : Z) : Environment := {|
  TELEMETRY_MIN_BUFFER_SIZE := minBufferSize;
  TELEMETRY_VERSION := 1;
  START_CONSTANTS := bytes_of "START_CONSTANTS";
  START_COLUMNS := bytes_of "START_COLUMNS";
  START_LINE_TOKEN := bytes_of "START_LINE_TOKEN";
  START_DATA := bytes_of "START_DATA";
  TELEMETRY_CONSTANT_DELIMITER := bytes_of "=";
  TIME_UNIT := "Global.Time.Unit";
  STEPPER_MIN_TIMESTEP := 1 # 1000000;
  registerConstant := fun name value d =>
    (SUCCESS,
     TelemetryData.mk (TelemetryData.constantsRegistry_ d ++ [(name, value)])
       (TelemetryData.integersRegistry_ d) (TelemetryData.floatsRegistry_ d)
       (TelemetryData.isRegisteringAvailable_ d));
  formatHeader := fun d =>
    (example_header,
     TelemetryData.mk (TelemetryData.constantsRegistry_ d)
       (TelemetryData.integersRegistry_ d) (TelemetryData.floatsRegistry_ d)
       false);
  formatTimeUnit := fun _ => "1e-03"%string;
  readFloat64 := fun _ => 1 # 1000
|}.

(** One integer signal ["a"] and one float signal ["x"]. *)
Definition example_data (a x : Z) : TelemetryData.t :=
  TelemetryData.mk [] [("a"%string, a)] [("x"%string, x)] true.

(** A recorder as it is constructed: no chunk, not initialized. *)
Definition example_fresh : t := mk [] false 0 0 0 0 0 0 0.

(** Three snapshots, at 0.1 s, 0.2 s and 0.3 s. *)
Definition example_snapshots : list (TelemetryData.t * Q) :=
  [(example_data 1 10, 1 # 10); (example_data (-2) 20, 2 # 10);
   (example_data 3 30, 3 # 10)].

Definition example_constants : list (list byte * list byte) :=
  [(bytes_of "Global.Time.Unit", bytes_of "1e-03")].

Definition example_fieldnames : list (list byte) :=
  [bytes_of "Global.Time"; bytes_of "a"; bytes_of "x"].

Lemma example_token_ok minBufferSize : token_ok (env := example_env minBufferSize).
Proof. unfold token_ok. cbn. discriminate. Qed.

Lemma example_header_ok minBufferSize :
  header_ok (env := example_env minBufferSize)
    (headerAtInit (env := example_env minBufferSize) (example_data 0 0) (1 # 1000))
    example_constants example_fieldnames.
Proof.
  split; [|split].
  - apply Nat.leb_le. vm_compute. reflexivity.
  - vm_compute. reflexivity.
  - vm_compute. reflexivity.
Qed.

Lemma example_frozen minBufferSize :
  frozen (env := example_env minBufferSize) (example_data 0 0) (1 # 1000)
    example_snapshots.
Proof. repeat constructor. Qed.

(** *** Properties of the recorder *)

Section Claims.

Context {env : Environment}.

(** Capacity and used bytes of a chunk are [headerContribution] plus whole
    data lines. *)
Definition aligned (headerContribution lineBytes : Z) (d : MemoryDevice.t) : Prop :=
  exists n k,
    0 <= k <= n /\
    MemoryDevice.size d = headerContribution + n * lineBytes /\
    MemoryDevice.pos d = headerContribution + k * lineBytes.

Definition flows_aligned (headerSize lineBytes : Z)
    (flows : list MemoryDevice.t) : Prop :=
  match flows with
  | [] => False
  | d :: others =>
      aligned headerSize lineBytes d /\ Forall (aligned 0 lineBytes) others
  end.

(** The last chunk is full. *)
Definition lastFull (flows : list MemoryDevice.t) : Prop :=
  exists fl d, flows = fl ++ [d] /\ MemoryDevice.pos d = MemoryDevice.size d.

(** Whether the last chunk is open. *)
Definition lastOpen (flows : list MemoryDevice.t) : bool :=
  match rev flows with
  | d :: _ => MemoryDevice.isOpen_ d
  | [] => false
  end.

Lemma chunk_repr_aligned numInt numFloat h lines free d :
  chunk_repr numInt numFloat h lines free d ->
  aligned (Z.of_nat (List.length h)) (Z.of_nat (lineSize numInt numFloat)) d.
Proof.
  intros Hc. destruct (chunk_repr_counters _ _ _ _ _ _ Hc) as [Hpos Hsize].
  exists (Z.of_nat (List.length lines + free)), (Z.of_nat (List.length lines)).
  rewrite Hpos, Hsize. split; [lia|]. split; lia.
Qed.

Lemma flows_repr_aligned numInt numFloat hdr chunks flows :
  flows_repr numInt numFloat hdr chunks flows ->
  flows_aligned (Z.of_nat (List.length hdr))
    (Z.of_nat (lineSize numInt numFloat)) flows.
Proof.
  destruct chunks as [|c chunks], flows as [|d flows]; try contradiction.
  intros [Hc Hcs]. split; [apply (chunk_repr_aligned _ _ _ _ _ _ Hc)|].
  induction Hcs as [|c' d' cs' ds' Hc' _ IH]; constructor; [|exact IH].
  apply (chunk_repr_aligned _ _ _ _ _ _ Hc').
Qed.

Lemma on_back_map {A} (g : MemoryDevice.t -> A) f flows :
  (forall d, g (f d) = g d) -> map g (on_back f flows) = map g flows.
Proof.
  intros Hg. induction flows as [|d [|d' flows] IH]; [reflexivity| |].
  - cbn. rewrite Hg. reflexivity.
  - cbn [on_back map] in *. rewrite IH. reflexivity.
Qed.

Lemma lastOpen_back_close flows : lastOpen (back_close flows) = false.
Proof.
  destruct flows as [|d0 flows0] using rev_ind; [reflexivity|].
  unfold back_close, lastOpen. rewrite on_back_snoc, rev_app_distr. cbn.
  unfold MemoryDevice.close. destruct (MemoryDevice.isOpen_ d0) eqn:E; cbn; auto.
Qed.

(** C9, as amended: [reset()] closes the current chunk and returns the
    recorder to the uninitialized state; it releases no chunk.  After
    [reset()], [getIsInitialized()] is false, the recorder holds the same
    chunks with the same contents and cursors, the last one closed, and it
    is the next [initialize] that drops them and starts with one chunk. *)
Theorem reset_keeps_chunks (r : t) :
  getIsInitialized (reset r) = false /\
  List.length (flows_ (reset r)) = List.length (flows_ r) /\
  map MemoryDevice.buffer_ (flows_ (reset r)) = map MemoryDevice.buffer_ (flows_ r) /\
  map MemoryDevice.currentPos_ (flows_ (reset r))
  = map MemoryDevice.currentPos_ (flows_ r) /\
  lastOpen (flows_ (reset r)) = false /\
  forall telemetryData timeUnit,
  exists r1 telemetryData',
    initialize telemetryData timeUnit (reset r) = (SUCCESS, r1, telemetryData') /\
    getIsInitialized r1 = true /\
    List.length (flows_ r1) = 1%nat.
Proof.
  assert (Hbuf : map MemoryDevice.buffer_ (flows_ (reset r))
                 = map MemoryDevice.buffer_ (flows_ r)).
  { apply on_back_map. intros d. unfold MemoryDevice.close.
    destruct (MemoryDevice.isOpen_ d); reflexivity. }
  split; [reflexivity|]. split; [|split; [exact Hbuf|split; [|split]]].
  - rewrite <- (length_map MemoryDevice.buffer_), Hbuf. apply length_map.
  - apply on_back_map. intros d. unfold MemoryDevice.close.
    destruct (MemoryDevice.isOpen_ d); reflexivity.
  - apply lastOpen_back_close.
  - intros telemetryData timeUnit.
    destruct (initialize_inv telemetryData timeUnit (reset r) eq_refl)
      as (r1 & Hrun & (Hrepr & _) & _ & Hinit & _).
    exists r1. eexists. split; [exact Hrun|]. split; [exact Hinit|].
    destruct (flows_ r1) as [|d flows]; [contradiction|].
    destruct Hrepr as [_ Hrest]. inversion Hrest. reflexivity.
Qed.

(** What [getLog] returns after a run, in full: the header fields, and the
    columns of the lines that were kept. *)
Lemma getLog_record telemetryData timeUnit snapshots r cs fs :
  token_ok ->
  isInitialized_ r = false ->
  header_ok (headerAtInit telemetryData timeUnit) cs fs ->
  frozen telemetryData timeUnit snapshots ->
  exists r2,
    record telemetryData timeUnit snapshots r = (SUCCESS, r2) /\
    getLog r2
    = Some (SUCCESS,
            append_lines (header_log cs fs)
              (snapshot_lines timeUnit (kept telemetryData timeUnit snapshots)),
            r2).
Proof.
  intros Htok Hinit Hhdr Hfrozen.
  destruct (record_inv telemetryData timeUnit snapshots r Hinit Hfrozen)
    as (r2 & chunks & Hrun & Hinv & _ & _ & Hstored).
  exists r2. split; [exact Hrun|].
  rewrite (getLog_inv _ _ _ _ _ _ _ Htok Hhdr Hinv), Hstored. reflexivity.
Qed.


(** C1, where the code departs from it: when a data line is longer than
    [TELEMETRY_MIN_BUFFER_SIZE] bytes, [initialize] and every call of
    [flushDataSnapshot] report [SUCCESS], and [getLog] then returns only
    the lines that found room in the first chunk: the later ones are lost,
    where the round trip promises one column per appended line. *)
Theorem getLog_drops_lines telemetryData timeUnit snapshots r cs fs :
  token_ok ->
  isInitialized_ r = false ->
  header_ok (headerAtInit telemetryData timeUnit) cs fs ->
  frozen telemetryData timeUnit snapshots ->
  TELEMETRY_MIN_BUFFER_SIZE < rowSize telemetryData timeUnit ->
  exists r2 logData,
    record telemetryData timeUnit snapshots r = (SUCCESS, r2) /\
    getLog r2 = Some (SUCCESS, logData, r2) /\
    timestamps logData
    = map (fun s => wrap64 (round (snd s * Qinv timeUnit)))
          (firstn (linesFirstChunk telemetryData timeUnit) snapshots).
Proof.
  intros Htok Hinit Hhdr Hfrozen Hbig.
  destruct (getLog_record telemetryData timeUnit snapshots r cs fs
              Htok Hinit Hhdr Hfrozen) as (r2 & Hrun & Hlog).
  unfold kept in Hlog.
  replace (rowSize telemetryData timeUnit <=? TELEMETRY_MIN_BUFFER_SIZE)
    with false in Hlog by (symmetry; apply Z.leb_gt; exact Hbig).
  exists r2. eexists. split; [exact Hrun|]. split; [exact Hlog|].
  unfold append_lines, header_log, snapshot_lines.
  cbn [timestamps app]. rewrite map_map. reflexivity.
Qed.

(** [reset] keeps what the chunks hold. *)
Lemma inv_reset numInt numFloat hdr chunks r :
  inv numInt numFloat hdr chunks r -> inv numInt numFloat hdr chunks (reset r).
Proof.
  intros (Hrepr & Hrest). split; [|exact Hrest]. cbn [reset flows_].
  destruct (flows_repr_last _ _ _ _ _ Hrepr)
    as (cs' & c & fl & d & h & Ecs & Efl & Hc & Hreplace).
  rewrite Efl, Ecs. unfold back_close. rewrite on_back_snoc.
  apply Hreplace, chunk_repr_close, Hc.
Qed.

(** C10: [writeLog] and [getLog] leave the recorder as it is.  After
    [initialize] and any run of [flushDataSnapshot] calls, [writeLog]
    returns with the recorder unchanged, whether the file opens or not,
    and so does [getLog], which succeeds: every chunk keeps its cursor,
    its contents and its open flag, so a later [flushDataSnapshot] or a
    second dump starts from the same state.  The same holds once the
    recorder has been [reset]. *)
Theorem writeLog_getLog_read_only telemetryData timeUnit snapshots r cs fs :
  token_ok ->
  isInitialized_ r = false ->
  header_ok (headerAtInit telemetryData timeUnit) cs fs ->
  frozen telemetryData timeUnit snapshots ->
  exists r2 logData,
    record telemetryData timeUnit snapshots r = (SUCCESS, r2) /\
    (forall fileOpens, snd (fst (writeLog fileOpens r2)) = r2) /\
    fst (fst (writeLog true r2)) = SUCCESS /\
    getLog r2 = Some (SUCCESS, logData, r2) /\
    (forall fileOpens, snd (fst (writeLog fileOpens (reset r2))) = reset r2) /\
    getLog (reset r2) = Some (SUCCESS, logData, reset r2).
Proof.
  intros Htok Hinit Hhdr Hfrozen.
  destruct (record_inv telemetryData timeUnit snapshots r Hinit Hfrozen)
    as (r2 & chunks & Hrun & Hinv & _ & _ & _).
  pose proof (inv_reset _ _ _ _ _ Hinv) as Hinv'.
  exists r2. eexists. split; [exact Hrun|].
  split; [|split; [|split; [|split]]].
  - intros fileOpens. rewrite (writeLog_inv _ _ _ _ _ fileOpens Hinv).
    destruct fileOpens; reflexivity.
  - rewrite (writeLog_inv _ _ _ _ _ true Hinv). reflexivity.
  - apply (getLog_inv _ _ _ _ _ _ _ Htok Hhdr Hinv).
  - intros fileOpens. rewrite (writeLog_inv _ _ _ _ _ fileOpens Hinv').
    destruct fileOpens; reflexivity.
  - apply (getLog_inv _ _ _ _ _ _ _ Htok Hhdr Hinv').
Qed.

(** Chunk and line alignment.  After [initialize] and any run of
    [flushDataSnapshot] calls, the capacity and the used bytes of every
    chunk are its header contribution (the header size for the first
    chunk, zero for the others) plus whole data lines.  When a data line
    fits in [TELEMETRY_MIN_BUFFER_SIZE] bytes, the next [flushDataSnapshot]
    opens a chunk exactly when the last one is full. *)
Theorem chunks_aligned telemetryData timeUnit snapshots r :
  isInitialized_ r = false ->
  frozen telemetryData timeUnit snapshots ->
  exists r2,
    record telemetryData timeUnit snapshots r = (SUCCESS, r2) /\
    flows_aligned (headerSize_ r2) (rowSize telemetryData timeUnit) (flows_ r2) /\
    (rowSize telemetryData timeUnit <= TELEMETRY_MIN_BUFFER_SIZE ->
     forall data timestamp,
       frozen telemetryData timeUnit [(data, timestamp)] ->
       let r3 := snd (flushDataSnapshot data timestamp r2) in
       (lastFull (flows_ r2) ->
        List.length (flows_ r3) = S (List.length (flows_ r2))) /\
       (~ lastFull (flows_ r2) ->
        List.length (flows_ r3) = List.length (flows_ r2))).
Proof.
  intros Hinit Hfrozen.
  destruct (record_inv telemetryData timeUnit snapshots r Hinit Hfrozen)
    as (r2 & chunks & Hrun & Hinv & Hmode & _ & _).
  exists r2. split; [exact Hrun|].
  pose proof Hinv as (Hrepr & Hhs & _).
  split; [rewrite Hhs; apply (flows_repr_aligned _ _ _ _ _ Hrepr)|].
  intros Hfit data timestamp Hone r3.
  destruct Hmode as [Hstep|[_ Hbig]]; [|lia].
  inversion Hone as [|s rest [Hni Hnf] _]; subst s rest. cbn [fst] in Hni, Hnf.
  destruct (flows_repr_last _ _ _ _ _ Hrepr)
    as (cs' & [lines free] & fl & d & h & Ecs & Efl & Hc & _).
  cbn [fst snd] in Hc. rewrite Ecs in Hinv.
  pose proof (flushDataSnapshot_in_step _ _ _ _ _ _ _ data timestamp
                Hinv Hstep Hni Hnf) as (_ & _ & _ & Hcase).
  destruct (chunk_repr_counters _ _ _ _ _ _ Hc) as [Hpos Hsize].
  pose proof (lineSize_pos
                (List.length (TelemetryData.integersRegistry_
                                (dataAtInit telemetryData timeUnit)))
                (List.length (TelemetryData.floatsRegistry_
                                (dataAtInit telemetryData timeUnit)))) as HL.
  destruct free as [|free].
  - destruct Hcase as [Hlen _]. split; [intros _; exact Hlen|].
    intros Hnot. contradiction Hnot. exists fl, d. split; [exact Efl|]. lia.
  - destruct Hcase as (_ & _ & Hlen). split; [|intros _; exact Hlen].
    intros (fl' & d' & Efl' & Hfull). rewrite Efl in Efl'.
    apply app_inj_tail in Efl'. destruct Efl' as [_ <-]. nia.
Qed.

(** C7, where the code departs from it: when a data line is longer than
    [TELEMETRY_MIN_BUFFER_SIZE] bytes and the run is longer than the room
    in the first chunk, the last chunk ends up full, and from then on
    [flushDataSnapshot] reports [SUCCESS] without opening a chunk, where
    the claim has it roll exactly when the current chunk is full. *)
Theorem flushDataSnapshot_full_not_rolled telemetryData timeUnit snapshots r :
  isInitialized_ r = false ->
  frozen telemetryData timeUnit snapshots ->
  TELEMETRY_MIN_BUFFER_SIZE < rowSize telemetryData timeUnit ->
  (linesFirstChunk telemetryData timeUnit < List.length snapshots)%nat ->
  exists r2,
    record telemetryData timeUnit snapshots r = (SUCCESS, r2) /\
    lastFull (flows_ r2) /\
    forall data timestamp,
      fst (flushDataSnapshot data timestamp r2) = SUCCESS /\
      flows_ (snd (flushDataSnapshot data timestamp r2)) = flows_ r2.
Proof.
  intros Hinit Hfrozen Hbig Hlong.
  destruct (initialize_inv telemetryData timeUnit r Hinit)
    as (r1 & Hrun1 & Hinv1 & Hstep1 & _).
  fold (dataAtInit telemetryData timeUnit) in Hrun1, Hinv1.
  fold (headerAtInit telemetryData timeUnit) in Hinv1.
  unfold record. rewrite Hrun1. cbn [hresult_eqb].
  destruct (flushAll_gets_stuck _ _ _ (linesPerChunk_none _ _ Hbig)
              snapshots r1 [] [] _ Hinv1 Hstep1 Hfrozen Hlong)
    as (r2 & chunks & Hrun2 & Hinv2 & Hstuck2).
  exists r2. split; [exact Hrun2|]. split.
  - destruct Hstuck2 as (fl & d & Efl & Hfull & _). exists fl, d. auto.
  - intros data timestamp.
    destruct (flushDataSnapshot_stuck _ _ _ _ _ data timestamp Hinv2 Hstuck2)
      as (Hrc & _ & _ & Hfl & _).
    split; [exact Hrc|exact Hfl].
Qed.

End Claims.

(** *** The small recorder, run *)

(** Chunks of 200 bytes: the header has 100 bytes and a data line 40, so
    the first chunk takes two lines and the third goes to a second chunk. *)
Definition example_run : hresult_t * t :=
  record (env := example_env 200) (example_data 0 0) (1 # 1000)
    example_snapshots example_fresh.

(** Chunks of 32 bytes, less than a data line. *)
Definition example_run_small : hresult_t * t :=
  record (env := example_env 32) (example_data 0 0) (1 # 1000)
    example_snapshots example_fresh.

(** C9, counterexample: after [initialize], three data lines and
    [reset()], the recorder still holds its two chunks. *)
Lemma reset_leaves_chunks :
  ~ (forall r : t, getIsInitialized (reset r) = false /\ flows_ (reset r) = []).
Proof.
  intros H. destruct (H (snd example_run)) as [_ Hflows].
  apply (f_equal (@List.length _)) in Hflows. vm_compute in Hflows.
  discriminate Hflows.
Qed.


Lemma getLog_drops_lines_witness :
  exists r2 logData,
    example_run_small = (SUCCESS, r2) /\
    getLog (env := example_env 32) r2 = Some (SUCCESS, logData, r2) /\
    timestamps logData = [].
Proof.
  destruct (getLog_drops_lines (env := example_env 32) (example_data 0 0) (1 # 1000)
              example_snapshots example_fresh example_constants example_fieldnames
              (example_token_ok _) eq_refl (example_header_ok _) (example_frozen _))
    as (r2 & logData & Hrun & Hlog & Ht).
  - vm_compute. reflexivity.
  - exists r2, logData. split; [exact Hrun|]. split; [exact Hlog|].
    rewrite Ht. vm_compute. reflexivity.
Defined.

Lemma writeLog_getLog_read_only_witness :
  exists r2 logData,
    example_run = (SUCCESS, r2) /\
    (forall fileOpens, snd (fst (writeLog fileOpens r2)) = r2) /\
    getLog (env := example_env 200) r2 = Some (SUCCESS, logData, r2).
Proof.
  destruct (writeLog_getLog_read_only (env := example_env 200)
              (example_data 0 0) (1 # 1000)
              example_snapshots example_fresh example_constants example_fieldnames
              (example_token_ok _) eq_refl (example_header_ok _) (example_frozen _))
    as (r2 & logData & Hrun & Hwrite & _ & Hlog & _).
  exists r2, logData. split; [exact Hrun|]. split; [exact Hwrite|exact Hlog].
Defined.

Lemma chunks_aligned_witness :
  exists r2,
    example_run = (SUCCESS, r2) /\
    flows_aligned (headerSize_ r2) 40 (flows_ r2).
Proof.
  destruct (chunks_aligned (env := example_env 200) (example_data 0 0) (1 # 1000)
              example_snapshots example_fresh eq_refl (example_frozen _))
    as (r2 & Hrun & Halign & _).
  exists r2. split; [exact Hrun|exact Halign].
Defined.

(** With chunks of 32 bytes and data lines of 40 bytes, [initialize] and
    three calls of [flushDataSnapshot] all report [SUCCESS], and [getLog]
    then returns no line at all. *)
Example flushDataSnapshot_loses_lines :
  fst example_run_small = SUCCESS /\
  option_map (fun out => (fst (fst out), timestamps (snd (fst out)),
                          intData (snd (fst out)), floatData (snd (fst out))))
    (getLog (env := example_env 32) (snd example_run_small))
  = Some (SUCCESS, [], [], []).
Proof. vm_compute. split; reflexivity. Qed.

Lemma flushDataSnapshot_full_not_rolled_witness :
  exists r2,
    example_run_small = (SUCCESS, r2) /\
    lastFull (flows_ r2) /\
    flows_ (snd (flushDataSnapshot (env := example_env 32)
                   (example_data 4 40) (4 # 10) r2)) = flows_ r2.
Proof.
  destruct (flushDataSnapshot_full_not_rolled (env := example_env 32)
              (example_data 0 0) (1 # 1000) example_snapshots example_fresh
              eq_refl (example_frozen _))
    as (r2 & Hrun & Hfull & Hflush).
  - vm_compute. reflexivity.
  - vm_compute. lia.
  - exists r2. split; [exact Hrun|]. split; [exact Hfull|].
    apply Hflush.
Defined.

(** With chunks of 32 bytes and data lines of 40 bytes, after [initialize]
    and one call of [flushDataSnapshot] the last chunk has capacity zero,
    so it is full, and the next call of [flushDataSnapshot] reports
    [SUCCESS] without opening a chunk. *)
Example flushDataSnapshot_full_chunk_not_rolled :
  let r1 :=
    snd (record (env := example_env 32) (example_data 0 0) (1 # 1000)
           [(example_data 1 10, 1 # 10)] example_fresh) in
  let r2 := flushDataSnapshot (env := example_env 32) (example_data (-2) 20) (2 # 10) r1 in
  map (fun d => (MemoryDevice.size d, MemoryDevice.pos d)) (flows_ r1)
  = [(100, 100); (0, 0)] /\
  fst r2 = SUCCESS /\
  flows_ (snd r2) = flows_ r1 /\
  (recordedBytes_ r1, recordedBytesLimits_ r1) = (40, 0).
Proof. vm_compute. repeat split; reflexivity. Qed.

(** *** Further properties of the recorder *)

Section Coverage.

Context {env : Environment}.


(** The version flag is checked before anything else is read. *)
Lemma parseLogDataRaw_bad_version d others
    integerSectionSize floatSectionSize headerSize :
  0 <= integerSectionSize -> 0 <= floatSectionSize ->
  (4 <= List.length (MemoryDevice.buffer_ d))%nat ->
  int32_of (le_combine (firstn 4 (MemoryDevice.buffer_ d))) <> TELEMETRY_VERSION ->
  parseLogDataRaw (d :: others) integerSectionSize floatSectionSize headerSize
  = Some (ERROR_BAD_INPUT, logData_empty,
          MemoryDevice.mk (MemoryDevice.buffer_ d) 4 (MemoryDevice.isOpen_ d)
          :: others).
Proof.
  intros Hi Hf Hlen Hver. unfold parseLogDataRaw.
  replace (integerSectionSize <? 0) with false by (symmetry; apply Z.ltb_ge; lia).
  replace (floatSectionSize <? 0) with false by (symmetry; apply Z.ltb_ge; lia).
  cbn [orb parseFlows]. unfold parseFlow.
  destruct (MemoryDevice.seek_at d [] (MemoryDevice.buffer_ d) 0 eq_refl eq_refl)
    as (flow0 & Hs & Hc0 & Hb0 & Ho0).
  rewrite Hs. cbn [snd]. unfold readHeader.
  assert (Hc0' : MemoryDevice.cursor_at flow0 []
                   (firstn 4 (MemoryDevice.buffer_ d)
                    ++ skipn 4 (MemoryDevice.buffer_ d)))
    by (rewrite firstn_skipn; exact Hc0).
  destruct (MemoryDevice.readData_at _ _ _ _ 4 Hc0')
    as (flow1 & Hr1 & Hc1 & Hb1 & Ho1); [rewrite length_firstn; lia|].
  rewrite Hr1, length_firstn, Nat.min_l by lia. cbn [Nat.eqb negb].
  replace (int32_of (le_combine (firstn 4 (MemoryDevice.buffer_ d)))
           =? TELEMETRY_VERSION) with false
    by (symmetry; apply Z.eqb_neq; exact Hver).
  cbn [negb]. f_equal. f_equal. f_equal.
  destruct Hc1 as [_ Hp1]. cbn [app] in Hp1.
  rewrite length_firstn, Nat.min_l in Hp1 by lia.
  destruct flow1 as [b p o]. cbn in *. congruence.
Qed.

(** A log of another version.  When the first four bytes of the first flow
    do not hold [TELEMETRY_VERSION], [parseLogDataRaw] reports
    [ERROR_BAD_INPUT] with an empty [logData], and it returns before the
    cursor is put back: the first flow is left with its cursor after the
    version flag, at offset [4], whatever its position was; the other
    flows are not touched.  [getLog] hands this on, so the recorder it is
    called on is left with the cursor of its first chunk at offset [4]. *)
Theorem parseLogDataRaw_version_mismatch d others
    integerSectionSize floatSectionSize headerSize :
  0 <= integerSectionSize -> 0 <= floatSectionSize ->
  (4 <= List.length (MemoryDevice.buffer_ d))%nat ->
  int32_of (le_combine (firstn 4 (MemoryDevice.buffer_ d))) <> TELEMETRY_VERSION ->
  parseLogDataRaw (d :: others) integerSectionSize floatSectionSize headerSize
  = Some (ERROR_BAD_INPUT, logData_empty,
          MemoryDevice.mk (MemoryDevice.buffer_ d) 4 (MemoryDevice.isOpen_ d)
          :: others) /\
  forall r,
    flows_ r = d :: others ->
    integerSectionSize_ r = integerSectionSize ->
    floatSectionSize_ r = floatSectionSize ->
    exists r',
      getLog r = Some (ERROR_BAD_INPUT, logData_empty, r') /\
      flows_ r'
      = MemoryDevice.mk (MemoryDevice.buffer_ d) 4 (MemoryDevice.isOpen_ d)
        :: others.
Proof.
  intros Hi Hf Hlen Hver.
  split; [apply parseLogDataRaw_bad_version; assumption|].
  intros r Hfl His Hfs. unfold getLog. rewrite Hfl, His, Hfs.
  rewrite (parseLogDataRaw_bad_version d others _ _ (headerSize_ r) Hi Hf Hlen Hver).
  eexists. split; reflexivity.
Qed.





End Coverage.

(** *** Time quantization *)






Section Quantization.

Context {env : Environment}.


End Quantization.

(** *** Reading a log file back ([readLog]) *)

(** What a call can do besides returning: throw a C++ exception, or have
    undefined behaviour. *)
Inductive result (A : Type) : Type :=
| Returns (a : A)
| Throws
| UndefinedBehaviour.

Arguments Returns {A} a.
Arguments Throws {A}.
Arguments UndefinedBehaviour {A}.

(** [std::ifstream] on a file that is open: the bytes of the file, the get
    position, and whether [good()] holds. *)
Record ifstream : Type := mkStream {
  contents_ : list byte;
  position_ : nat;
  good_ : bool
}.

(** [file.seekg(pos)]. *)
Definition seekg (pos : nat) (file : ifstream) : ifstream :=
  if good_ file then mkStream (contents_ file) pos true else file.

(** [std::getline(file, str, '\0')]: on a stream that is good, the bytes
    up to the next NUL go to [str] and the NUL is dropped; if the file ends
    first, [str] gets what was left and the stream is no longer good.  On
    a stream that is not good nothing is read. *)
Definition getline (file : ifstream) (str : list byte) : ifstream * list byte :=
  if good_ file then
    let rest := skipn (position_ file) (contents_ file) in
    match c_str rest with
    | Some field =>
        (mkStream (contents_ file)
                  (position_ file + List.length field + 1) true, field)
    | None =>
        (mkStream (contents_ file) (List.length (contents_ file)) false, rest)
    end
  else (file, str).

(** [file.tellg()] on a stream that is good. *)
Definition tellg (file : ifstream) : Z := Z.of_nat (position_ file).

(** [while (std::getline(file, subHeaderBuffer, '\0').good() &&
    subHeaderBuffer != token) {}]; running out of [fuel] stands for a loop
    that does not end. *)
Fixpoint skipFields (fuel : nat) (token : list byte) (file : ifstream)
    (subHeaderBuffer : list byte) : option (ifstream * list byte) :=
  match fuel with
  | O => None
  | S fuel' =>
      let '(file', subHeaderBuffer') := getline file subHeaderBuffer in
      if good_ file' && negb (bytes_eqb subHeaderBuffer' token)
      then skipFields fuel' token file' subHeaderBuffer'
      else Some (file', subHeaderBuffer')
  end.

(** The same loop with [headerBuffer.push_back(subHeaderBuffer)] as its
    body. *)
Fixpoint readFields (fuel : nat) (token : list byte) (file : ifstream)
    (subHeaderBuffer : list byte) (headerBuffer : list (list byte))
    : option (ifstream * list byte * list (list byte)) :=
  match fuel with
  | O => None
  | S fuel' =>
      let '(file', subHeaderBuffer') := getline file subHeaderBuffer in
      if good_ file' && negb (bytes_eqb subHeaderBuffer' token)
      then readFields fuel' token file' subHeaderBuffer'
             (headerBuffer ++ [subHeaderBuffer'])
      else Some (file', subHeaderBuffer', headerBuffer)
  end.

(** [std::string::find(pat)] assigned to an [int64_t]: [-1] for [npos]. *)
Definition find (s pat : list byte) : Z :=
  let i := search_in s pat in
  if (i =? List.length s)%nat && negb (is_prefix pat []) then -1
  else Z.of_nat i.

(** [std::isspace] in the C locale. *)
Definition isspace (b : byte) : bool :=
  let n := Byte.to_N b in
  (N.eqb n 32 || (N.leb 9 n && N.leb n 13))%bool.

(** The value of a decimal digit. *)
Definition digit (b : byte) : option Z :=
  let n := Byte.to_N b in
  if (N.leb 48 n && N.leb n 57)%bool then Some (Z.of_N n - 48) else None.

Fixpoint skipSpaces (l : list byte) : list byte :=
  match l with
  | b :: r => if isspace b then skipSpaces r else l
  | [] => []
  end.

(** The digits at the start of [l], accumulated on [acc]; [None] when
    there was none. *)
Fixpoint digits (acc : option Z) (l : list byte) : option Z :=
  match l with
  | b :: r =>
      match digit b with
      | Some v => digits (Some (10 * match acc with Some a => a | None => 0 end + v)) r
      | None => acc
      end
  | [] => acc
  end.

(** [std::stoi(str)]: white space, an optional sign, decimal digits.  It
    throws [std::invalid_argument] without a digit and [std::out_of_range]
    for a value that is not an [int]. *)
Definition stoi (str : list byte) : result Z :=
  let l := skipSpaces str in
  let '(negative, l') :=
    match l with
    | b :: r =>
        if N.eqb (Byte.to_N b) 45 then (true, r)
        else if N.eqb (Byte.to_N b) 43 then (false, r)
        else (false, l)
    | [] => (false, l)
    end in
  match digits None l' with
  | None => Throws
  | Some v =>
      let value := if negative then - v else v in
      if (- 2 ^ 31 <=? value) && (value <? 2 ^ 31) then Returns value
      else Throws
  end.

Section ReadLog.

Context {env : Environment}.

(** [std::stoi(entry.substr(entry.find(TELEMETRY_CONSTANT_DELIMITER) + 1))];
    [substr] throws [std::out_of_range] for a start past the end. *)
Definition entryCount (entry : list byte) : result Z :=
  let delimiter := find entry TELEMETRY_CONSTANT_DELIMITER in
  let pos := Z.to_nat (delimiter + 1) in
  if (List.length entry <? pos)%nat then Throws
  else stoi (skipn pos entry).

(** The first half of [readLog], on a file that is open: the header is
    scanned for [integerSectionSize], [floatSectionSize] and [headerSize].
    [Returns None] is the return with [ERROR_BAD_INPUT] on a corrupted
    file; [headerBuffer[headerBuffer.size() - 2]] is undefined with fewer
    than two constants, and so is [NumIntEntries - 1] on the smallest
    [int]. *)
Definition scanHeader (contents : list byte) : result (option (Z * Z * Z)) :=
  let fuel := S (List.length contents) in
  (* Skip the version flag *)
  let file0 := seekg 4 (mkStream contents 0 true) in
  (* Reach the beginning of the constants *)
  match skipFields fuel START_CONSTANTS file0 [] with
  | None => UndefinedBehaviour
  | Some (file1, subHeaderBuffer1) =>
      (* Get all the logged constants *)
      match readFields fuel START_COLUMNS file1 subHeaderBuffer1 [] with
      | None => UndefinedBehaviour
      | Some (file2, subHeaderBuffer2, headerBuffer) =>
          (* Get the names of the logged variables *)
          match skipFields fuel START_DATA file2 subHeaderBuffer2 with
          | None => UndefinedBehaviour
          | Some (file3, _) =>
              (* Make sure the log file is not corrupted *)
              if negb (good_ file3) then Returns None
              else
                let size := List.length headerBuffer in
                if (size <? 2)%nat then UndefinedBehaviour
                else
                  match entryCount (nth (size - 2) headerBuffer []) with
                  | Throws => Throws
                  | UndefinedBehaviour => UndefinedBehaviour
                  | Returns NumIntEntries =>
                      match entryCount (nth (size - 1) headerBuffer []) with
                      | Throws => Throws
                      | UndefinedBehaviour => UndefinedBehaviour
                      | Returns NumFloatEntries =>
                          if NumIntEntries =? - 2 ^ 31 then UndefinedBehaviour
                          else
                            Returns
                              (Some (wrap64 ((NumIntEntries - 1) * 8),
                                     wrap64 (NumFloatEntries * 8),
                                     tellg file3))
                      end
                  end
          end
      end
  end.

(** The [FileDevice] that [readLog] opens read-only on the file.  The
    class is not at hand; it stands here as a device that holds the bytes
    of the file, with its cursor at the start. *)
Definition fileDevice (contents : list byte) : MemoryDevice.t :=
  MemoryDevice.mk contents 0 true.

(** [TelemetryRecorder::readLog(filename, logData)].  [file] is what is in
    the file, [None] for a file that does not open; [logData] comes in and
    goes out. *)
Definition readLog (file : option (list byte)) (logData : logData_t)
    : result (hresult_t * logData_t) :=
  match file with
  | None => Returns (ERROR_BAD_INPUT, logData)
  | Some contents =>
      match scanHeader contents with
      | Throws => Throws
      | UndefinedBehaviour => UndefinedBehaviour
      | Returns None => Returns (ERROR_BAD_INPUT, logData)
      | Returns (Some (integerSectionSize, floatSectionSize, headerSize)) =>
          match parseLogDataRaw [fileDevice contents]
                  integerSectionSize floatSectionSize headerSize with
          | None => UndefinedBehaviour
          | Some (returnCode, logData', _) => Returns (returnCode, logData')
          end
      end
  end.

(** **** The scan reads the header only *)

Definition extend (rest : list byte) (file : ifstream) : ifstream :=
  mkStream (contents_ file ++ rest) (position_ file) (good_ file).

Lemma c_str_app l rest field :
  c_str l = Some field -> c_str (l ++ rest) = Some field.
Proof.
  revert field. induction l as [|b l IH]; intros field; cbn [c_str app];
    [discriminate|].
  destruct (Byte.eqb b Byte.x00); [auto|].
  destruct (c_str l) as [f|]; cbn [option_map]; [|discriminate].
  intros [= <-]. rewrite (IH f eq_refl). reflexivity.
Qed.

Lemma c_str_length l field :
  c_str l = Some field -> (List.length field < List.length l)%nat.
Proof.
  revert field. induction l as [|b l IH]; intros field; cbn [c_str];
    [discriminate|].
  destruct (Byte.eqb b Byte.x00).
  - intros [= <-]. cbn. lia.
  - destruct (c_str l) as [f|]; cbn [option_map]; [|discriminate].
    intros [= <-]. specialize (IH f eq_refl). cbn [List.length]. lia.
Qed.

Lemma getline_good file str file' str' :
  getline file str = (file', str') -> good_ file' = true ->
  good_ file = true /\
  (position_ file < position_ file' <= List.length (contents_ file))%nat /\
  contents_ file' = contents_ file.
Proof.
  unfold getline. destruct (good_ file) eqn:Eg.
  - destruct (c_str _) as [field|] eqn:Ec.
    + intros [= <- <-] _. cbn [position_ contents_].
      split; [reflexivity|]. split; [|reflexivity].
      apply c_str_length in Ec. rewrite length_skipn in Ec. lia.
    + intros [= <- <-]. cbn. discriminate.
  - intros [= <- <-]. congruence.
Qed.

Lemma getline_extend rest file str file' str' :
  getline file str = (file', str') -> good_ file' = true ->
  getline (extend rest file) str = (extend rest file', str').
Proof.
  intros Hg Hgood. destruct (getline_good _ _ _ _ Hg Hgood) as (Eg & Hpos & _).
  revert Hg. unfold getline, extend. cbn [good_ position_ contents_].
  rewrite Eg.
  destruct (c_str (skipn (position_ file) (contents_ file))) as [field|] eqn:Ec.
  - intros [= <- <-]. cbn [good_ position_ contents_].
    rewrite skipn_app.
    replace (position_ file - List.length (contents_ file))%nat with 0%nat by lia.
    cbn [skipn]. rewrite (c_str_app _ _ _ Ec). reflexivity.
  - intros [= <- <-]. cbn in Hgood. discriminate.
Qed.

Lemma skipFields_extend rest token : forall fuel file str file' str',
  skipFields fuel token file str = Some (file', str') ->
  good_ file' = true ->
  forall fuel', (fuel <= fuel')%nat ->
    skipFields fuel' token (extend rest file) str = Some (extend rest file', str').
Proof.
  induction fuel as [|fuel IH]; intros file str file' str'; cbn [skipFields];
    [discriminate|].
  destruct (getline file str) as [file1 str1] eqn:Eg.
  intros Hrun Hgood [|fuel'] Hle; [lia|]. cbn [skipFields].
  destruct (good_ file1) eqn:Eg1.
  - rewrite (getline_extend rest _ _ _ _ Eg Eg1).
    change (good_ (extend rest file1)) with (good_ file1). rewrite Eg1.
    destruct (negb (bytes_eqb str1 token)); cbn [andb] in *.
    + apply (IH _ _ _ _ Hrun Hgood). lia.
    + injection Hrun as <- <-. reflexivity.
  - cbn [andb] in Hrun. injection Hrun as <- <-. congruence.
Qed.

Lemma readFields_extend rest token : forall fuel file str hb file' str' hb',
  readFields fuel token file str hb = Some (file', str', hb') ->
  good_ file' = true ->
  forall fuel', (fuel <= fuel')%nat ->
    readFields fuel' token (extend rest file) str hb
    = Some (extend rest file', str', hb').
Proof.
  induction fuel as [|fuel IH]; intros file str hb file' str' hb';
    cbn [readFields]; [discriminate|].
  destruct (getline file str) as [file1 str1] eqn:Eg.
  intros Hrun Hgood [|fuel'] Hle; [lia|]. cbn [readFields].
  destruct (good_ file1) eqn:Eg1.
  - rewrite (getline_extend rest _ _ _ _ Eg Eg1).
    change (good_ (extend rest file1)) with (good_ file1). rewrite Eg1.
    destruct (negb (bytes_eqb str1 token)); cbn [andb] in *.
    + apply (IH _ _ _ _ _ _ Hrun Hgood). lia.
    + injection Hrun as <- <- <-. reflexivity.
  - cbn [andb] in Hrun. injection Hrun as <- <- <-. congruence.
Qed.

(** A loop that ends on a stream that is good started on one. *)
Lemma skipFields_good token : forall fuel file str file' str',
  skipFields fuel token file str = Some (file', str') ->
  good_ file' = true -> good_ file = true.
Proof.
  induction fuel as [|fuel IH]; intros file str file' str'; cbn [skipFields];
    [discriminate|].
  destruct (getline file str) as [file1 str1] eqn:Eg.
  destruct (good_ file1) eqn:Eg1.
  - intros _ _. apply (getline_good _ _ _ _ Eg Eg1).
  - cbn [andb]. intros [= <- <-] H. congruence.
Qed.

Lemma readFields_good token : forall fuel file str hb file' str' hb',
  readFields fuel token file str hb = Some (file', str', hb') ->
  good_ file' = true -> good_ file = true.
Proof.
  induction fuel as [|fuel IH]; intros file str hb file' str' hb';
    cbn [readFields]; [discriminate|].
  destruct (getline file str) as [file1 str1] eqn:Eg.
  destruct (good_ file1) eqn:Eg1.
  - intros _ _. apply (getline_good _ _ _ _ Eg Eg1).
  - cbn [andb]. intros [= <- <- <-] H. congruence.
Qed.

(** A header that [scanHeader] reads is read the same way when data
    follows it. *)
Lemma scanHeader_extend hdr rest sizes :
  scanHeader hdr = Returns (Some sizes) ->
  scanHeader (hdr ++ rest) = Returns (Some sizes).
Proof.
  unfold scanHeader.
  change (seekg 4 (mkStream (hdr ++ rest) 0 true))
    with (extend rest (seekg 4 (mkStream hdr 0 true))).
  set (file0 := seekg 4 (mkStream hdr 0 true)).
  assert (Hfuel : (S (List.length hdr) <= S (List.length (hdr ++ rest)))%nat)
    by (rewrite length_app; lia).
  destruct (skipFields _ START_CONSTANTS file0 []) as [[file1 s1]|] eqn:E1;
    [|discriminate].
  destruct (readFields _ START_COLUMNS file1 s1 []) as [[[file2 s2] hb]|] eqn:E2;
    [|discriminate].
  destruct (skipFields _ START_DATA file2 s2) as [[file3 s3]|] eqn:E3;
    [|discriminate].
  destruct (good_ file3) eqn:Eg3; cbn [negb]; [|discriminate].
  pose proof (skipFields_good _ _ _ _ _ _ E3 Eg3) as Eg2.
  pose proof (readFields_good _ _ _ _ _ _ _ _ E2 Eg2) as Eg1.
  rewrite (skipFields_extend rest _ _ _ _ _ _ E1 Eg1 _ Hfuel).
  rewrite (readFields_extend rest _ _ _ _ _ _ _ _ E2 Eg2 _ Hfuel).
  rewrite (skipFields_extend rest _ _ _ _ _ _ E3 Eg3 _ Hfuel).
  change (good_ (extend rest file3)) with (good_ file3). rewrite Eg3.
  cbn [negb]. change (tellg (extend rest file3)) with (tellg file3).
  intros H. exact H.
Qed.

(** **** Parsing a flow whose cursor is anywhere *)

Lemma parseFlow_header_at numInt numFloat hdr cs fs lines free d :
  token_ok ->
  header_ok hdr cs fs ->
  MemoryDevice.buffer_ d
  = hdr ++ List.concat (map encode_line lines)
    ++ repeat Byte.x00 (free * lineSize numInt numFloat) ->
  Forall (line_ok numInt numFloat) lines ->
  0 <= MemoryDevice.pos d <= MemoryDevice.size d ->
  parseFlow (8 * Z.of_nat numInt) (8 * Z.of_nat numFloat)
    (Z.of_nat (List.length hdr)) false logData_empty d
  = Continue true (append_lines (header_log cs fs) lines) d.
Proof.
  intros Htok (Hlen & Hver & Hparse) Hb Hok Hpos. unfold parseFlow.
  destruct (MemoryDevice.seek_at d [] (MemoryDevice.buffer_ d) 0 eq_refl eq_refl)
    as (flow0 & Hs & Hc0 & Hb0 & Ho0).
  rewrite Hs. cbn [snd]. unfold readHeader.
  assert (Hc0' : MemoryDevice.cursor_at flow0 []
                   (firstn 4 hdr
                    ++ skipn 4 hdr ++ List.concat (map encode_line lines)
                    ++ repeat Byte.x00 (free * lineSize numInt numFloat))).
  { destruct Hc0 as [Hbuf0 Hpos0]. split; [|exact Hpos0].
    rewrite Hb0, Hb. cbn [app]. rewrite <- (firstn_skipn 4 hdr) at 1.
    rewrite <- !app_assoc. reflexivity. }
  destruct (MemoryDevice.readData_at _ _ _ _ 4 Hc0')
    as (flow1 & Hr1 & Hc1 & Hb1 & Ho1).
  { rewrite length_firstn. lia. }
  rewrite Hr1. rewrite length_firstn, Nat.min_l by lia.
  cbn [Nat.eqb negb]. rewrite Hver, Z.eqb_refl. cbn [negb].
  assert (Hpos1 : MemoryDevice.pos flow1 = 4).
  { destruct Hc1 as [_ Hp1]. unfold MemoryDevice.pos. rewrite Hp1.
    cbn [app]. rewrite length_firstn. lia. }
  rewrite Hpos1.
  replace (Z.of_nat (List.length hdr) - 4 <? 0) with false
    by (symmetry; apply Z.ltb_ge; lia).
  unfold MemoryDevice.read.
  destruct (MemoryDevice.readData_at _ _ _ _
              (Z.of_nat (List.length hdr) - 4) Hc1)
    as (flow2 & Hr2 & Hc2 & Hb2 & Ho2).
  { rewrite length_skipn. lia. }
  rewrite Hr2. rewrite length_skipn.
  replace (Z.to_nat (Z.of_nat (List.length hdr) - 4) - (List.length hdr - 4))%nat
    with 0%nat by lia.
  cbn [repeat]. rewrite app_nil_r, Hparse.
  cbn [app] in Hc2. rewrite firstn_skipn in Hc2.
  change (append_lines (header_log cs fs) lines)
    with (append_lines
            (with_timeUnit
               (mkLog TELEMETRY_VERSION cs fs (timeUnit logData_empty)
                      (timestamps logData_empty) (intData logData_empty)
                      (floatData logData_empty))) lines).
  apply (readFlowData_chunk numInt numFloat lines free hdr); try assumption;
    congruence.
Qed.

Lemma chunks_repr_stored_ok numInt numFloat chunks flows :
  chunks_repr numInt numFloat chunks flows ->
  Forall (line_ok numInt numFloat) (stored chunks).
Proof.
  induction 1 as [|c d chunks flows [_ Hc] _ IH]; [constructor|].
  unfold stored. cbn [map List.concat]. apply Forall_app. split; assumption.
Qed.

Lemma flows_repr_stored_ok numInt numFloat hdr chunks flows :
  flows_repr numInt numFloat hdr chunks flows ->
  Forall (line_ok numInt numFloat) (stored chunks).
Proof.
  destruct chunks as [|c chunks], flows as [|d flows]; try contradiction.
  intros [[_ Hc] Hcs]. unfold stored. cbn [map List.concat].
  apply Forall_app. split; [exact Hc|].
  apply (chunks_repr_stored_ok _ _ _ _ Hcs).
Qed.

(** Parsing the file that holds a header and lines. *)
Lemma parseLogDataRaw_file numInt numFloat hdr cs fs lines :
  token_ok ->
  header_ok hdr cs fs ->
  Forall (line_ok numInt numFloat) lines ->
  parseLogDataRaw [fileDevice (hdr ++ List.concat (map encode_line lines))]
    (8 * Z.of_nat numInt) (8 * Z.of_nat numFloat) (Z.of_nat (List.length hdr))
  = Some (SUCCESS, append_lines (header_log cs fs) lines,
          [fileDevice (hdr ++ List.concat (map encode_line lines))]).
Proof.
  intros Htok Hhdr Hok. unfold parseLogDataRaw.
  replace (8 * Z.of_nat numInt <? 0) with false by (symmetry; apply Z.ltb_ge; lia).
  replace (8 * Z.of_nat numFloat <? 0) with false by (symmetry; apply Z.ltb_ge; lia).
  cbn [orb parseFlows].
  rewrite (parseFlow_header_at numInt numFloat hdr cs fs lines 0 _ Htok Hhdr).
  - reflexivity.
  - cbn [fileDevice MemoryDevice.buffer_ Nat.mul repeat].
    rewrite app_nil_r. reflexivity.
  - exact Hok.
  - unfold MemoryDevice.pos, MemoryDevice.size. cbn. lia.
Qed.

(** Round trip through a file.  After [initialize] and any run of
    [flushDataSnapshot] calls, with a header that both parsers read (the
    one of [parseLogDataRaw], and the scan of [readLog], which finds in it
    the sizes of the two sections and ends where the header ends),
    [readLog] on the file that [writeLog] wrote returns [SUCCESS] and the
    same [logData] as [getLog] on the recorder: version, constants, field
    names, time unit, and every column. *)
Theorem readLog_writeLog_roundtrip
    telemetryData timeUnit snapshots r cs fs logData0 :
  token_ok ->
  isInitialized_ r = false ->
  header_ok (headerAtInit telemetryData timeUnit) cs fs ->
  frozen telemetryData timeUnit snapshots ->
  scanHeader (headerAtInit telemetryData timeUnit)
  = Returns
      (Some (8 * Z.of_nat (List.length (TelemetryData.integersRegistry_
                                          (dataAtInit telemetryData timeUnit))),
             8 * Z.of_nat (List.length (TelemetryData.floatsRegistry_
                                          (dataAtInit telemetryData timeUnit))),
             Z.of_nat (List.length (headerAtInit telemetryData timeUnit)))) ->
  exists r2 file logData,
    record telemetryData timeUnit snapshots r = (SUCCESS, r2) /\
    writeLog true r2 = (SUCCESS, r2, file) /\
    getLog r2 = Some (SUCCESS, logData, r2) /\
    readLog (Some file) logData0 = Returns (SUCCESS, logData).
Proof.
  intros Htok Hinit Hhdr Hfrozen Hscan.
  destruct (record_inv telemetryData timeUnit snapshots r Hinit Hfrozen)
    as (r2 & chunks & Hrun & Hinv & _ & _ & _).
  exists r2. eexists. eexists.
  split; [exact Hrun|].
  split; [apply (writeLog_inv _ _ _ _ _ true Hinv)|].
  split; [apply (getLog_inv _ _ _ _ _ _ _ Htok Hhdr Hinv)|].
  unfold readLog. rewrite (scanHeader_extend _ _ _ Hscan).
  destruct Hinv as (Hrepr & _).
  rewrite (parseLogDataRaw_file _ _ _ _ _ _ Htok Hhdr
             (flows_repr_stored_ok _ _ _ _ _ Hrepr)).
  reflexivity.
Qed.

(** **** Files that are not logs *)

Lemma getline_contents file str :
  contents_ (fst (getline file str)) = contents_ file.
Proof.
  unfold getline. destruct (good_ file); [|reflexivity].
  destruct (c_str _); reflexivity.
Qed.

Lemma c_str_split l field :
  c_str l = Some field -> exists post, l = field ++ [Byte.x00] ++ post.
Proof.
  revert field. induction l as [|b l IH]; intros field; cbn [c_str];
    [discriminate|].
  destruct (Byte.eqb b Byte.x00) eqn:Eb.
  - intros [= <-]. apply Byte.byte_dec_bl in Eb. subst b. exists l. reflexivity.
  - destruct (c_str l) as [f|]; cbn [option_map]; [|discriminate].
    intros [= <-]. destruct (IH f eq_refl) as (post & ->).
    exists post. reflexivity.
Qed.

(** A field that [getline] reads on a stream that stays good stands in the
    file, followed by its NUL. *)
Lemma getline_field file str file' str' :
  getline file str = (file', str') -> good_ file' = true ->
  exists pre post, contents_ file = pre ++ str' ++ [Byte.x00] ++ post.
Proof.
  unfold getline. destruct (good_ file) eqn:Eg;
    [|intros [= <- <-] H; congruence].
  destruct (c_str (skipn (position_ file) (contents_ file))) as [field|] eqn:Ec.
  - intros [= <- <-] _. destruct (c_str_split _ _ Ec) as (post & Hpost).
    exists (firstn (position_ file) (contents_ file)), post.
    rewrite <- Hpost. symmetry. apply firstn_skipn.
  - intros [= <- <-]. cbn. discriminate.
Qed.

Lemma skipFields_found token : forall fuel file str file' str',
  skipFields fuel token file str = Some (file', str') ->
  contents_ file' = contents_ file /\
  (good_ file' = true ->
   exists pre post, contents_ file = pre ++ token ++ [Byte.x00] ++ post).
Proof.
  induction fuel as [|fuel IH]; intros file str file' str'; cbn [skipFields];
    [discriminate|].
  pose proof (getline_contents file str) as Hc.
  destruct (getline file str) as [file1 str1] eqn:Eg. cbn [fst] in Hc.
  destruct (good_ file1) eqn:Eg1; cbn [andb].
  - destruct (bytes_eqb str1 token) eqn:Eb; cbn [negb].
    + intros [= <- <-]. split; [exact Hc|]. intros _.
      apply bytes_eqb_eq in Eb. subst str1.
      apply (getline_field _ _ _ _ Eg Eg1).
    + intros Hrun. destruct (IH _ _ _ _ Hrun) as (Hc' & Hfound).
      rewrite Hc in Hc', Hfound. auto.
  - intros [= <- <-]. split; [exact Hc|]. congruence.
Qed.

Lemma readFields_contents token : forall fuel file str hb file' str' hb',
  readFields fuel token file str hb = Some (file', str', hb') ->
  contents_ file' = contents_ file.
Proof.
  induction fuel as [|fuel IH]; intros file str hb file' str' hb';
    cbn [readFields]; [discriminate|].
  pose proof (getline_contents file str) as Hc.
  destruct (getline file str) as [file1 str1] eqn:Eg. cbn [fst] in Hc.
  destruct (good_ file1 && negb (bytes_eqb str1 token)).
  - intros Hrun. rewrite (IH _ _ _ _ _ _ Hrun). exact Hc.
  - intros [= <- <- <-]. exact Hc.
Qed.

(** The loops end: each turn reads at least the NUL of a field. *)
Lemma getline_progress file str file' str' :
  getline file str = (file', str') -> good_ file' = true ->
  (List.length (contents_ file') - position_ file'
   < List.length (contents_ file) - position_ file)%nat.
Proof.
  intros Hg Hgood. destruct (getline_good _ _ _ _ Hg Hgood) as (_ & Hpos & ->).
  lia.
Qed.

Lemma skipFields_ends token : forall fuel file str,
  (List.length (contents_ file) - position_ file < fuel)%nat ->
  exists out, skipFields fuel token file str = Some out.
Proof.
  induction fuel as [|fuel IH]; intros file str Hfuel; [lia|].
  cbn [skipFields]. destruct (getline file str) as [file1 str1] eqn:Eg.
  destruct (good_ file1) eqn:Eg1; cbn [andb]; [|eauto].
  destruct (negb (bytes_eqb str1 token)); [|eauto].
  apply IH. pose proof (getline_progress _ _ _ _ Eg Eg1). lia.
Qed.

Lemma readFields_ends token : forall fuel file str hb,
  (List.length (contents_ file) - position_ file < fuel)%nat ->
  exists out, readFields fuel token file str hb = Some out.
Proof.
  induction fuel as [|fuel IH]; intros file str hb Hfuel; [lia|].
  cbn [readFields]. destruct (getline file str) as [file1 str1] eqn:Eg.
  destruct (good_ file1) eqn:Eg1; cbn [andb]; [|eauto].
  destruct (negb (bytes_eqb str1 token)); [|eauto].
  apply IH. pose proof (getline_progress _ _ _ _ Eg Eg1). lia.
Qed.

(** A file that is not a log is refused.  [readLog] returns
    [ERROR_BAD_INPUT], with [logData] as it came, for a file that does not
    open and for every file in which [START_DATA] followed by a NUL does not
    occur: an empty file, a file cut inside its header, a file of another
    kind.  On such files the scan neither throws nor has undefined
    behaviour, and its loops end. *)
Theorem readLog_corrupted (file : option (list byte)) (logData : logData_t) :
  (forall contents pre post,
      file = Some contents ->
      contents <> pre ++ START_DATA ++ [Byte.x00] ++ post) ->
  readLog file logData = Returns (ERROR_BAD_INPUT, logData).
Proof.
  intros Hnot. destruct file as [contents|]; [|reflexivity].
  unfold readLog, scanHeader.
  set (file0 := seekg 4 (mkStream contents 0 true)).
  assert (Hc0 : contents_ file0 = contents) by reflexivity.
  destruct (skipFields_ends START_CONSTANTS (S (List.length contents)) file0 [])
    as ([file1 s1] & E1); [rewrite Hc0; lia|].
  rewrite E1. destruct (skipFields_found _ _ _ _ _ _ E1) as (Hc1 & _).
  destruct (readFields_ends START_COLUMNS (S (List.length contents)) file1 s1 [])
    as ([[file2 s2] hb] & E2); [rewrite Hc1, Hc0; lia|].
  rewrite E2. pose proof (readFields_contents _ _ _ _ _ _ _ _ E2) as Hc2.
  destruct (skipFields_ends START_DATA (S (List.length contents)) file2 s2)
    as ([file3 s3] & E3); [rewrite Hc2, Hc1, Hc0; lia|].
  rewrite E3. destruct (skipFields_found _ _ _ _ _ _ E3) as (_ & Hfound).
  destruct (good_ file3); [|reflexivity].
  destruct (Hfound eq_refl) as (pre & post & Hocc).
  rewrite Hc2, Hc1, Hc0 in Hocc.
  contradiction (Hnot contents pre post eq_refl Hocc).
Qed.

(** The scan of a file that it accepts has read past the version flag. *)
Lemma scanHeader_length contents sizes :
  scanHeader contents = Returns (Some sizes) -> (4 < List.length contents)%nat.
Proof.
  unfold scanHeader.
  set (file0 := seekg 4 (mkStream contents 0 true)).
  destruct (skipFields _ START_CONSTANTS file0 []) as [[file1 s1]|] eqn:E1;
    [|discriminate].
  destruct (readFields _ START_COLUMNS file1 s1 []) as [[[file2 s2] hb]|] eqn:E2;
    [|discriminate].
  destruct (skipFields _ START_DATA file2 s2) as [[file3 s3]|] eqn:E3;
    [|discriminate].
  destruct (good_ file3) eqn:Eg3; cbn [negb]; [|discriminate].
  intros _.
  pose proof (skipFields_good _ _ _ _ _ _ E3 Eg3) as Eg2.
  pose proof (readFields_good _ _ _ _ _ _ _ _ E2 Eg2) as Eg1.
  clear E2 E3. revert E1.
  destruct (List.length contents) as [|n] eqn:En.
  - cbn [skipFields]. unfold getline, file0, seekg. cbn [good_ position_ contents_].
    destruct contents; [|discriminate En]. cbn [skipn c_str andb].
    intros [= <- <-]. discriminate Eg1.
  - cbn [skipFields]. destruct (getline file0 []) as [f s] eqn:Eg.
    destruct (good_ f) eqn:Egf.
    + intros _. destruct (getline_good _ _ _ _ Eg Egf) as (_ & Hpos & _).
      cbn in Hpos. lia.
    + cbn [andb]. intros [= <- <-]. congruence.
Qed.

(** A log file of another version.  For a file whose header the scan of
    [readLog] accepts, with section sizes that are not negative, and whose
    first four bytes do not hold [TELEMETRY_VERSION], [readLog] returns
    [ERROR_BAD_INPUT]; [logData] has been emptied by then. *)
Theorem readLog_version_mismatch contents logData
    integerSectionSize floatSectionSize headerSize :
  scanHeader contents
  = Returns (Some (integerSectionSize, floatSectionSize, headerSize)) ->
  0 <= integerSectionSize -> 0 <= floatSectionSize ->
  int32_of (le_combine (firstn 4 contents)) <> TELEMETRY_VERSION ->
  readLog (Some contents) logData = Returns (ERROR_BAD_INPUT, logData_empty).
Proof.
  intros Hscan Hi Hf Hver. pose proof (scanHeader_length _ _ Hscan) as Hlen.
  unfold readLog. rewrite Hscan.
  rewrite (parseLogDataRaw_bad_version (fileDevice contents) [] _ _ _ Hi Hf);
    [reflexivity|cbn; lia|exact Hver].
Qed.

End ReadLog.

(** *** The small recorder, with the entry counts in its header *)

(** A header as both parsers read it: the version, three constants, of
    which the last two are the numbers of integer entries (the time
    included) and of float entries, the time column and two variables. *)
Definition example_header_counts (version : Z) : list byte :=
  le_split 4 version
  ++ bytes_of "START_CONSTANTS" ++ [Byte.x00]
  ++ bytes_of "START_LINE_TOKEN" ++ bytes_of "Global.Time.Unit=1e-03" ++ [Byte.x00]
  ++ bytes_of "START_LINE_TOKEN" ++ bytes_of "NumIntEntries=2" ++ [Byte.x00]
  ++ bytes_of "START_LINE_TOKEN" ++ bytes_of "NumFloatEntries=1" ++ [Byte.x00]
  ++ bytes_of "START_COLUMNS" ++ [Byte.x00]
  ++ bytes_of "Global.Time" ++ [Byte.x00]
  ++ bytes_of "a" ++ [Byte.x00]
  ++ bytes_of "x" ++ [Byte.x00]
  ++ bytes_of "START_DATA" ++ [Byte.x00].

Definition example_env_counts (minBufferSize : Z) : Environment := {|
  TELEMETRY_MIN_BUFFER_SIZE := minBufferSize;
  TELEMETRY_VERSION := 1;
  START_CONSTANTS := bytes_of "START_CONSTANTS";
  START_COLUMNS := bytes_of "START_COLUMNS";
  START_LINE_TOKEN := bytes_of "START_LINE_TOKEN";
  START_DATA := bytes_of "START_DATA";
  TELEMETRY_CONSTANT_DELIMITER := bytes_of "=";
  TIME_UNIT := "Global.Time.Unit";
  STEPPER_MIN_TIMESTEP := 1 # 1000000;
  registerConstant := fun name value d =>
    (SUCCESS,
     TelemetryData.mk (TelemetryData.constantsRegistry_ d ++ [(name, value)])
       (TelemetryData.integersRegistry_ d) (TelemetryData.floatsRegistry_ d)
       (TelemetryData.isRegisteringAvailable_ d));
  formatHeader := fun d =>
    (example_header_counts 1,
     TelemetryData.mk (TelemetryData.constantsRegistry_ d)
       (TelemetryData.integersRegistry_ d) (TelemetryData.floatsRegistry_ d)
       false);
  formatTimeUnit := fun _ => "1e-03"%string;
  readFloat64 := fun _ => 1 # 1000
|}.

Definition example_constants_counts : list (list byte * list byte) :=
  [(bytes_of "Global.Time.Unit", bytes_of "1e-03");
   (bytes_of "NumIntEntries", bytes_of "2");
   (bytes_of "NumFloatEntries", bytes_of "1")].

Lemma example_header_counts_ok minBufferSize :
  header_ok (env := example_env_counts minBufferSize)
    (headerAtInit (env := example_env_counts minBufferSize)
       (example_data 0 0) (1 # 1000))
    example_constants_counts example_fieldnames.
Proof.
  split; [|split].
  - apply Nat.leb_le. vm_compute. reflexivity.
  - vm_compute. reflexivity.
  - vm_compute. reflexivity.
Qed.


(** A chunk that starts with the version flag [2]. *)
Definition example_chunk_v2 : MemoryDevice.t :=
  MemoryDevice.mk (example_header_counts 2) 166 true.

Lemma parseLogDataRaw_version_mismatch_witness :
  parseLogDataRaw (env := example_env_counts 200) [example_chunk_v2] 8 8 166
  = Some (ERROR_BAD_INPUT, logData_empty,
          [MemoryDevice.mk (example_header_counts 2) 4 true]).
Proof.
  refine (proj1 (parseLogDataRaw_version_mismatch (env := example_env_counts 200)
                   example_chunk_v2 [] 8 8 166 _ _ _ _)).
  - lia.
  - lia.
  - apply Nat.leb_le. vm_compute. reflexivity.
  - vm_compute. discriminate.
Defined.



Lemma readLog_writeLog_roundtrip_witness :
  exists r2 file logData,
    record (env := example_env_counts 200) (example_data 0 0) (1 # 1000)
      example_snapshots example_fresh = (SUCCESS, r2) /\
    writeLog true r2 = (SUCCESS, r2, file) /\
    getLog (env := example_env_counts 200) r2 = Some (SUCCESS, logData, r2) /\
    readLog (env := example_env_counts 200) (Some file) logData_empty
    = Returns (SUCCESS, logData).
Proof.
  apply (readLog_writeLog_roundtrip (env := example_env_counts 200)
           (example_data 0 0) (1 # 1000) example_snapshots example_fresh
           example_constants_counts example_fieldnames logData_empty).
  - unfold token_ok. cbn. discriminate.
  - reflexivity.
  - apply example_header_counts_ok.
  - repeat constructor.
  - vm_compute. reflexivity.
Defined.

Lemma readLog_corrupted_witness :
  readLog (env := example_env_counts 200) (Some []) logData_empty
  = Returns (ERROR_BAD_INPUT, logData_empty).
Proof.
  apply (readLog_corrupted (env := example_env_counts 200) (Some []) logData_empty).
  intros contents pre post [= <-] H. symmetry in H.
  apply app_eq_nil in H. destruct H as [_ H].
  apply app_eq_nil in H. destruct H as [_ H]. discriminate H.
Defined.

Lemma readLog_version_mismatch_witness :
  readLog (env := example_env_counts 200) (Some (example_header_counts 2))
    logData_empty
  = Returns (ERROR_BAD_INPUT, logData_empty).
Proof.
  apply (readLog_version_mismatch (env := example_env_counts 200)
           (example_header_counts 2) logData_empty 8 8 166).
  - vm_compute. reflexivity.
  - lia.
  - lia.
  - vm_compute. discriminate.
Defined.

(** *** The header that [readLog] scans *)

(** No NUL byte in a field. *)
Definition nul_free (field : list byte) : Prop := ~ In Byte.x00 field.

(** Fields in a row, each closed by a NUL. *)
Definition fields (l : list (list byte)) : list byte :=
  List.concat (map (fun field => field ++ [Byte.x00]) l).

Section HeaderLayout.

Context {env : Environment}.

(** A header as [readLog] scans it: the version flag, [START_CONSTANTS],
    the constants, [START_COLUMNS], the names of the variables and
    [START_DATA], every one of them closed by a NUL. *)
Definition headerLayout (versionFlag : list byte)
    (constantFields names : list (list byte)) : list byte :=
  versionFlag
  ++ (START_CONSTANTS ++ [Byte.x00]) ++ fields constantFields
  ++ (START_COLUMNS ++ [Byte.x00]) ++ fields names
  ++ (START_DATA ++ [Byte.x00]).

Lemma c_str_field field rest :
  nul_free field -> c_str (field ++ [Byte.x00] ++ rest) = Some field.
Proof.
  unfold nul_free. induction field as [|b field IH]; intros Hn.
  - reflexivity.
  - change ((b :: field) ++ [Byte.x00] ++ rest)
      with (b :: (field ++ [Byte.x00] ++ rest)).
    cbn [c_str]. destruct (Byte.eqb b Byte.x00) eqn:Eb.
    + apply Byte.byte_dec_bl in Eb. subst b. contradiction Hn. left. reflexivity.
    + rewrite IH; [reflexivity|]. intros Hin. apply Hn. right. exact Hin.
Qed.

(** The stream stands after [before], with [after] still to read. *)
Definition stream_at (file : ifstream) (before after : list byte) : Prop :=
  contents_ file = before ++ after /\ position_ file = List.length before /\
  good_ file = true.

Lemma getline_at file str before field rest :
  stream_at file before (field ++ [Byte.x00] ++ rest) ->
  nul_free field ->
  getline file str
  = (mkStream (contents_ file) (List.length (before ++ field ++ [Byte.x00])) true,
     field) /\
  stream_at
    (mkStream (contents_ file) (List.length (before ++ field ++ [Byte.x00])) true)
    (before ++ field ++ [Byte.x00]) rest.
Proof.
  intros (Hc & Hp & Hg) Hn. unfold getline. rewrite Hg, Hp, Hc.
  rewrite skipn_app, skipn_all, Nat.sub_diag. cbn [skipn].
  rewrite app_nil_l, (c_str_field _ _ Hn). split.
  - f_equal. f_equal. rewrite !length_app. cbn [List.length]. lia.
  - split; [|split; reflexivity]. cbn [contents_].
    rewrite <- !app_assoc. reflexivity.
Qed.

Lemma skipFields_layout token : forall fs fuel file str before rest,
  stream_at file before (fields fs ++ (token ++ [Byte.x00]) ++ rest) ->
  Forall nul_free fs -> Forall (fun f => f <> token) fs -> nul_free token ->
  (List.length fs < fuel)%nat ->
  let file' :=
    mkStream (contents_ file)
      (List.length (before ++ fields fs ++ token ++ [Byte.x00])) true in
  skipFields fuel token file str = Some (file', token) /\
  stream_at file' (before ++ fields fs ++ token ++ [Byte.x00]) rest.
Proof.
  induction fs as [|f fs IH]; intros fuel file str before rest Hat Hnf Hne Htok Hfuel.
  - destruct fuel as [|fuel]; [cbn in Hfuel; lia|]. cbn [skipFields].
    cbn [fields map List.concat app] in *.
    rewrite <- app_assoc in Hat.
    destruct (getline_at file str before token rest Hat Htok) as (Hg & Hat').
    rewrite Hg. cbn [good_]. rewrite bytes_eqb_refl. cbn [negb andb].
    split; [reflexivity|exact Hat'].
  - destruct fuel as [|fuel]; [cbn in Hfuel; lia|]. cbn [skipFields].
    inversion Hnf as [|? ? Hf Hnf']; subst.
    inversion Hne as [|? ? Hfne Hne']; subst.
    assert (Hat1 : stream_at file before
                     (f ++ [Byte.x00]
                      ++ (fields fs ++ (token ++ [Byte.x00]) ++ rest))).
    { destruct Hat as (Hc & Hp & Hg). split; [|split; assumption].
      rewrite Hc. unfold fields. cbn [map List.concat].
      rewrite <- !app_assoc. reflexivity. }
    destruct (getline_at file str before f _ Hat1 Hf) as (Hg & Hat').
    rewrite Hg. cbn [good_]. rewrite (bytes_eqb_neq _ _ Hfne). cbn [negb andb].
    destruct (IH fuel _ f _ rest Hat' Hnf' Hne' Htok) as (Hrun & Hat'');
      [cbn [List.length] in Hfuel; lia|].
    cbn [contents_] in Hrun, Hat''.
    assert (E : (before ++ f ++ [Byte.x00]) ++ fields fs ++ token ++ [Byte.x00]
                = before ++ fields (f :: fs) ++ token ++ [Byte.x00]).
    { unfold fields. cbn [map List.concat]. rewrite <- !app_assoc. reflexivity. }
    rewrite E in Hrun, Hat''. split; assumption.
Qed.

Lemma readFields_layout token : forall fs fuel file str hb before rest,
  stream_at file before (fields fs ++ (token ++ [Byte.x00]) ++ rest) ->
  Forall nul_free fs -> Forall (fun f => f <> token) fs -> nul_free token ->
  (List.length fs < fuel)%nat ->
  let file' :=
    mkStream (contents_ file)
      (List.length (before ++ fields fs ++ token ++ [Byte.x00])) true in
  readFields fuel token file str hb = Some (file', token, hb ++ fs) /\
  stream_at file' (before ++ fields fs ++ token ++ [Byte.x00]) rest.
Proof.
  induction fs as [|f fs IH]; intros fuel file str hb before rest Hat Hnf Hne Htok Hfuel.
  - destruct fuel as [|fuel]; [cbn in Hfuel; lia|]. cbn [readFields].
    cbn [fields map List.concat app] in *.
    rewrite <- app_assoc in Hat.
    destruct (getline_at file str before token rest Hat Htok) as (Hg & Hat').
    rewrite Hg. cbn [good_]. rewrite bytes_eqb_refl. cbn [negb andb].
    rewrite app_nil_r. split; [reflexivity|exact Hat'].
  - destruct fuel as [|fuel]; [cbn in Hfuel; lia|]. cbn [readFields].
    inversion Hnf as [|? ? Hf Hnf']; subst.
    inversion Hne as [|? ? Hfne Hne']; subst.
    assert (Hat1 : stream_at file before
                     (f ++ [Byte.x00]
                      ++ (fields fs ++ (token ++ [Byte.x00]) ++ rest))).
    { destruct Hat as (Hc & Hp & Hg). split; [|split; assumption].
      rewrite Hc. unfold fields. cbn [map List.concat].
      rewrite <- !app_assoc. reflexivity. }
    destruct (getline_at file str before f _ Hat1 Hf) as (Hg & Hat').
    rewrite Hg. cbn [good_]. rewrite (bytes_eqb_neq _ _ Hfne). cbn [negb andb].
    destruct (IH fuel _ f (hb ++ [f]) _ rest Hat' Hnf' Hne' Htok) as (Hrun & Hat'');
      [cbn [List.length] in Hfuel; lia|].
    cbn [contents_] in Hrun, Hat''.
    assert (E : (before ++ f ++ [Byte.x00]) ++ fields fs ++ token ++ [Byte.x00]
                = before ++ fields (f :: fs) ++ token ++ [Byte.x00]).
    { unfold fields. cbn [map List.concat]. rewrite <- !app_assoc. reflexivity. }
    rewrite E in Hrun, Hat''. rewrite <- app_assoc in Hrun.
    split; assumption.
Qed.

Lemma length_fields fs : (List.length fs <= List.length (fields fs))%nat.
Proof.
  induction fs as [|f fs IH]; [cbn; lia|].
  unfold fields in *. cbn [map List.concat]. rewrite !length_app.
  cbn [List.length]. lia.
Qed.

(** What the three loops of [readLog] leave on a file that starts with a
    header of this layout. *)
Definition layout_ok (versionFlag : list byte)
    (constantFields names : list (list byte)) : Prop :=
  List.length versionFlag = 4%nat /\
  nul_free START_CONSTANTS /\ nul_free START_COLUMNS /\ nul_free START_DATA /\
  Forall nul_free constantFields /\
  Forall (fun field => field <> START_COLUMNS) constantFields /\
  Forall nul_free names /\
  Forall (fun name => name <> START_DATA) names.

Lemma scanHeader_layout versionFlag constantFields names data :
  layout_ok versionFlag constantFields names ->
  let contents := headerLayout versionFlag constantFields names ++ data in
  let fuel := S (List.length contents) in
  let file0 := seekg 4 (mkStream contents 0 true) in
  exists file1 file2 file3,
    skipFields fuel START_CONSTANTS file0 [] = Some (file1, START_CONSTANTS) /\
    readFields fuel START_COLUMNS file1 START_CONSTANTS []
    = Some (file2, START_COLUMNS, constantFields) /\
    skipFields fuel START_DATA file2 START_COLUMNS = Some (file3, START_DATA) /\
    good_ file3 = true /\
    tellg file3
    = Z.of_nat (List.length (headerLayout versionFlag constantFields names)).
Proof.
  intros (Hv & Hsc & Hscol & Hsd & Hcn & Hcne & Hnn & Hnne) contents fuel file0.
  assert (Hat0 : stream_at file0 versionFlag
                   (fields [] ++ (START_CONSTANTS ++ [Byte.x00])
                    ++ (fields constantFields
                        ++ (START_COLUMNS ++ [Byte.x00])
                        ++ (fields names ++ (START_DATA ++ [Byte.x00]) ++ data)))).
  { split; [|split; [|reflexivity]].
    - subst file0 contents. cbn [seekg good_ contents_]. unfold headerLayout.
      cbn [fields map List.concat app]. rewrite <- !app_assoc. reflexivity.
    - subst file0. cbn. lia. }
  destruct (skipFields_layout START_CONSTANTS [] fuel file0 [] _ _ Hat0)
    as (E1 & Hat1); [constructor|constructor|exact Hsc|subst fuel; cbn; lia|].
  destruct (readFields_layout START_COLUMNS constantFields fuel _
              START_CONSTANTS [] _ _ Hat1)
    as (E2 & Hat2); [exact Hcn|exact Hcne|exact Hscol| |].
  { subst fuel. pose proof (length_fields constantFields).
    subst contents. unfold headerLayout. rewrite !length_app. lia. }
  destruct (skipFields_layout START_DATA names fuel _ START_COLUMNS _ _ Hat2)
    as (E3 & Hat3); [exact Hnn|exact Hnne|exact Hsd| |].
  { subst fuel. pose proof (length_fields names).
    subst contents. unfold headerLayout. rewrite !length_app. lia. }
  eexists _, _, _.
  split; [exact E1|]. split; [exact E2|]. split; [exact E3|].
  split; [reflexivity|].
  unfold tellg. cbn [position_]. f_equal. f_equal.
  unfold headerLayout. cbn [fields map List.concat app].
  rewrite <- !app_assoc. reflexivity.
Qed.

Lemma stoi_range str value : stoi str = Returns value -> - 2 ^ 31 <= value < 2 ^ 31.
Proof.
  unfold stoi.
  destruct (match skipSpaces str with
            | [] => (false, skipSpaces str)
            | b :: r =>
                if N.eqb (Byte.to_N b) 45 then (true, r)
                else if N.eqb (Byte.to_N b) 43 then (false, r)
                else (false, skipSpaces str)
            end) as [negative l'].
  destruct (digits None l') as [v|]; [|discriminate].
  destruct ((- 2 ^ 31 <=? (if negative then - v else v))
            && ((if negative then - v else v) <? 2 ^ 31)) eqn:E; [|discriminate].
  intros [= <-]. apply andb_prop in E. destruct E as [E1 E2].
  apply Z.leb_le in E1. apply Z.ltb_lt in E2. lia.
Qed.

Lemma entryCount_range entry value :
  entryCount entry = Returns value -> - 2 ^ 31 <= value < 2 ^ 31.
Proof.
  unfold entryCount.
  destruct (_ <? _)%nat; [discriminate|]. apply stoi_range.
Qed.

(** A header with fewer than two constants.  On a file that starts with a
    header of the layout that [readLog] scans, but with no constant or only
    one between [START_CONSTANTS] and [START_COLUMNS], the scan ends on a
    stream that is good and [readLog] then indexes [headerBuffer] at
    [headerBuffer.size() - 2], before its first element: the call has
    undefined behaviour, whatever follows the header. *)
Theorem readLog_too_few_constants versionFlag constantFields names data logData :
  layout_ok versionFlag constantFields names ->
  (List.length constantFields < 2)%nat ->
  readLog (Some (headerLayout versionFlag constantFields names ++ data)) logData
  = UndefinedBehaviour.
Proof.
  intros Hok Hfew.
  destruct (scanHeader_layout versionFlag constantFields names data Hok)
    as (file1 & file2 & file3 & E1 & E2 & E3 & Hg & _).
  unfold readLog, scanHeader. rewrite E1, E2, E3, Hg. cbn [negb].
  replace (List.length constantFields <? 2)%nat with true
    by (symmetry; apply Nat.ltb_lt; exact Hfew).
  reflexivity.
Qed.

(** What [readLog] takes from the header.  On a file that starts with a
    header of the layout, with at least two constants of which the last
    two hold, after the delimiter, the decimal numbers [NumIntEntries >= 1]
    and [NumFloatEntries >= 0], [readLog] parses the file with an integer
    section of [8 * (NumIntEntries - 1)] bytes (the time is not part of
    it), a float section of [8 * NumFloatEntries] bytes and the length of
    the header as [headerSize], and returns what [parseLogDataRaw] returns
    with these. *)
Theorem readLog_header_layout versionFlag constantFields names data logData
    NumIntEntries NumFloatEntries :
  layout_ok versionFlag constantFields names ->
  (2 <= List.length constantFields)%nat ->
  entryCount (nth (List.length constantFields - 2) constantFields [])
  = Returns NumIntEntries ->
  entryCount (nth (List.length constantFields - 1) constantFields [])
  = Returns NumFloatEntries ->
  1 <= NumIntEntries -> 0 <= NumFloatEntries ->
  let header := headerLayout versionFlag constantFields names in
  readLog (Some (header ++ data)) logData
  = match parseLogDataRaw [fileDevice (header ++ data)]
            (8 * (NumIntEntries - 1)) (8 * NumFloatEntries)
            (Z.of_nat (List.length header)) with
    | Some (returnCode, logData', _) => Returns (returnCode, logData')
    | None => UndefinedBehaviour
    end.
Proof.
  intros Hok Hmany Hi Hf Hi1 Hf0 header. subst header.
  destruct (scanHeader_layout versionFlag constantFields names data Hok)
    as (file1 & file2 & file3 & E1 & E2 & E3 & Hg & Htell).
  pose proof (entryCount_range _ _ Hi) as Hri.
  pose proof (entryCount_range _ _ Hf) as Hrf.
  unfold readLog, scanHeader. rewrite E1, E2, E3, Hg. cbn [negb].
  replace (List.length constantFields <? 2)%nat with false
    by (symmetry; apply Nat.ltb_ge; exact Hmany).
  rewrite Hi, Hf.
  replace (NumIntEntries =? - 2 ^ 31) with false by (symmetry; apply Z.eqb_neq; lia).
  rewrite Htell, !wrap64_small by lia.
  replace ((NumIntEntries - 1) * 8) with (8 * (NumIntEntries - 1)) by lia.
  replace (NumFloatEntries * 8) with (8 * NumFloatEntries) by lia.
  destruct (parseLogDataRaw _ _ _ _) as [[[rc ld] fl]|]; reflexivity.
Qed.

End HeaderLayout.

Ltac nul_free_bytes :=
  unfold nul_free; cbn;
  let H := fresh in
  intros H; repeat (destruct H as [H|H]; [discriminate H|]); exact H.

Lemma example_layout_ok (minBufferSize : Z) (constantFields : list (list byte)) :
  Forall nul_free constantFields ->
  Forall (fun field => field <> bytes_of "START_COLUMNS") constantFields ->
  layout_ok (env := example_env_counts minBufferSize) (le_split 4 1)
    constantFields example_fieldnames.
Proof.
  intros Hn Hne. split; [reflexivity|].
  split; [nul_free_bytes|]. split; [nul_free_bytes|]. split; [nul_free_bytes|].
  split; [exact Hn|]. split; [exact Hne|]. split.
  - repeat constructor; nul_free_bytes.
  - repeat constructor; cbn; discriminate.
Qed.

Lemma readLog_too_few_constants_witness :
  readLog (env := example_env_counts 200)
    (Some (headerLayout (env := example_env_counts 200) (le_split 4 1)
             [bytes_of "START_LINE_TOKENNumIntEntries=2"] example_fieldnames
           ++ []))
    logData_empty
  = UndefinedBehaviour.
Proof.
  apply (readLog_too_few_constants (env := example_env_counts 200)).
  - apply example_layout_ok.
    + repeat constructor. nul_free_bytes.
    + repeat constructor. cbn. discriminate.
  - cbn. lia.
Defined.

Lemma readLog_header_layout_witness :
  readLog (env := example_env_counts 200)
    (Some (headerLayout (env := example_env_counts 200) (le_split 4 1)
             [bytes_of "START_LINE_TOKENGlobal.Time.Unit=1e-03";
              bytes_of "START_LINE_TOKENNumIntEntries=2";
              bytes_of "START_LINE_TOKENNumFloatEntries=1"] example_fieldnames
           ++ []))
    logData_empty
  = Returns (SUCCESS,
             mkLog 1 example_constants_counts example_fieldnames (1 # 1000)
                   [] [] []).
Proof.
  rewrite (readLog_header_layout (env := example_env_counts 200) (le_split 4 1)
             [bytes_of "START_LINE_TOKENGlobal.Time.Unit=1e-03";
              bytes_of "START_LINE_TOKENNumIntEntries=2";
              bytes_of "START_LINE_TOKENNumFloatEntries=1"] example_fieldnames
             [] logData_empty 2 1).
  - vm_compute. reflexivity.
  - apply example_layout_ok.
    + repeat constructor; nul_free_bytes.
    + repeat constructor; cbn; discriminate.
  - cbn. lia.
  - vm_compute. reflexivity.
  - vm_compute. reflexivity.
  - lia.
  - lia.
Defined.

(** *** The size and the number of the chunks *)

Section Capacity.

Context {env : Environment}.

(** The lines a chunk has room for. *)
Definition capacity (c : list line * nat) : nat := (List.length (fst c) + snd c)%nat.

(** The first chunk has room for [n0] lines, the others for at most
    [perChunk]. *)
Definition capacities (n0 perChunk : nat) (chunks : list (list line * nat)) : Prop :=
  exists others,
    map capacity chunks = n0 :: others /\
    Forall (fun n => (n <= perChunk)%nat) others.

Lemma capacities_last n0 perChunk cs c c' :
  capacities n0 perChunk (cs ++ [c]) -> capacity c' = capacity c ->
  capacities n0 perChunk (cs ++ [c']).
Proof.
  intros (others & Hm & Hall) Hc. exists others. split; [|exact Hall].
  rewrite map_app in *. cbn [map] in *. rewrite Hc. exact Hm.
Qed.

Lemma capacities_snoc n0 perChunk chunks c :
  capacities n0 perChunk chunks -> (capacity c <= perChunk)%nat ->
  capacities n0 perChunk (chunks ++ [c]).
Proof.
  intros (others & Hm & Hall) Hc. exists (others ++ [capacity c]). split.
  - rewrite map_app, Hm. reflexivity.
  - apply Forall_app. split; [exact Hall|]. constructor; [exact Hc|constructor].
Qed.

Lemma flushAll_capacities numInt numFloat hdr n0 : forall snapshots r cs lines free,
  inv numInt numFloat hdr (cs ++ [(lines, free)]) r ->
  in_step r ->
  Forall (fun s =>
            List.length (TelemetryData.integersRegistry_ (fst s)) = numInt /\
            List.length (TelemetryData.floatsRegistry_ (fst s)) = numFloat)
         snapshots ->
  capacities n0 (linesPerChunk numInt numFloat) (cs ++ [(lines, free)]) ->
  exists r' chunks',
    flushAll snapshots r = (SUCCESS, r') /\
    inv numInt numFloat hdr chunks' r' /\
    capacities n0 (linesPerChunk numInt numFloat) chunks' /\
    (List.length chunks' <= List.length (cs ++ [(lines, free)])
                            + List.length snapshots)%nat.
Proof.
  induction snapshots as [|[data timestamp] rest IH];
    intros r cs lines free Hinv Hstep Hfrozen Hcap.
  - exists r, (cs ++ [(lines, free)]). cbn [flushAll].
    split; [reflexivity|]. split; [exact Hinv|]. split; [exact Hcap|]. lia.
  - inversion Hfrozen as [|s rest' [Hni Hnf] Hrest]; subst s rest'.
    cbn [fst] in Hni, Hnf. cbn [flushAll].
    pose proof (flushDataSnapshot_in_step _ _ _ _ _ _ _ data timestamp
                  Hinv Hstep Hni Hnf) as (Hrc & _ & _ & Hcase).
    destruct (flushDataSnapshot data timestamp r) as [rc r1]. cbn [fst snd] in *.
    subst rc. cbn [hresult_eqb].
    destruct free as [|free].
    + destruct Hcase as [_ Hcase].
      destruct (linesPerChunk numInt numFloat) as [|n] eqn:En.
      * destruct Hcase as [Hinv1 Hstuck1].
        destruct (flushAll_stuck _ _ _ _ rest r1 Hinv1 Hstuck1)
          as (r' & Hrun & Hi & _).
        exists r', ((cs ++ [(lines, 0%nat)]) ++ [([], 0%nat)]).
        split; [exact Hrun|]. split; [exact Hi|]. split.
        -- apply capacities_snoc; [exact Hcap|]. cbn. lia.
        -- rewrite !length_app. cbn [List.length]. lia.
      * destruct Hcase as [Hinv1 Hstep1].
        destruct (IH r1 _ _ _ Hinv1 Hstep1 Hrest)
          as (r' & chunks' & Hrun & Hi & Hc & Hl).
        { apply capacities_snoc; [exact Hcap|]. cbn. lia. }
        exists r', chunks'.
        split; [exact Hrun|]. split; [exact Hi|]. split; [exact Hc|].
        rewrite !length_app in *. cbn [List.length] in *. lia.
    + destruct Hcase as (Hinv1 & Hstep1 & _).
      destruct (IH r1 _ _ _ Hinv1 Hstep1 Hrest)
        as (r' & chunks' & Hrun & Hi & Hc & Hl).
      { apply (capacities_last _ _ _ (lines, S free)); [exact Hcap|].
        unfold capacity. cbn [fst snd]. rewrite length_app. cbn [List.length]. lia. }
      exists r', chunks'.
      split; [exact Hrun|]. split; [exact Hi|]. split; [exact Hc|].
      rewrite !length_app in *. cbn [List.length] in *. lia.
Qed.

Lemma chunk_repr_size numInt numFloat h lines free d :
  chunk_repr numInt numFloat h lines free d ->
  MemoryDevice.size d
  = Z.of_nat (List.length h)
    + Z.of_nat (capacity (lines, free)) * Z.of_nat (lineSize numInt numFloat).
Proof.
  intros Hc. destruct (chunk_repr_counters _ _ _ _ _ _ Hc) as [_ Hs].
  rewrite Hs. unfold capacity. cbn [fst snd]. lia.
Qed.

Lemma linesPerChunk_bytes numInt numFloat :
  Z.of_nat (linesPerChunk numInt numFloat) * Z.of_nat (lineSize numInt numFloat)
  <= Z.max TELEMETRY_MIN_BUFFER_SIZE 0.
Proof.
  pose proof (lineSize_pos numInt numFloat) as HL. unfold linesPerChunk.
  rewrite Z2Nat.id by (apply Z.div_pos; lia).
  rewrite Z.mul_comm. apply Z.mul_div_le. lia.
Qed.

(** No chunk is larger than the buffer size, and a call opens at most one.
    After [initialize] and any run of [flushDataSnapshot] calls, every chunk
    has a capacity of at most [max(TELEMETRY_MIN_BUFFER_SIZE, headerSize_)]
    bytes, every chunk after the first one of at most
    [TELEMETRY_MIN_BUFFER_SIZE] bytes (none, if that is negative), and
    there are at most as many chunks as calls of [flushDataSnapshot], plus
    the one of [initialize]. *)
Theorem chunks_bounded telemetryData timeUnit snapshots r :
  isInitialized_ r = false ->
  frozen telemetryData timeUnit snapshots ->
  exists r2,
    record telemetryData timeUnit snapshots r = (SUCCESS, r2) /\
    Forall (fun d => 0 <= MemoryDevice.size d
                     <= Z.max TELEMETRY_MIN_BUFFER_SIZE (headerSize_ r2))
           (flows_ r2) /\
    Forall (fun d => MemoryDevice.size d <= Z.max TELEMETRY_MIN_BUFFER_SIZE 0)
           (tl (flows_ r2)) /\
    (1 <= List.length (flows_ r2) <= 1 + List.length snapshots)%nat.
Proof.
  intros Hinit Hfrozen.
  destruct (initialize_inv telemetryData timeUnit r Hinit)
    as (r1 & Hrun1 & Hinv1 & Hstep1 & _).
  fold (dataAtInit telemetryData timeUnit) in Hrun1, Hinv1.
  fold (headerAtInit telemetryData timeUnit) in Hinv1.
  set (numInt := List.length (TelemetryData.integersRegistry_
                                (dataAtInit telemetryData timeUnit))) in *.
  set (numFloat := List.length (TelemetryData.floatsRegistry_
                                  (dataAtInit telemetryData timeUnit))) in *.
  set (hdr := headerAtInit telemetryData timeUnit) in *.
  set (n0 := Z.to_nat ((Z.max TELEMETRY_MIN_BUFFER_SIZE (Z.of_nat (List.length hdr))
                        - Z.of_nat (List.length hdr))
                       / Z.of_nat (lineSize numInt numFloat))) in *.
  unfold record. rewrite Hrun1. cbn [hresult_eqb].
  destruct (flushAll_capacities numInt numFloat hdr n0 snapshots r1 [] [] n0
              Hinv1 Hstep1 Hfrozen)
    as (r2 & chunks & Hrun2 & Hinv2 & (others & Hcaps & Hall) & Hlen).
  { exists []. split; [reflexivity|constructor]. }
  exists r2. split; [exact Hrun2|].
  destruct Hinv2 as (Hrepr & Hhs & _). rewrite Hhs.
  pose proof (lineSize_pos numInt numFloat) as HL.
  pose proof (linesPerChunk_bytes numInt numFloat) as Hper.
  destruct chunks as [|c0 chunks]; [contradiction|].
  destruct (flows_ r2) as [|d0 flows]; [contradiction|].
  destruct Hrepr as [Hc0 Hcs]. cbn [map] in Hcaps.
  assert (Hcap0 : capacity c0 = n0) by congruence.
  assert (Hall' : Forall (fun n => (n <= linesPerChunk numInt numFloat)%nat)
                    (map capacity chunks))
    by (replace (map capacity chunks) with others by congruence; exact Hall).
  clear others Hcaps Hall.
  assert (Hn0 : Z.of_nat n0 * Z.of_nat (lineSize numInt numFloat)
                <= Z.max TELEMETRY_MIN_BUFFER_SIZE (Z.of_nat (List.length hdr))
                   - Z.of_nat (List.length hdr)).
  { subst n0. rewrite Z2Nat.id by (apply Z.div_pos; lia).
    rewrite Z.mul_comm. apply Z.mul_div_le. lia. }
  assert (Hrest : Forall (fun d => 0 <= MemoryDevice.size d
                                   <= Z.max TELEMETRY_MIN_BUFFER_SIZE 0) flows).
  { clear Hlen. revert Hall'.
    induction Hcs as [|c d cs ds Hc _ IH]; intros Hall'; [constructor|].
    cbn [map] in Hall'. inversion Hall' as [|? ? Hn Hall'']; subst.
    constructor; [|apply (IH Hall'')].
    destruct c as [lines free]. cbn [fst snd] in Hc.
    rewrite (chunk_repr_size _ _ _ _ _ _ Hc). cbn [List.length].
    split; [lia|]. nia. }
  split; [|split].
  - constructor.
    + destruct c0 as [lines free]. cbn [fst snd] in Hc0.
      rewrite (chunk_repr_size _ _ _ _ _ _ Hc0), Hcap0. lia.
    + eapply Forall_impl; [|exact Hrest]. cbn beta. intros d Hd. lia.
  - cbn [tl]. eapply Forall_impl; [|exact Hrest]. cbn beta. intros d Hd. lia.
  - apply Forall2_length in Hcs. cbn [List.length app] in *. lia.
Qed.

End Capacity.

Lemma chunks_bounded_witness :
  exists r2,
    example_run = (SUCCESS, r2) /\
    Forall (fun d => 0 <= MemoryDevice.size d <= Z.max 200 (headerSize_ r2))
           (flows_ r2) /\
    (1 <= List.length (flows_ r2) <= 1 + 3)%nat.
Proof.
  destruct (chunks_bounded (env := example_env 200) (example_data 0 0) (1 # 1000)
              example_snapshots example_fresh eq_refl (example_frozen _))
    as (r2 & Hrun & Hsize & _ & Hlen).
  exists r2. split; [exact Hrun|]. split; [exact Hsize|exact Hlen].
Defined.

(** *** The header that [parseLogDataRaw] reads *)

Lemma is_prefix_app pat : forall a b,
  (List.length pat <= List.length a)%nat ->
  is_prefix pat (a ++ b) = is_prefix pat a.
Proof.
  induction pat as [|p pat IH]; intros a b Hlen; [reflexivity|].
  destruct a as [|x a]; [cbn in Hlen; lia|].
  cbn [app is_prefix]. rewrite IH by (cbn [List.length] in Hlen; lia).
  reflexivity.
Qed.

Lemma is_prefix_length pat : forall a,
  is_prefix pat a = true -> (List.length pat <= List.length a)%nat.
Proof.
  induction pat as [|p pat IH]; intros a; [cbn; lia|].
  destruct a as [|x a]; cbn [is_prefix]; [discriminate|].
  intros H. apply andb_prop in H. destruct H as [_ H].
  apply IH in H. cbn [List.length]. lia.
Qed.

Lemma is_prefix_refl_app pat b : is_prefix pat (pat ++ b) = true.
Proof.
  induction pat as [|p pat IH]; [reflexivity|].
  cbn [app is_prefix]. rewrite (Byte.byte_dec_lb eq_refl), IH. reflexivity.
Qed.

(** The first occurrence of a pattern stays the first one when bytes are
    appended, as soon as it lies within the bytes there were. *)
Lemma search_in_app pat : forall a b n,
  search_in a pat = n -> (n + List.length pat <= List.length a)%nat ->
  search_in (a ++ b) pat = n.
Proof.
  induction a as [|x a IH]; intros b n Hs Hlen.
  - cbn in Hs. destruct pat; [|cbn in Hlen; lia].
    destruct b; cbn; cbn in Hs; auto.
  - cbn [search_in] in Hs.
    destruct (is_prefix pat (x :: a)) eqn:Ep.
    + subst n. change ((x :: a) ++ b) with (x :: (a ++ b)).
      cbn [search_in]. change (x :: (a ++ b)) with ((x :: a) ++ b).
      rewrite is_prefix_app, Ep by (apply is_prefix_length, Ep). reflexivity.
    + destruct n as [|m]; [discriminate|]. injection Hs as Hs.
      change ((x :: a) ++ b) with (x :: (a ++ b)).
      cbn [search_in]. change (x :: (a ++ b)) with ((x :: a) ++ b).
      rewrite is_prefix_app, Ep by (cbn [List.length] in *; lia).
      f_equal. apply IH; [exact Hs|]. cbn [List.length] in Hlen. lia.
Qed.

Lemma search_in_le pat : forall a, (search_in a pat <= List.length a)%nat.
Proof.
  induction a as [|x a IH]; cbn [search_in].
  - destruct (is_prefix pat []); cbn; lia.
  - destruct (is_prefix pat (x :: a)); cbn [List.length]; lia.
Qed.

Lemma slice_all buf first :
  slice buf first (List.length buf) = skipn first buf.
Proof.
  unfold slice. apply firstn_all2. rewrite length_skipn. lia.
Qed.

Lemma slice_at pre a rest :
  slice (pre ++ a ++ rest) (List.length pre) (List.length pre + List.length a) = a.
Proof.
  unfold slice. rewrite skipn_app, skipn_all, Nat.sub_diag. cbn [skipn app].
  replace (List.length pre + List.length a - List.length pre)%nat
    with (List.length a) by lia.
  rewrite firstn_app, firstn_all, Nat.sub_diag. cbn [firstn].
  apply app_nil_r.
Qed.

Lemma search_all pre a pat n :
  search_in a pat = n ->
  search (pre ++ a) (List.length pre) (List.length (pre ++ a)) pat
  = (List.length pre + n)%nat.
Proof.
  intros Hs. unfold search. rewrite slice_all, skipn_app, skipn_all, Nat.sub_diag.
  cbn [skipn app]. rewrite Hs. reflexivity.
Qed.

Lemma search_within pre a rest pat :
  search (pre ++ a ++ rest) (List.length pre) (List.length pre + List.length a) pat
  = (List.length pre + search_in a pat)%nat.
Proof. unfold search. rewrite slice_at. reflexivity. Qed.

Section ParserLayout.

Context {env : Environment}.

(** A constant as it stands in the header after its [START_LINE_TOKEN]:
    key, delimiter, value, NUL. *)
Definition entry (c : list byte * list byte) : list byte :=
  fst c ++ TELEMETRY_CONSTANT_DELIMITER ++ snd c ++ [Byte.x00].

(** The field of a constant: the token, the key, the delimiter, the
    value. *)
Definition constantField (c : list byte * list byte) : list byte :=
  START_LINE_TOKEN ++ fst c ++ TELEMETRY_CONSTANT_DELIMITER ++ snd c.

(** What is left of the header from the key of a constant on: the
    constants [cs], each followed by the token of the next one, then the
    last constant [cl] and [tail]. *)
Fixpoint remaining (cs : list (list byte * list byte))
    (cl : list byte * list byte) (tail : list byte) : list byte :=
  match cs with
  | [] => entry cl ++ tail
  | c :: cs' => entry c ++ START_LINE_TOKEN ++ remaining cs' cl tail
  end.

(** The delimiter first occurs right after the key. *)
Definition key_ok (c : list byte * list byte) : Prop :=
  search_in (fst c ++ TELEMETRY_CONSTANT_DELIMITER) TELEMETRY_CONSTANT_DELIMITER
  = List.length (fst c).

(** The token first occurs right after the constant. *)
Definition entry_ok (c : list byte * list byte) : Prop :=
  search_in (entry c ++ START_LINE_TOKEN) START_LINE_TOKEN
  = List.length (entry c).

Lemma fields_constants cs cl tail :
  fields (map constantField (cs ++ [cl])) ++ tail
  = START_LINE_TOKEN ++ remaining cs cl tail.
Proof.
  induction cs as [|c cs IH].
  - cbn [app map remaining]. unfold fields, constantField, entry.
    cbn [map List.concat].
    rewrite app_nil_r, <- !app_assoc. reflexivity.
  - cbn [app map remaining]. unfold fields in *. cbn [map List.concat].
    rewrite <- app_assoc, IH. unfold constantField, entry.
    rewrite <- !app_assoc. reflexivity.
Qed.

Lemma entry_length c :
  List.length (entry c)
  = (List.length (fst c) + List.length TELEMETRY_CONSTANT_DELIMITER
     + List.length (snd c) + 1)%nat.
Proof. unfold entry. rewrite !length_app. cbn [List.length]. lia.  Qed.

(** The key and the value that one turn of the constants loop cuts out. *)
Lemma parseConstants_cut pre c rest :
  key_ok c ->
  let buffer := pre ++ entry c ++ rest in
  let posHeaderIt := List.length pre in
  let posHeaderNextIt := (List.length pre + List.length (entry c))%nat in
  let posDelimiterIt :=
    search buffer posHeaderIt posHeaderNextIt TELEMETRY_CONSTANT_DELIMITER in
  let valueFirst :=
    (posDelimiterIt + List.length TELEMETRY_CONSTANT_DELIMITER)%nat in
  ((posHeaderNextIt =? 0)%nat || (posHeaderNextIt - 1 <? valueFirst)%nat = false) /\
  slice buffer posHeaderIt posDelimiterIt = fst c /\
  slice buffer valueFirst (posHeaderNextIt - 1) = snd c.
Proof.
  intros Hkey buffer posHeaderIt posHeaderNextIt posDelimiterIt valueFirst.
  pose proof (entry_length c) as Hlen.
  assert (Hd : posDelimiterIt = (List.length pre + List.length (fst c))%nat).
  { subst posDelimiterIt buffer posHeaderIt posHeaderNextIt.
    rewrite search_within. f_equal. unfold entry.
    rewrite app_assoc. apply search_in_app; [exact Hkey|].
    rewrite length_app. lia. }
  subst valueFirst. rewrite Hd. subst posHeaderNextIt. split; [|split].
  - apply orb_false_intro; [apply Nat.eqb_neq; lia|apply Nat.ltb_ge; lia].
  - subst buffer posHeaderIt. unfold entry. rewrite <- !app_assoc.
    apply slice_at.
  - subst buffer.
    replace (List.length pre + List.length (entry c) - 1)%nat
      with (List.length (pre ++ fst c ++ TELEMETRY_CONSTANT_DELIMITER)
            + List.length (snd c))%nat
      by (rewrite !length_app; lia).
    unfold entry.
    replace (pre ++ (fst c ++ TELEMETRY_CONSTANT_DELIMITER ++ snd c ++ [Byte.x00])
             ++ rest)
      with ((pre ++ fst c ++ TELEMETRY_CONSTANT_DELIMITER)
            ++ snd c ++ ([Byte.x00] ++ rest))
      by (rewrite <- !app_assoc; reflexivity).
    replace (List.length pre + List.length (fst c)
             + List.length TELEMETRY_CONSTANT_DELIMITER)%nat
      with (List.length (pre ++ fst c ++ TELEMETRY_CONSTANT_DELIMITER))
      by (rewrite !length_app; lia).
    apply slice_at.
Qed.

Lemma entry_ok_token c : entry_ok c -> START_LINE_TOKEN <> [].
Proof.
  unfold entry_ok. intros H E. rewrite E in H.
  pose proof (entry_length c).
  destruct (entry c ++ []) as [|b l] eqn:El; cbn in H; lia.
Qed.

(** The constants loop on a header of the layout. *)
Lemma parseConstants_layout cl tail :
  key_ok cl ->
  search_in (entry cl ++ START_COLUMNS) START_COLUMNS = List.length (entry cl) ->
  (exists tail', tail = START_COLUMNS ++ tail') ->
  search_in (entry cl ++ tail) START_LINE_TOKEN = List.length (entry cl ++ tail) ->
  forall cs fuel pre constants,
    Forall key_ok cs -> Forall entry_ok cs ->
    (List.length cs < fuel)%nat ->
    parseConstants fuel (pre ++ remaining cs cl tail) (List.length pre) constants
    = Some (constants ++ cs ++ [cl],
            (List.length (pre ++ remaining cs cl tail) - List.length tail
             + List.length START_COLUMNS + 1)%nat).
Proof.
  intros Hkl Hcol (tail' & Htail) Hnotok.
  induction cs as [|c cs IH]; intros fuel pre constants Hk He Hfuel.
  - destruct fuel as [|fuel]; [cbn in Hfuel; lia|].
    cbn [remaining parseConstants].
    replace (List.length (pre ++ entry cl ++ tail) <? List.length pre)%nat
      with false by (symmetry; apply Nat.ltb_ge; rewrite length_app; lia).
    rewrite (search_all pre (entry cl ++ tail) START_LINE_TOKEN _ Hnotok).
    replace (List.length pre + List.length (entry cl ++ tail)
             =? List.length (pre ++ entry cl ++ tail))%nat with true
      by (symmetry; apply Nat.eqb_eq; rewrite !length_app; lia).
    assert (Hnext : search (pre ++ entry cl ++ tail) (List.length pre)
                      (List.length (pre ++ entry cl ++ tail)) START_COLUMNS
                    = (List.length pre + List.length (entry cl))%nat).
    { apply search_all. rewrite Htail, app_assoc.
      apply search_in_app; [exact Hcol|]. rewrite length_app. lia. }
    rewrite Hnext.
    destruct (parseConstants_cut pre cl tail Hkl) as (Hc & Hkey & Hval).
    cbv zeta in Hc, Hkey, Hval. rewrite Hc, Hkey, Hval.
    destruct cl as [k v]. cbn [fst snd app]. f_equal. f_equal.
    rewrite !length_app. lia.
  - destruct fuel as [|fuel]; [cbn in Hfuel; lia|].
    pose proof (Forall_inv Hk) as Hkc. pose proof (Forall_inv_tail Hk) as Hk'.
    pose proof (Forall_inv He) as Hec. pose proof (Forall_inv_tail He) as He'.
    pose proof (entry_ok_token c Hec) as Htok.
    cbn [remaining parseConstants].
    set (rest := START_LINE_TOKEN ++ remaining cs cl tail).
    replace (List.length (pre ++ entry c ++ rest) <? List.length pre)%nat
      with false by (symmetry; apply Nat.ltb_ge; rewrite length_app; lia).
    assert (Hnext : search (pre ++ entry c ++ rest) (List.length pre)
                      (List.length (pre ++ entry c ++ rest)) START_LINE_TOKEN
                    = (List.length pre + List.length (entry c))%nat).
    { apply search_all. subst rest. rewrite app_assoc.
      apply search_in_app; [exact Hec|]. rewrite length_app. lia. }
    rewrite Hnext.
    replace (List.length pre + List.length (entry c)
             =? List.length (pre ++ entry c ++ rest))%nat with false.
    2:{ symmetry. apply Nat.eqb_neq. subst rest. rewrite !length_app.
        destruct START_LINE_TOKEN; [contradiction Htok; reflexivity|].
        cbn [List.length]. lia. }
    destruct (parseConstants_cut pre c rest Hkc) as (Hc & Hkey & Hval).
    cbv zeta in Hc, Hkey, Hval. rewrite Hc, Hkey, Hval.
    replace (pre ++ entry c ++ rest)
      with ((pre ++ entry c ++ START_LINE_TOKEN) ++ remaining cs cl tail)
      by (subst rest; rewrite <- !app_assoc; reflexivity).
    replace (List.length pre + List.length (entry c)
             + List.length START_LINE_TOKEN)%nat
      with (List.length (pre ++ entry c ++ START_LINE_TOKEN))
      by (rewrite !length_app; lia).
    rewrite (IH fuel _ _ Hk' He') by (cbn [List.length] in Hfuel; lia).
    destruct c as [k v]. cbn [fst snd]. rewrite <- app_assoc. reflexivity.
Qed.

(** The variable names loop on the names of the layout. *)
Lemma parseFieldnames_layout rest : forall names fuel pre fieldnames,
  Forall nul_free names -> Forall (fun name => name <> START_DATA) names ->
  nul_free START_DATA ->
  (List.length names < fuel)%nat ->
  parseFieldnames fuel
    (pre ++ fields names ++ (START_DATA ++ [Byte.x00]) ++ rest)
    (List.length pre) fieldnames
  = Some (fieldnames ++ names).
Proof.
  induction names as [|name names IH]; intros fuel pre fieldnames Hn Hne Hsd Hfuel.
  - destruct fuel as [|fuel]; [cbn in Hfuel; lia|]. cbn [parseFieldnames].
    rewrite skipn_app, skipn_all, Nat.sub_diag.
    cbn [skipn fields map List.concat]. rewrite !app_nil_l, <- app_assoc.
    rewrite (c_str_field _ _ Hsd), bytes_eqb_refl, app_nil_r. reflexivity.
  - destruct fuel as [|fuel]; [cbn in Hfuel; lia|]. cbn [parseFieldnames].
    inversion Hn as [|? ? Hname Hn']; subst.
    inversion Hne as [|? ? Hnamene Hne']; subst.
    rewrite skipn_app, skipn_all, Nat.sub_diag. cbn [skipn].
    rewrite app_nil_l. unfold fields. cbn [map List.concat].
    rewrite <- !app_assoc. rewrite (c_str_field _ _ Hname).
    rewrite (bytes_eqb_neq _ _ Hnamene).
    replace (pre ++ name ++ [Byte.x00]
             ++ List.concat (map (fun field => field ++ [Byte.x00]) names)
             ++ START_DATA ++ [Byte.x00] ++ rest)
      with ((pre ++ name ++ [Byte.x00])
            ++ fields names ++ (START_DATA ++ [Byte.x00]) ++ rest)
      by (unfold fields; rewrite <- !app_assoc; reflexivity).
    replace (List.length pre + List.length name + 1)%nat
      with (List.length (pre ++ name ++ [Byte.x00]))
      by (rewrite !length_app; cbn [List.length]; lia).
    rewrite (IH fuel _ _ Hn' Hne' Hsd) by (cbn [List.length] in Hfuel; lia).
    rewrite <- app_assoc. reflexivity.
Qed.

Lemma int32_of_le_split v :
  - 2 ^ 31 <= v < 2 ^ 31 -> int32_of (le_combine (le_split 4 v)) = v.
Proof.
  intros Hv. rewrite le_combine_split. unfold int32_of.
  change (Z.of_nat 4 * 8) with 32.
  destruct (Z_lt_le_dec v 0) as [Hneg|Hpos].
  - replace (v mod 2 ^ 32) with (v + 2 ^ 32)
      by (apply Z.mod_unique with (q := -1); lia).
    replace (v + 2 ^ 32 <? 2 ^ 31) with false by (symmetry; apply Z.ltb_ge; lia).
    lia.
  - rewrite Z.mod_small by lia.
    replace (v <? 2 ^ 31) with true by (symmetry; apply Z.ltb_lt; lia).
    reflexivity.
Qed.

(** The header parser on a header of the layout. *)
Lemma parseHeader_layout cs cl names :
  Forall key_ok (cs ++ [cl]) -> Forall entry_ok cs ->
  search_in (entry cl ++ START_COLUMNS) START_COLUMNS = List.length (entry cl) ->
  (let tail := (START_COLUMNS ++ [Byte.x00]) ++ fields names
               ++ (START_DATA ++ [Byte.x00]) in
   search_in (entry cl ++ tail) START_LINE_TOKEN = List.length (entry cl ++ tail)) ->
  Forall nul_free names -> Forall (fun name => name <> START_DATA) names ->
  nul_free START_DATA ->
  parseHeader
    ((START_CONSTANTS ++ [Byte.x00]) ++ fields (map constantField (cs ++ [cl]))
     ++ (START_COLUMNS ++ [Byte.x00]) ++ fields names
     ++ (START_DATA ++ [Byte.x00]))
  = Some (cs ++ [cl], names).
Proof.
  intros Hk He Hcol Htok Hn Hne Hsd. cbv zeta in Htok.
  set (tail := (START_COLUMNS ++ [Byte.x00]) ++ fields names
               ++ (START_DATA ++ [Byte.x00])) in *.
  apply Forall_app in Hk. destruct Hk as (Hk & Hkl).
  pose proof (Forall_inv Hkl) as Hkl'.
  unfold parseHeader.
  rewrite (fields_constants cs cl tail).
  set (pre := (START_CONSTANTS ++ [Byte.x00]) ++ START_LINE_TOKEN).
  replace ((START_CONSTANTS ++ [Byte.x00]) ++ START_LINE_TOKEN
           ++ remaining cs cl tail)
    with (pre ++ remaining cs cl tail)
    by (subst pre; rewrite <- !app_assoc; reflexivity).
  replace (List.length START_CONSTANTS + 1 + List.length START_LINE_TOKEN)%nat
    with (List.length pre)
    by (subst pre; rewrite !length_app; cbn [List.length]; lia).
  assert (Hrem : (List.length cs + List.length tail
                  <= List.length (remaining cs cl tail))%nat).
  { clear. induction cs as [|c cs IH]; cbn [remaining List.length].
    - rewrite length_app. lia.
    - rewrite !length_app. pose proof (entry_length c). lia. }
  rewrite (parseConstants_layout cl tail Hkl' Hcol) with (cs := cs);
    [|subst tail; rewrite <- app_assoc; eexists; reflexivity
     |exact Htok|exact Hk|exact He|rewrite length_app; lia].
  cbn [app].
  assert (Hlt : (List.length START_COLUMNS + 1 < List.length tail)%nat).
  { subst tail. rewrite !length_app. cbn [List.length]. lia. }
  replace (List.length (pre ++ remaining cs cl tail)
           <=? List.length (pre ++ remaining cs cl tail) - List.length tail
               + List.length START_COLUMNS + 1)%nat with false
    by (symmetry; apply Nat.leb_gt; rewrite length_app; lia).
  assert (Hsplit : exists front,
             pre ++ remaining cs cl tail
             = front ++ fields names ++ (START_DATA ++ [Byte.x00]) ++ [] /\
             List.length front
             = (List.length (pre ++ remaining cs cl tail) - List.length tail
                + List.length START_COLUMNS + 1)%nat).
  { assert (Hr : exists front0, remaining cs cl tail = front0 ++ tail).
    { clear. induction cs as [|c cs (front0 & IH)]; cbn [remaining].
      - exists (entry cl). reflexivity.
      - exists (entry c ++ START_LINE_TOKEN ++ front0). rewrite IH.
        rewrite <- !app_assoc. reflexivity. }
    destruct Hr as (front0 & Hr).
    exists (pre ++ front0 ++ START_COLUMNS ++ [Byte.x00]). split.
    - rewrite Hr. subst tail. rewrite app_nil_r, <- !app_assoc. reflexivity.
    - rewrite Hr. subst tail. rewrite !length_app. cbn [List.length]. lia. }
  destruct Hsplit as (front & Hbuf & Hfront).
  rewrite <- Hfront, Hbuf, skipn_app, skipn_all, Nat.sub_diag.
  cbn [skipn]. rewrite app_nil_l.
  pose proof (parseFieldnames_layout [] names
                (S (List.length (front ++ fields names
                                 ++ (START_DATA ++ [Byte.x00]) ++ [])))
                [] [] Hn Hne Hsd) as Hnames.
  cbn [app List.length] in Hnames. rewrite Hnames.
  - reflexivity.
  - rewrite <- Hbuf, length_app.
    assert (List.length names <= List.length (fields names))%nat.
    { clear. unfold fields. induction names as [|n ns IH]; cbn [map List.concat List.length].
      - lia.
      - rewrite !length_app. cbn [List.length]. lia. }
    subst tail. rewrite !length_app in *. lia.
Qed.

(** The layout of a header that [parseLogDataRaw] reads, and what it reads
    in it.  After the version flag, [START_CONSTANTS] and a NUL, every
    constant stands as [START_LINE_TOKEN], key, delimiter, value, NUL (the
    first one too: the parser skips a token before it); then come
    [START_COLUMNS] and a NUL, the variable names, each with its NUL, and
    [START_DATA] with its NUL.  When the delimiter first occurs right after
    each key, [START_LINE_TOKEN] first occurs right after each constant but
    the last and nowhere from the last one on, [START_COLUMNS] first occurs
    right after the last constant, and no name holds a NUL or is
    [START_DATA], the parser on a file made of this header and of data
    lines returns [SUCCESS] with these constants, these names and the
    columns of the lines. *)
Theorem parseLogDataRaw_header_layout cs cl names lines numInt numFloat :
  token_ok ->
  - 2 ^ 31 <= TELEMETRY_VERSION < 2 ^ 31 ->
  Forall key_ok (cs ++ [cl]) -> Forall entry_ok cs ->
  search_in (entry cl ++ START_COLUMNS) START_COLUMNS = List.length (entry cl) ->
  (let tail := (START_COLUMNS ++ [Byte.x00]) ++ fields names
               ++ (START_DATA ++ [Byte.x00]) in
   search_in (entry cl ++ tail) START_LINE_TOKEN = List.length (entry cl ++ tail)) ->
  Forall nul_free names -> Forall (fun name => name <> START_DATA) names ->
  nul_free START_DATA ->
  Forall (line_ok numInt numFloat) lines ->
  let hdr := headerLayout (le_split 4 TELEMETRY_VERSION)
               (map constantField (cs ++ [cl])) names in
  parseLogDataRaw [fileDevice (hdr ++ List.concat (map encode_line lines))]
    (8 * Z.of_nat numInt) (8 * Z.of_nat numFloat) (Z.of_nat (List.length hdr))
  = Some (SUCCESS, append_lines (header_log (cs ++ [cl]) names) lines,
          [fileDevice (hdr ++ List.concat (map encode_line lines))]).
Proof.
  intros Htoken Hv Hk He Hcol Htok Hn Hne Hsd Hlines hdr.
  apply parseLogDataRaw_file; [exact Htoken| |exact Hlines].
  subst hdr. unfold headerLayout.
  assert (Hlen : List.length (le_split 4 TELEMETRY_VERSION) = 4%nat)
    by apply length_le_split.
  split; [|split].
  - rewrite length_app. lia.
  - rewrite firstn_app, Hlen, Nat.sub_diag, firstn_O, app_nil_r.
    rewrite firstn_all2 by (rewrite Hlen; lia). apply int32_of_le_split, Hv.
  - rewrite skipn_app, Hlen, Nat.sub_diag.
    rewrite skipn_all2 by (rewrite Hlen; lia). cbn [app skipn].
    apply parseHeader_layout; assumption.
Qed.

End ParserLayout.

(** A file of the layout: the three constants of the small recorder, its
    names, and one line. *)
Definition example_layout_file : list byte :=
  headerLayout (env := example_env_counts 200) (le_split 4 1)
    [bytes_of "START_LINE_TOKENGlobal.Time.Unit=1e-03";
     bytes_of "START_LINE_TOKENNumIntEntries=2";
     bytes_of "START_LINE_TOKENNumFloatEntries=1"]
    example_fieldnames
  ++ encode_line (env := example_env_counts 200) (mkLine 5 [7] [9]).

Lemma parseLogDataRaw_header_layout_witness :
  parseLogDataRaw (env := example_env_counts 200)
    [fileDevice example_layout_file] 8 8 166
  = Some (SUCCESS,
          mkLog 1 example_constants_counts example_fieldnames (1 # 1000)
                [5] [[7]] [[9]],
          [fileDevice example_layout_file]).
Proof.
  etransitivity;
    [|etransitivity;
      [exact (parseLogDataRaw_header_layout (env := example_env_counts 200)
                [(bytes_of "Global.Time.Unit", bytes_of "1e-03");
                 (bytes_of "NumIntEntries", bytes_of "2")]
                (bytes_of "NumFloatEntries", bytes_of "1")
                example_fieldnames [mkLine 5 [7] [9]] 1 1
                ltac:(unfold token_ok; cbn; discriminate)
                ltac:(cbn; lia)
                ltac:(repeat constructor)
                ltac:(repeat constructor)
                ltac:(vm_compute; reflexivity)
                ltac:(vm_compute; reflexivity)
                ltac:(repeat constructor; nul_free_bytes)
                ltac:(repeat constructor; cbn; discriminate)
                ltac:(nul_free_bytes)
                ltac:(repeat constructor))
      |vm_compute; reflexivity]].
  vm_compute. reflexivity.
Defined.

End TelemetryRecorder.
